(** * xfetcher: the download-and-extract pipeline of [Downloader]

    A shallow embedding of [src/xfetcher/downloader.py] and
    [src/xfetcher/utils.py].  Python strings are [string]s, [pathlib.Path]
    values are their [parts], the filesystem is an explicit state that
    every operation threads, and exceptions are values of the type [exn]
    carried by a small state-and-error monad.

    The collaborators the program does not implement itself (the URL
    library, the HTTP client, the operator at the console and the ZIP
    codec) are the fields of type classes. *)

From Stdlib Require Import String Ascii List ZArith Bool Lia.
From Stdlib Require Import QArith.
From Stdlib Require Import DecimalString.
From Stdlib Require Import Permutation.
Import ListNotations.

Close Scope Q_scope.
Open Scope string_scope.
Open Scope list_scope.

(** ** Python [str] operations used by the program *)

(** [s.startswith(pre)] *)
Fixpoint startswith (s pre : string) : bool :=
  match pre, s with
  | EmptyString, _ => true
  | String a pre', String b s' => Ascii.eqb a b && startswith s' pre'
  | String _ _, EmptyString => false
  end.

(** [needle in s] *)
Fixpoint str_in (needle s : string) : bool :=
  startswith s needle
  || match s with
     | EmptyString => false
     | String _ s' => str_in needle s'
     end.

(** [s.endswith(suf)]: some suffix of [s] is [suf]. *)
Fixpoint endswith (s suf : string) : bool :=
  String.eqb s suf
  || match s with
     | EmptyString => false
     | String _ s' => endswith s' suf
     end.

Definition lower_ascii (c : ascii) : ascii :=
  let n := nat_of_ascii c in
  if (65 <=? n)%nat && (n <=? 90)%nat then ascii_of_nat (n + 32) else c.

(** [s.lower()], on the ASCII letters. *)
Fixpoint lower (s : string) : string :=
  match s with
  | EmptyString => EmptyString
  | String c s' => String (lower_ascii c) (lower s')
  end.

(** [s.split("/")] *)
Fixpoint split_slash (s : string) : list string :=
  match s with
  | EmptyString => [EmptyString]
  | String c s' =>
      if Ascii.eqb c "/" then EmptyString :: split_slash s'
      else match split_slash s' with
           | h :: t => String c h :: t
           | [] => [String c EmptyString]
           end
  end.

(** No character of [s] is a slash. *)
Fixpoint no_slash (s : string) : bool :=
  match s with
  | EmptyString => true
  | String c s' => negb (Ascii.eqb c "/") && no_slash s'
  end.

(** ["/".join(parts)] *)
Fixpoint join_slash (l : list string) : string :=
  match l with
  | [] => EmptyString
  | [x] => x
  | x :: rest => x ++ "/" ++ join_slash rest
  end.

(** ** [pathlib.Path] on a POSIX system

    A [Path] is the tuple of its [parts].  [Path(s)] splits the root
    off ([posixpath.splitroot]: one slash, or exactly two), then
    drops the empty and the ["."] segments of what is left. *)

Definition Path := list string.

Definition splitroot (p : string) : string * string :=
  match p with
  | String "/" (String "/" r) =>
      match r with
      | String "/" _ => ("/", String "/" r)
      | _ => ("//", r)
      end
  | String "/" r => ("/", r)
  | _ => ("", p)
  end.

Definition kept_segment (x : string) : bool :=
  negb (String.eqb x "") && negb (String.eqb x ".").

(** [Path(s).parts] *)
Definition path_of_string (s : string) : Path :=
  let '(root, rel) := splitroot s in
  let tail := filter kept_segment (split_slash rel) in
  if String.eqb root "" then tail else root :: tail.

Definition is_rooted (p : Path) : bool :=
  match p with
  | r :: _ => startswith r "/"
  | [] => false
  end.

(** [p / s]: an absolute right operand replaces the left one. *)
Definition joinpath (p : Path) (s : string) : Path :=
  let q := path_of_string s in
  if is_rooted q then q else p ++ q.

(** [p.name]: the last part, unless it is the root. *)
Definition path_name (p : Path) : string :=
  match rev p with
  | [] => ""
  | x :: _ => if startswith x "/" then "" else x
  end.

(** [name.rfind(".")], as the number of characters before the last dot. *)
Fixpoint rfind_dot (s : string) : option nat :=
  match s with
  | EmptyString => None
  | String c s' =>
      match rfind_dot s' with
      | Some i => Some (S i)
      | None => if Ascii.eqb c "." then Some O else None
      end
  end.

(** [p.stem]: the name without its last suffix; a dot in first or last
    position does not start a suffix. *)
Definition path_stem (p : Path) : string :=
  let name := path_name p in
  match rfind_dot name with
  | Some i =>
      if (0 <? i)%nat && (i <? String.length name - 1)%nat
      then substring 0 i name else name
  | None => name
  end.

(** [p.parent] *)
Definition path_parent (p : Path) : Path := removelast p.

(** [str(p)] *)
Definition path_str (p : Path) : string :=
  match p with
  | r :: rest => if startswith r "/" then r ++ join_slash rest else join_slash p
  | [] => "."
  end.

Definition path_eqb (p q : Path) : bool :=
  if list_eq_dec string_dec p q then true else false.

(** ** [Downloader._is_safe_path] *)

Definition unsafe_part (part : string) : bool :=
  startswith part "\"
  || startswith part "/"
  || str_in ".." part
  || str_in ":" part.

Definition _is_safe_path (path : string) : bool :=
  negb (existsb unsafe_part (path_of_string path)).

(** ** Exceptions

    One constructor per exception the program raises or lets through.
    The wrapped ones carry their cause ([raise ... from e]). *)

Abbreviation bytes := string (only parsing).

Inductive exn : Type :=
| requests_ConnectionError
| requests_ConnectTimeout
| requests_Timeout
| requests_HTTPError
| requests_RequestException
| FileExistsError (p : Path)
| ConnectionError (url : string)
| TimeoutError (url : string)
| DownloadCancelled
| Exception_download_failed (cause : exn)
| Exception_download_and_extract (cause : exn)
| ValueError_not_zip (p : Path)
| ValueError_unsafe (unsafe_paths : list string)
| ValueError_url
| BadZipFile
| KeyError (name : string)
| UnboundLocalError (var : string)
| AttributeError (attr : string)
| IsADirectoryError (p : Path)
| NotADirectoryError (p : Path)
| FileNotFoundError (p : Path)
| BrokenPipeError
| RecursionError.

(** [isinstance(e, requests.ConnectionError)]: [ConnectTimeout] derives
    from both [ConnectionError] and [Timeout]. *)
Definition is_requests_ConnectionError (e : exn) : bool :=
  match e with
  | requests_ConnectionError | requests_ConnectTimeout => true
  | _ => false
  end.

Definition is_requests_Timeout (e : exn) : bool :=
  match e with
  | requests_Timeout | requests_ConnectTimeout => true
  | _ => false
  end.

Definition is_requests_RequestException (e : exn) : bool :=
  match e with
  | requests_ConnectionError | requests_ConnectTimeout | requests_Timeout
  | requests_HTTPError | requests_RequestException => true
  | _ => false
  end.

(** The error kinds of the specification's taxonomy that stand for a
    malformed argument: Python's [ValueError] and [TypeError]. *)
Definition is_invalid_input (e : exn) : bool :=
  match e with
  | ValueError_url | ValueError_not_zip _ | ValueError_unsafe _ => true
  | _ => false
  end.

(** ** The filesystem

    An association list from paths to nodes, in directory-listing
    order.  Paths are taken as they are written: the model has no
    symbolic links and resolves no [".."] segment.  The empty path is
    the working directory, which always exists. *)

Inductive node : Type :=
| File (data : bytes)
| Dir.

Definition FS := list (Path * node).

Fixpoint fs_lookup (fs : FS) (p : Path) : option node :=
  match fs with
  | [] => None
  | (q, n) :: rest => if path_eqb q p then Some n else fs_lookup rest p
  end.

Definition fs_stat (fs : FS) (p : Path) : option node :=
  match p with
  | [] => Some Dir
  | _ => fs_lookup fs p
  end.

(** [p.exists()], [p.is_file()], [p.is_dir()] *)
Definition fs_exists (fs : FS) (p : Path) : bool :=
  match fs_stat fs p with Some _ => true | None => false end.

Definition fs_is_file (fs : FS) (p : Path) : bool :=
  match fs_stat fs p with Some (File _) => true | _ => false end.

Definition fs_is_dir (fs : FS) (p : Path) : bool :=
  match fs_stat fs p with Some Dir => true | _ => false end.

Definition fs_remove (p : Path) (fs : FS) : FS :=
  filter (fun e => negb (path_eqb (fst e) p)) fs.

Definition fs_put (p : Path) (n : node) (fs : FS) : FS :=
  if existsb (fun e => path_eqb (fst e) p) fs
  then map (fun e => if path_eqb (fst e) p then (p, n) else e) fs
  else fs ++ [(p, n)].

Fixpoint is_prefix (p q : Path) : bool :=
  match p, q with
  | [], _ => true
  | a :: p', b :: q' => String.eqb a b && is_prefix p' q'
  | _ :: _, [] => false
  end.

(** [q] lies below the directory [p]. *)
Definition is_below (p q : Path) : bool :=
  is_prefix p q && negb (path_eqb p q).

Definition fs_rmtree_entries (p : Path) (fs : FS) : FS :=
  filter (fun e => negb (is_prefix p (fst e))) fs.

(** ** A state-and-error monad for the effectful methods *)

Definition M (A : Type) : Type := FS -> (exn + A) * FS.

Definition ret {A} (a : A) : M A := fun fs => (inr a, fs).

Definition raise {A} (e : exn) : M A := fun fs => (inl e, fs).

Definition bind {A B} (m : M A) (k : A -> M B) : M B :=
  fun fs =>
    match m fs with
    | (inl e, fs') => (inl e, fs')
    | (inr a, fs') => k a fs'
    end.

Notation "x <- m ;; k" := (bind m (fun x => k))
  (at level 61, m at next level, right associativity).
Notation "m ;;; k" := (bind m (fun _ => k))
  (at level 61, right associativity).

(** [try: body finally: fin]: an exception of [fin] replaces whatever
    the body did. *)
Definition try_finally {A} (body : M A) (fin : M unit) : M A :=
  fun fs =>
    let '(r, fs1) := body fs in
    match fin fs1 with
    | (inl e, fs2) => (inl e, fs2)
    | (inr _, fs2) => (r, fs2)
    end.

(** [for x in l: f x] *)
Fixpoint for_each {A} (l : list A) (f : A -> M unit) : M unit :=
  match l with
  | [] => ret tt
  | x :: rest => f x ;;; for_each rest f
  end.

(** ** Filesystem operations of the Python library *)

(** [p.unlink(missing_ok=...)]: a directory is not unlinked. *)
Definition unlink (missing_ok : bool) (p : Path) : M unit :=
  fun fs =>
    match fs_stat fs p with
    | Some (File _) => (inr tt, fs_remove p fs)
    | Some Dir => (inl (IsADirectoryError p), fs)
    | None =>
        if missing_ok then (inr tt, fs) else (inl (FileNotFoundError p), fs)
    end.

(** [os.mkdir(p)] *)
Definition os_mkdir (p : Path) : M unit :=
  fun fs =>
    match fs_stat fs p with
    | Some _ => (inl (FileExistsError p), fs)
    | None =>
        match fs_stat fs (path_parent p) with
        | Some Dir => (inr tt, fs_put p Dir fs)
        | Some (File _) => (inl (NotADirectoryError p), fs)
        | None => (inl (FileNotFoundError p), fs)
        end
    end.

Definition prefixes (p : Path) : list Path :=
  map (fun k => firstn k p) (seq 1 (length p)).

Definition mkdir_step (target q : Path) : M unit :=
  fun fs =>
    match fs_stat fs q with
    | Some Dir => (inr tt, fs)
    | Some (File _) =>
        (inl (if path_eqb q target then FileExistsError q
              else NotADirectoryError q), fs)
    | None => (inr tt, fs_put q Dir fs)
    end.

(** [p.mkdir(parents=True, exist_ok=True)] and
    [os.makedirs(p, exist_ok=True)]: the missing directories are made
    from the top; a regular file on the way is an error. *)
Definition mkdir_parents (p : Path) : M unit :=
  for_each (prefixes p) (mkdir_step p).

(** [open(p, "wb")]: creates or truncates. *)
Definition open_wb (p : Path) : M unit :=
  fun fs =>
    match fs_stat fs p with
    | Some Dir => (inl (IsADirectoryError p), fs)
    | _ =>
        match fs_stat fs (path_parent p) with
        | Some Dir => (inr tt, fs_put p (File "") fs)
        | Some (File _) => (inl (NotADirectoryError p), fs)
        | None => (inl (FileNotFoundError p), fs)
        end
    end.

(** [f.write(data)] on the file opened at [p]. *)
Definition write_chunk (p : Path) (data : bytes) : M unit :=
  fun fs =>
    match fs_lookup fs p with
    | Some (File old) => (inr tt, fs_put p (File (old ++ data)%string) fs)
    | _ => (inr tt, fs)
    end.

(** [shutil.rmtree(p, ignore_errors=True)] *)
Definition rmtree_ignore_errors (p : Path) : M unit :=
  fun fs =>
    match fs_stat fs p with
    | Some Dir => (inr tt, fs_rmtree_entries p fs)
    | _ => (inr tt, fs)
    end.

(** ** Collaborators *)

(** [urllib.parse]: the path component of a URL ([None] when
    [urlparse] raises) and percent-decoding. *)
Class UrlLib : Type := {
  urlparse_path : string -> option string;
  unquote : string -> string
}.

(** A streamed HTTP response: its status, its [content-length] header,
    and the chunks [iter_content(chunk_size)] yields, followed by the
    exception that ends the stream early, if any. *)
Record Response : Type := {
  status_code : Z;
  content_length : option Z;
  iter_content : Z -> list bytes * option exn
}.

Class HttpClient : Type := {
  requests_get : string -> exn + Response
}.

(** The console: the operator's answer to [input(prompt)], and the
    exception a [print] of the manifest raises, if any. *)
Class Console : Type := {
  input : string -> string;
  print_lines : list string -> option exn
}.

(** The ZIP codec: [zipfile.is_zipfile] on the bytes of a file, and the
    entries [zipfile.ZipFile] reads from them ([None]: [BadZipFile]). *)
Class ZipCodec : Type := {
  is_zipfile_data : bytes -> bool;
  zip_read : bytes -> option (list (string * bytes))
}.

(** The attributes of a [Downloader] instance. *)
Record Downloader : Type := {
  save_dir : Path;
  keep_zip : bool
}.

(** ** [utils.get_filename_from_url] *)

(** [os.path.basename(p)]: what follows the last slash. *)
Definition basename (p : string) : string := last (split_slash p) "".

Definition get_filename_from_url `{UrlLib} (url : string) : exn + string :=
  match urlparse_path url with
  | None => inl ValueError_url
  | Some path =>
      let filename := basename path in
      let decoded_filename := unquote filename in
      inr (if String.eqb decoded_filename "" then "downloaded_file.zip"
           else decoded_filename)
  end.

(** ** [Downloader._humanize_size] *)

(** [float(n)] for an [int]: the nearest double, ties to even; the
    result is again a whole number.  Beyond the double range, from
    [2 ^ 1024 - 2 ^ 970] on, Python raises [OverflowError]; that is not
    modelled, and the function gives the rounded number there. *)
Definition float_of_int (n : Z) : Z :=
  let a := Z.abs n in
  let e := (Z.log2 a - 52)%Z in
  if (e <=? 0)%Z then n
  else
    let q := Z.shiftr a e in
    let r := (a - Z.shiftl q e)%Z in
    let half := Z.shiftl 1 (e - 1) in
    let q' := if (half <? r)%Z || ((r =? half)%Z && Z.odd q)
              then (q + 1)%Z else q in
    (Z.sgn n * Z.shiftl q' e)%Z.

Definition decimal_of_Z (n : Z) : string :=
  ((if (n <? 0)%Z then "-" else "")
   ++ NilEmpty.string_of_uint (N.to_uint (Z.to_N (Z.abs n))))%string.

(** [f"{size:.1f}"] for an [int]: the integer goes through [float] and
    is printed with one decimal, which is a zero. *)
Definition format_1f (size : Z) : string :=
  (decimal_of_Z (float_of_int size) ++ ".0")%string.

Definition Qltb (x y : Q) : bool := negb (Qle_bool y x).

(** The loop over the units: the test is on [current_size], the text
    is made from [size]. *)
Fixpoint humanize_units (size : Z) (current_size : Q) (units : list string)
  : string :=
  match units with
  | [] => (format_1f size ++ "TB")%string
  | unit :: rest =>
      if Qltb current_size (inject_Z 1024) then (format_1f size ++ unit)%string
      else humanize_units size (current_size / inject_Z 1024)%Q rest
  end.

Definition _humanize_size (size : Z) : string :=
  humanize_units size (inject_Z (float_of_int size)) ["B"; "KB"; "MB"; "GB"].

Section Methods.

Context `{UrlLib} `{HttpClient} `{Console} `{ZipCodec}.
Variable self : Downloader.

(** ** [Downloader.__init__] (the writability test is left out) *)
Definition __init__ : M unit := mkdir_parents (save_dir self).

(** ** [Downloader.__exit__] *)

(** [dir.glob("*.zip")]: the entries directly in [dir] whose name
    matches, directories included, in listing order.  The listing is
    taken before the first entry is handed out. *)
Definition glob_match (dir q : Path) : bool :=
  path_eqb (path_parent q) dir
  && negb (path_eqb q [])
  && endswith (path_name q) ".zip".

Definition glob_zip (dir : Path) (fs : FS) : list Path :=
  map fst (filter (fun e => glob_match dir (fst e)) fs).

Definition __exit__ : M unit :=
  if negb (keep_zip self)
  then fun fs => for_each (glob_zip (save_dir self) fs) (unlink true) fs
  else ret tt.

(** ** [Downloader.download_file]

    The progress bar only reports and is left out. *)

(** What the local variable [response] is bound to. *)
Inductive response_var : Type :=
| Unbound
| HttpResponse (r : Response)
| StrAnswer (s : string).

(** [response.raise_for_status()] *)
Definition raise_for_status (r : Response) : option exn :=
  if (400 <=? status_code r)%Z && (status_code r <? 600)%Z
  then Some requests_HTTPError else None.

Definition one_GiB : Z := 1024 * 1024 * 1024.

(** The body of the [try] statement.  It returns the binding of
    [response] at the point where it ends, normally or not. *)
Definition download_try (url : string) (file_path : Path) (chunk_size : Z)
  : FS -> option exn * response_var * FS :=
  fun fs =>
    match requests_get url with
    | inl e => (Some e, Unbound, fs)
    | inr r =>
        match raise_for_status r with
        | Some e => (Some e, HttpResponse r, fs)
        | None =>
            let total_size :=
              match content_length r with Some n => n | None => 0%Z end in
            let '(response, cancelled) :=
              if (one_GiB <? total_size)%Z
              then
                let answer :=
                  input ("File size is " ++ _humanize_size total_size
                         ++ ". Continue? (y/n): ")%string in
                (StrAnswer answer, negb (String.eqb (lower answer) "y"))
              else (HttpResponse r, false) in
            if cancelled then (Some DownloadCancelled, response, fs)
            else
              match open_wb file_path fs with
              | (inl e, fs1) => (Some e, response, fs1)
              | (inr _, fs1) =>
                  match response with
                  | HttpResponse r' =>
                      let '(chunks, err) := iter_content r' chunk_size in
                      match for_each chunks (write_chunk file_path) fs1 with
                      | (inl e, fs2) => (Some e, response, fs2)
                      | (inr _, fs2) => (err, response, fs2)
                      end
                  | StrAnswer _ =>
                      (Some (AttributeError "iter_content"), response, fs1)
                  | Unbound =>
                      (Some (UnboundLocalError "response"), response, fs1)
                  end
              end
        end
    end.

(** [if file_path.exists(): file_path.unlink()] *)
Definition unlink_if_exists (file_path : Path) : M unit :=
  fun fs =>
    if fs_exists fs file_path then unlink false file_path fs else (inr tt, fs).

(** The three [except] clauses, in their order. *)
Definition download_except (url : string) (file_path : Path) (e : exn)
  : M Path :=
  if is_requests_ConnectionError e then
    unlink_if_exists file_path ;;; raise (ConnectionError url)
  else if is_requests_Timeout e then
    unlink_if_exists file_path ;;; raise (TimeoutError url)
  else if is_requests_RequestException e then
    unlink_if_exists file_path ;;; raise (Exception_download_failed e)
  else raise e.

(** [finally: response.close()] *)
Definition close_response (response : response_var) : M unit :=
  match response with
  | HttpResponse _ => ret tt
  | StrAnswer _ => raise (AttributeError "close")
  | Unbound => raise (UnboundLocalError "response")
  end.

(** [if not filename: filename = get_filename_from_url(url)] *)
Definition resolve_filename (url : string) (filename : option string)
  : exn + string :=
  match filename with
  | Some f => if String.eqb f "" then get_filename_from_url url else inr f
  | None => get_filename_from_url url
  end.

Definition download_file (url : string) (filename : option string)
    (chunk_size : Z) : M Path :=
  fun fs =>
    match resolve_filename url filename with
    | inl e => (inl e, fs)
    | inr filename =>
        let file_path := joinpath (save_dir self) filename in
        if fs_exists fs file_path then (inl (FileExistsError file_path), fs)
        else
          let '(raised, response, fs1) :=
            download_try url file_path chunk_size fs in
          try_finally
            (match raised with
             | Some e => download_except url file_path e
             | None => ret file_path
             end)
            (close_response response) fs1
    end.

(** ** [Downloader.extract_zip] *)

(** [zipfile.is_zipfile(p)]: false for what is not a readable file. *)
Definition is_zipfile (p : Path) (fs : FS) : bool :=
  match fs_stat fs p with
  | Some (File data) => is_zipfile_data data
  | _ => false
  end.

(** [zipfile.ZipFile(p, "r")]: the entries are read when the archive is
    opened. *)
Definition ZipFile (p : Path) : M (list (string * bytes)) :=
  fun fs =>
    match fs_stat fs p with
    | Some (File data) =>
        match zip_read data with
        | Some entries => (inr entries, fs)
        | None => (inl BadZipFile, fs)
        end
    | Some Dir => (inl (IsADirectoryError p), fs)
    | None => (inl (FileNotFoundError p), fs)
    end.

Definition namelist (entries : list (string * bytes)) : list string :=
  map fst entries.

(** [zip_ref.getinfo(name)]: the last entry of that name. *)
Definition getinfo (entries : list (string * bytes)) (name : string)
  : option bytes :=
  match find (fun e => String.eqb (fst e) name) (rev entries) with
  | Some e => Some (snd e)
  | None => None
  end.

(** The segments [zipfile] keeps of an entry name: the empty ones and
    the [.] and [..] ones are dropped. *)
Definition arcname_parts (name : string) : Path :=
  filter (fun x => negb (String.eqb x "" || String.eqb x "."
                         || String.eqb x ".."))
         (split_slash name).

(** [zip_ref.extract(member, extract_path)] *)
Definition zip_extract (entries : list (string * bytes)) (member : string)
    (extract_path : Path) : M unit :=
  match getinfo entries member with
  | None => raise (KeyError member)
  | Some data =>
      let targetpath := extract_path ++ arcname_parts member in
      let upperdirs := path_parent targetpath in
      (fun fs =>
         if fs_exists fs upperdirs then (inr tt, fs)
         else mkdir_parents upperdirs fs) ;;;
      if endswith member "/"
      then fun fs =>
             if fs_is_dir fs targetpath then (inr tt, fs)
             else os_mkdir targetpath fs
      else open_wb targetpath ;;; write_chunk targetpath data
  end.

Definition is_nested_zip (member : string) : bool :=
  endswith (lower member) ".zip".

(** One round of the loop over the members; [recur] is the recursive
    call [self.extract_zip]. *)
Definition extract_member (recur : Path -> option Path -> M Path)
    (entries : list (string * bytes)) (extract_path : Path) (member : string)
  : M unit :=
  zip_extract entries member extract_path ;;;
  if is_nested_zip member then
    let nested_path := joinpath extract_path member in
    let nested_extract_path :=
      joinpath extract_path (path_stem (path_of_string member)) in
    try_finally
      (recur nested_path (Some nested_extract_path) ;;; ret tt)
      (if negb (keep_zip self) then unlink true nested_path else ret tt)
  else ret tt.

(** The directory an extraction goes to: the one given, or the one
    named after the archive in the session directory. *)
Definition destination (zip_path : Path) (extract_path : option Path) : Path :=
  match extract_path with
  | None => joinpath (save_dir self) (path_stem zip_path)
  | Some p => p
  end.

Definition extract_zip_body (recur : Path -> option Path -> M Path)
    (zip_path : Path) (extract_path : option Path) : M Path :=
  fun fs =>
    if negb (is_zipfile zip_path fs) then (inl (ValueError_not_zip zip_path), fs)
    else
      let extract_path := destination zip_path extract_path in
      (mkdir_parents extract_path ;;;
       entries <- ZipFile zip_path ;;
       (let unsafe_paths :=
          filter (fun name => negb (_is_safe_path name)) (namelist entries) in
        match unsafe_paths with
        | _ :: _ => raise (ValueError_unsafe unsafe_paths)
        | [] =>
            for_each (namelist entries)
                     (extract_member recur entries extract_path)
        end) ;;;
       (if negb (keep_zip self) then unlink true zip_path else ret tt) ;;;
       ret extract_path) fs.

(** The recursion of [extract_zip] on nested archives is bounded by the
    interpreter's recursion limit; reaching it raises [RecursionError]
    at the call. *)
Fixpoint extract_zip (limit : nat) (zip_path : Path)
    (extract_path : option Path) : M Path :=
  extract_zip_body
    (match limit with
     | O => fun _ _ => raise RecursionError
     | S l => extract_zip l
     end)
    zip_path extract_path.

(** ** [Downloader._format_extracted_files] *)

Fixpoint path_leb (p q : Path) : bool :=
  match p, q with
  | [], _ => true
  | _ :: _, [] => false
  | a :: p', b :: q' =>
      match String.compare a b with
      | Lt => true
      | Gt => false
      | Eq => path_leb p' q'
      end
  end.

Fixpoint insert_path (p : Path) (l : list Path) : list Path :=
  match l with
  | [] => [p]
  | q :: rest => if path_leb p q then p :: l else q :: insert_path p rest
  end.

(** [sorted(files)] *)
Definition sorted (files : list Path) : list Path :=
  fold_right insert_path [] files.

(** [p.relative_to(base)]; [None] stands for the [ValueError]. *)
Fixpoint relative_to (p base : Path) : option Path :=
  match base, p with
  | [], _ => Some p
  | b :: base', a :: p' =>
      if String.eqb a b then relative_to p' base' else None
  | _ :: _, [] => None
  end.

Definition st_size (data : bytes) : Z := Z.of_nat (String.length data).

Definition _format_extracted_files (base_dir : Path) (files : list Path)
    (fs : FS) : list string :=
  flat_map
    (fun file_path =>
       match fs_stat fs file_path with
       | Some (File data) =>
           match relative_to file_path base_dir with
           | Some relative_path =>
               [(path_str relative_path ++ " ("
                 ++ _humanize_size (st_size data) ++ ")")%string]
           | None => []
           end
       | _ => []
       end)
    (sorted files).

(** [list(dir.rglob("*"))] *)
Definition rglob_all (dir : Path) (fs : FS) : list Path :=
  map fst (filter (fun e => is_below dir (fst e)) fs).

(** ** [Downloader.download_and_extract] *)

(** The two local variables the [except] clause looks up in
    [locals()]. *)
Record locals : Type := {
  zip_path_local : option Path;
  extract_dir_local : option Path
}.

(** The body of the [try] statement, with the locals bound when it
    ends. *)
Definition download_and_extract_try (limit : nat) (url : string)
    (extract_path : option Path)
  : FS -> (exn + (string * list string)) * locals * FS :=
  fun fs =>
    match download_file url None 8192 fs with
    | (inl e, fs1) => (inl e, Build_locals None None, fs1)
    | (inr zip_path, fs1) =>
        match extract_zip limit zip_path extract_path fs1 with
        | (inl e, fs2) => (inl e, Build_locals (Some zip_path) None, fs2)
        | (inr extract_dir, fs2) =>
            let bound := Build_locals (Some zip_path) (Some extract_dir) in
            let extracted_files := rglob_all extract_dir fs2 in
            let formatted_files :=
              _format_extracted_files extract_dir extracted_files fs2 in
            match print_lines formatted_files with
            | Some e => (inl e, bound, fs2)
            | None => (inr (path_str extract_dir, formatted_files), bound, fs2)
            end
        end
    end.

(** The [except Exception as e] clause. *)
Definition download_and_extract_except (bound : locals) (e : exn)
  : M (string * list string) :=
  (match zip_path_local bound with
   | Some zip_path => unlink true zip_path
   | None => ret tt
   end) ;;;
  (match extract_dir_local bound with
   | Some extract_dir => rmtree_ignore_errors extract_dir
   | None => ret tt
   end) ;;;
  raise (Exception_download_and_extract e).

Definition download_and_extract (limit : nat) (url : string)
    (extract_path : option Path) : M (string * list string) :=
  fun fs =>
    match download_and_extract_try limit url extract_path fs with
    | (inl e, bound, fs1) => download_and_extract_except bound e fs1
    | (inr r, _, fs1) => (inr r, fs1)
    end.

End Methods.

(** ** Predicates used to state what an extraction leaves behind *)

(** The name of the file an entry is extracted to ends in [.zip] only
    if the entry name does (directory entries aside).  Names with a
    trailing [.] segment, such as [a.zip/.], are not of this kind. *)
Definition entry_name_regular (member : string) : bool :=
  endswith member "/"
  || match rev (arcname_parts member) with
     | [] => false
     | file_name :: _ => implb (is_nested_zip file_name) (is_nested_zip member)
     end.

(** No regular file below [root] has a name ending in [.zip], the
    listed paths aside. *)
Definition zip_free (root : Path) (aside : list Path) (fs : FS) : bool :=
  forallb
    (fun e =>
       match snd e with
       | Dir => true
       | File _ =>
           negb (is_below root (fst e) && is_nested_zip (path_name (fst e)))
           || existsb (path_eqb (fst e)) aside
       end)
    fs.

(** Every regular file below [root] with a [.zip] name is one of
    [aside]. *)
Definition only_zips (root : Path) (aside : list Path) (fs : FS) : Prop :=
  forall q d, In (q, File d) fs ->
              is_below root q = true -> is_nested_zip (path_name q) = true ->
              In q aside.

(** The archive with the bytes [data] has entry names of the regular
    kind, and so have the nested archives that are extracted from it,
    level by level, as far as the recursion limit lets [extract_zip] go.
    Bytes that are no archive have no entry to look at. *)
Fixpoint regular_nested `{ZipCodec} (limit : nat) (data : bytes) : bool :=
  match zip_read data with
  | None => true
  | Some entries =>
      forallb
        (fun member =>
           entry_name_regular member
           && (negb (is_nested_zip member)
               || match limit, getinfo entries member with
                  | S l, Some nested => regular_nested l nested
                  | _, _ => true
                  end))
        (namelist entries)
  end.

(** [regular_nested] of the archive file at [p], if there is one. *)
Definition regular_archive_at `{ZipCodec} (limit : nat) (p : Path) (fs : FS)
  : bool :=
  match fs_stat fs p with
  | Some (File data) => regular_nested limit data
  | _ => true
  end.

(** What an induction on the recursion limit provides for the
    recursive call of [extract_zip], on an archive whose bytes are
    [regular]. *)
Definition recur_leaves_no_zip (root : Path) (regular : bytes -> bool)
    (recur : Path -> option Path -> M Path) : Prop :=
  forall nested_path dest fs r fs' aside,
    is_prefix root dest = true ->
    (forall data, fs_stat fs nested_path = Some (File data) ->
                  regular data = true) ->
    only_zips root (nested_path :: aside) fs ->
    recur nested_path (Some dest) fs = (inr r, fs') ->
    only_zips root aside fs'.

(** ** Collaborators given by tables, and a session, for the examples *)

Fixpoint table_get {A} (table : list (string * A)) (key : string) : option A :=
  match table with
  | [] => None
  | (k, v) :: rest => if String.eqb k key then Some v else table_get rest key
  end.

(** URLs without percent-escapes, with their path components. *)
Definition example_urllib : UrlLib := {|
  urlparse_path :=
    table_get [("https://example.com/data.zip", "/data.zip");
               ("https://example.com/big.iso", "/big.iso");
               ("https://example.com/", "/")];
  unquote := fun s => s
|}.

(** A server: what [requests.get] does for each URL; any other host
    cannot be reached. *)
Definition server (table : list (string * (exn + Response))) : HttpClient := {|
  requests_get := fun url =>
    match table_get table url with
    | Some r => r
    | None => inl requests_ConnectionError
    end
|}.

(** A response whose body arrives in the given chunks whatever the
    chunk size asked for. *)
Definition ok_response (size : option Z) (chunks : list bytes) : Response := {|
  status_code := 200;
  content_length := size;
  iter_content := fun _ => (chunks, None)
|}.

Definition not_found_response : Response := {|
  status_code := 404;
  content_length := None;
  iter_content := fun _ => ([], None)
|}.

(** A response cut by a connection error after its first chunks. *)
Definition dropped_response (chunks : list bytes) : Response := {|
  status_code := 200;
  content_length := None;
  iter_content := fun _ => (chunks, Some requests_ConnectionError)
|}.

(** An operator who always gives the same answer, at a console where
    printing works. *)
Definition operator (answer : string) : Console := {|
  input := fun _ => answer;
  print_lines := fun _ => None
|}.

(** A codec that knows the archives of a table. *)
Definition table_codec (table : list (bytes * list (string * bytes)))
  : ZipCodec := {|
  is_zipfile_data := fun data =>
    match table_get table data with Some _ => true | None => false end;
  zip_read := table_get table
|}.

Definition example_archives : list (bytes * list (string * bytes)) :=
  [("EVIL", [("ok.txt", "fine"); ("../escape.txt", "boo")]);
   ("INNER", [("a.txt", "A")]);
   ("OUTER", [("readme.txt", "hi"); ("inner.zip", "INNER")]);
   ("BROKEN", [("first.txt", "1"); ("inner.zip", "EVIL")])].

Definition example_codec : ZipCodec := table_codec example_archives.

(** An archive with an entry named [a.zip/.]: a file entry that
    [zipfile] extracts to [a.zip]. *)
Definition odd_codec : ZipCodec :=
  table_codec [("ODD", [("a.zip/.", "INNER")])].

(** The archives of [example_codec] with the odd one beside them. *)
Definition mixed_codec : ZipCodec :=
  table_codec (example_archives ++ [("ODD", [("a.zip/.", "INNER")])]).

Definition session : Downloader :=
  {| save_dir := ["downloads"]; keep_zip := false |}.

Definition session_keep : Downloader :=
  {| save_dir := ["downloads"]; keep_zip := true |}.

Definition fs_empty_session : FS := [(["downloads"], Dir)].

Definition data_url : string := "https://example.com/data.zip".

Definition big_url : string := "https://example.com/big.iso".

(** The host of [data_url] cannot be reached. *)
Definition server_unreachable : HttpClient :=
  server [(data_url, inl requests_ConnectionError)].

(** [data_url] is answered by 404. *)
Definition server_not_found : HttpClient :=
  server [(data_url, inr not_found_response)].

(** [data_url] delivers a body in two chunks. *)
Definition server_small : HttpClient :=
  server [(data_url, inr (ok_response (Some 4%Z) ["PK"; "34"]))].

(** [data_url] delivers the archive [EVIL], which has an unsafe entry. *)
Definition server_evil : HttpClient :=
  server [(data_url, inr (ok_response (Some 4%Z) ["EV"; "IL"]))].

(** [big_url] announces 2 GiB. *)
Definition big_response : Response := ok_response (Some 2147483648%Z) ["...."].

Definition server_big : HttpClient := server [(big_url, inr big_response)].

Definition fs_existing_download : FS :=
  [(["downloads"], Dir); (["downloads"; "data.zip"], File "old")].

Definition fs_evil_downloaded : FS :=
  [(["downloads"], Dir); (["downloads"; "data.zip"], File "EVIL")].

Definition fs_evil_rejected : FS :=
  [(["downloads"], Dir); (["downloads"; "data.zip"], File "EVIL");
   (["downloads"; "data"], Dir)].

Definition fs_outer_archive : FS :=
  [(["downloads"], Dir); (["downloads"; "outer.zip"], File "OUTER")].

Definition fs_outer_extracted : FS :=
  [(["downloads"], Dir); (["downloads"; "outer"], Dir);
   (["downloads"; "outer"; "readme.txt"], File "hi");
   (["downloads"; "outer"; "inner"], Dir);
   (["downloads"; "outer"; "inner"; "a.txt"], File "A")].

Definition fs_broken_archive : FS :=
  [(["downloads"], Dir); (["downloads"; "broken.zip"], File "BROKEN")].

Definition fs_broken_left : FS :=
  [(["downloads"], Dir); (["downloads"; "broken.zip"], File "BROKEN");
   (["downloads"; "broken"], Dir);
   (["downloads"; "broken"; "first.txt"], File "1");
   (["downloads"; "broken"; "inner"], Dir)].

Definition fs_odd_archive : FS :=
  [(["downloads"], Dir); (["downloads"; "odd.zip"], File "ODD")].

(** A session directory where a directory named [stale.zip] is listed
    before the file [data.zip]. *)
Definition fs_stale_directory : FS :=
  [(["downloads"], Dir); (["downloads"; "stale.zip"], Dir);
   (["downloads"; "data.zip"], File "PK")].

Definition fs_after_downloads : FS :=
  [(["downloads"], Dir);
   (["downloads"; "old.zip"], File "PK-old");
   (["downloads"; "notes.txt"], File "n");
   (["downloads"; "data"], Dir);
   (["downloads"; "data"; "kept.zip"], File "PK-kept");
   (["downloads"; "data.zip"], File "PK-new")].

(** ** [Downloader.__init__] with its writability test

    [os.access(save_dir, os.W_OK)] is answered by the operating system
    from permissions the filesystem model does not hold; it is a
    parameter. *)

Inductive init_exn : Type :=
| MkdirError (e : exn)
| PermissionError (p : Path).

Definition Downloader_new (os_access_w : FS -> Path -> bool)
    (save_dir : Path) (keep_zip : bool) : FS -> (init_exn + Downloader) * FS :=
  fun fs =>
    match mkdir_parents save_dir fs with
    | (inl e, fs1) => (inl (MkdirError e), fs1)
    | (inr _, fs1) =>
        if os_access_w fs1 save_dir
        then (inr {| save_dir := save_dir; keep_zip := keep_zip |}, fs1)
        else (inl (PermissionError save_dir), fs1)
    end.

(** ** The [with] statement on a [Downloader]

    [__enter__] returns [self]; [__exit__] returns [None], so an
    exception of the block is not suppressed, and an exception of
    [__exit__] replaces it. *)
Definition with_session {A} (self : Downloader) (block : M A) : M A :=
  try_finally block (__exit__ self).

(** ** [Downloader.list_contents]

    The method prints; the model gives the lines it prints.  Its
    argument is a string or a [Path]; an empty string, like [None],
    stands for the session directory.  The filesystem model holds no
    permissions, so the walk does not raise [PermissionError]. *)

Inductive path_like : Type :=
| PathStr (s : string)
| PathObj (p : Path).

Definition newline : string := String (ascii_of_nat 10) EmptyString.

(** [Path(directory) if directory else self.save_dir] *)
Definition dir_to_list (self : Downloader) (directory : option path_like)
  : Path :=
  match directory with
  | Some (PathStr s) =>
      if String.eqb s "" then save_dir self else path_of_string s
  | Some (PathObj p) => p
  | None => save_dir self
  end.

(** [rglob] of what is no directory yields nothing. *)
Definition list_contents (self : Downloader) (directory : option path_like)
    (fs : FS) : list string :=
  let dir_to_list := dir_to_list self directory in
  if negb (fs_exists fs dir_to_list)
  then [("Directory does not exist: " ++ path_str dir_to_list)%string]
  else
    (newline ++ "Contents of " ++ path_str dir_to_list ++ ":")%string
    :: flat_map
         (fun item =>
            match fs_stat fs item with
            | Some (File data) =>
                match relative_to item dir_to_list with
                | Some relative_path =>
                    [(path_str relative_path ++ " ("
                      ++ _humanize_size (st_size data) ++ ")")%string]
                | None => []
                end
            | _ => []
            end)
         (if fs_is_dir fs dir_to_list then rglob_all dir_to_list fs else []).

(** ** Relations between the filesystem before and after a run *)

(** Every run of [m] relates the filesystem it starts from to the one
    it ends with by [R]. *)
Definition preserves (R : FS -> FS -> Prop) {A} (m : M A) : Prop :=
  forall fs r fs', m fs = (r, fs') -> R fs fs'.

(** The paths outside [area] hold what they held. *)
Definition unchanged_outside (area : Path -> bool) (fs fs' : FS) : Prop :=
  forall q, area q = false -> fs_lookup fs' q = fs_lookup fs q.

(** What was a directory is a directory. *)
Definition dirs_kept (fs fs' : FS) : Prop :=
  forall q, fs_lookup fs q = Some Dir -> fs_lookup fs' q = Some Dir.

(** What existed exists. *)
Definition paths_kept (fs fs' : FS) : Prop :=
  forall q, fs_lookup fs q <> None -> fs_lookup fs' q <> None.

(** The file at [target] still holds [data]. *)
Definition file_kept (target : Path) (data : bytes) (fs fs' : FS) : Prop :=
  fs_lookup fs target = Some (File data) ->
  fs_lookup fs' target = Some (File data).

(** The paths the extraction of [zip_path] into [dest] may touch: the
    archive, the destination with what lies below it, and the
    directories above it. *)
Definition extraction_area (zip_path dest q : Path) : bool :=
  is_prefix q dest || is_prefix dest q || path_eqb q zip_path.

(** What [extract_zip] does once the destination directory is made. *)
Definition extract_zip_after_mkdir `{ZipCodec} (self : Downloader)
    (recur : Path -> option Path -> M Path) (zip_path dest : Path) : M Path :=
  entries <- ZipFile zip_path ;;
  (let unsafe_paths :=
     filter (fun name => negb (_is_safe_path name)) (namelist entries) in
   match unsafe_paths with
   | _ :: _ => raise (ValueError_unsafe unsafe_paths)
   | [] => for_each (namelist entries)
                    (extract_member self recur entries dest)
   end) ;;;
  (if negb (keep_zip self) then unlink true zip_path else ret tt) ;;;
  ret dest.

(** [float(n)] raises [OverflowError] for an [int] that rounds beyond
    the largest double, [2 ^ 1024 - 2 ^ 971]: that is from
    [2 ^ 1024 - 2 ^ 970] on, the halfway point, which rounds to even,
    upwards.  Below this bound [float_of_int] is the conversion. *)
Definition float_limit : Z := 2 ^ 1024 - 2 ^ 970.

(** The largest double. *)
Definition float_max : Z := 2 ^ 1024 - 2 ^ 971.

(** The unit the loop of [_humanize_size] picks when [current_size] is
    the fraction [x / d]. *)
Fixpoint pick_unit (x d : Z) (units : list string) : string :=
  match units with
  | [] => "TB"
  | unit :: rest =>
      if (x <? 1024 * d)%Z then unit else pick_unit x (d * 1024) rest
  end.

(** The unit [_humanize_size] picks for a byte count. *)
Definition unit_of_size (size : Z) : string :=
  if (size <? 1024)%Z then "B"
  else if (size <? 1024 ^ 2)%Z then "KB"
  else if (size <? 1024 ^ 3)%Z then "MB"
  else if (size <? 1024 ^ 4)%Z then "GB"
  else "TB".

(** ** More collaborators and filesystems for the examples *)

(** [data_url] delivers bytes that are no archive. *)
Definition server_text : HttpClient :=
  server [(data_url, inr (ok_response (Some 5%Z) ["he"; "llo"]))].

(** [data_url] delivers the nested archive [OUTER]. *)
Definition server_outer : HttpClient :=
  server [(data_url, inr (ok_response (Some 5%Z) ["OUT"; "ER"]))].

(** [data_url] breaks after two chunks, by an exception of [requests]
    or by another one. *)
Definition server_dropped : HttpClient :=
  server [(data_url, inr (dropped_response ["ab"; "cd"]))].

Definition server_crashing : HttpClient :=
  server [(data_url,
           inr {| status_code := 200;
                  content_length := None;
                  iter_content :=
                    fun _ => (["ab"; "cd"], Some BrokenPipeError) |})].

(** A console where printing fails. *)
Definition closed_console : Console := {|
  input := fun _ => "y";
  print_lines := fun _ => Some BrokenPipeError
|}.

Definition fs_blocked_session : FS := [(["downloads"], File "in the way")].

Definition fs_outer_with_notes : FS :=
  [(["downloads"], Dir);
   (["downloads"; "notes.txt"], File "n");
   (["downloads"; "outer.zip"], File "OUTER")].

(** An archive of two plain files. *)
Definition flat_codec : ZipCodec :=
  table_codec [("FLAT", [("docs/a.txt", "A"); ("b.txt", "B")])].

Definition fs_flat_archive : FS :=
  [(["downloads"], Dir); (["downloads"; "flat.zip"], File "FLAT")].

Definition fs_flat_extracted : FS :=
  [(["downloads"], Dir); (["downloads"; "flat"], Dir);
   (["downloads"; "flat"; "docs"], Dir);
   (["downloads"; "flat"; "docs"; "a.txt"], File "A");
   (["downloads"; "flat"; "b.txt"], File "B")].

Definition fs_outer_downloaded : FS :=
  [(["downloads"], Dir); (["downloads"; "data.zip"], File "OUTER")].

(** What extracting it with [keep_zip] set leaves. *)
Definition fs_data_extracted_keep : FS :=
  [(["downloads"], Dir); (["downloads"; "data.zip"], File "OUTER");
   (["downloads"; "data"], Dir);
   (["downloads"; "data"; "readme.txt"], File "hi");
   (["downloads"; "data"; "inner.zip"], File "INNER");
   (["downloads"; "data"; "inner"], Dir);
   (["downloads"; "data"; "inner"; "a.txt"], File "A")].

(** * Properties *)

(** ** The model on examples *)

Example path_parts_relative : path_of_string "data/file.txt" = ["data"; "file.txt"].
Proof. reflexivity. Qed.

Example path_parts_absolute : path_of_string "/etc//passwd/." = ["/"; "etc"; "passwd"].
Proof. reflexivity. Qed.

Example path_parts_two_slashes : path_of_string "//a/./b" = ["//"; "a"; "b"].
Proof. reflexivity. Qed.

Example path_parts_three_slashes : path_of_string "///a" = ["/"; "a"].
Proof. reflexivity. Qed.

Example path_stem_last_suffix : path_stem ["downloads"; "data.tar.zip"] = "data.tar".
Proof. reflexivity. Qed.

Example path_stem_dotfile : path_stem [".zip"] = ".zip".
Proof. reflexivity. Qed.

Example joinpath_absolute : joinpath ["downloads"] "/etc/passwd" = ["/"; "etc"; "passwd"].
Proof. reflexivity. Qed.

Example filename_from_url :
  @get_filename_from_url example_urllib "https://example.com/data.zip"
  = inr "data.zip".
Proof. reflexivity. Qed.

Example filename_default :
  @get_filename_from_url example_urllib "https://example.com/"
  = inr "downloaded_file.zip".
Proof. reflexivity. Qed.

Example humanize_bytes : _humanize_size 512 = "512.0B".
Proof. reflexivity. Qed.

Example float_of_int_rounds : float_of_int (2 ^ 53 + 1) = (2 ^ 53)%Z.
Proof. reflexivity. Qed.

Example nested_zip_any_case : is_nested_zip "Sub/Inner.ZIP" = true.
Proof. reflexivity. Qed.

Example directory_entry_not_nested : is_nested_zip "inner.zip/" = false.
Proof. reflexivity. Qed.

(** A run without failure: the nested archive is expanded, both
    archives are unlinked, and the manifest lists the files in order. *)
Example download_and_extract_nested :
  @download_and_extract example_urllib
    (server [(data_url, inr (ok_response (Some 5%Z) ["OUT"; "ER"]))])
    (operator "y") example_codec session 5 data_url None fs_empty_session
  = (inr ("downloads/data", ["inner/a.txt (1.0B)"; "readme.txt (2.0B)"]),
     [(["downloads"], Dir); (["downloads"; "data"], Dir);
      (["downloads"; "data"; "readme.txt"], File "hi");
      (["downloads"; "data"; "inner"], Dir);
      (["downloads"; "data"; "inner"; "a.txt"], File "A")]).
Proof. reflexivity. Qed.

(** A connection dropped in the middle of the body: the error of the
    taxonomy, and no file. *)
Example download_dropped :
  @download_file example_urllib
    (server [(data_url, inr (dropped_response ["ab"; "cd"]))])
    (operator "y") session data_url None 8192 fs_empty_session
  = (inl (ConnectionError data_url), fs_empty_session).
Proof. reflexivity. Qed.

(** A confirmed large download fails as well: [iter_content] is looked
    up on the answer, after the file was created. *)
Example download_confirmed_large :
  @download_file example_urllib server_big (operator "y") session
    big_url None 8192 fs_empty_session
  = (inl (AttributeError "close"),
     [(["downloads"], Dir); (["downloads"; "big.iso"], File "")]).
Proof. reflexivity. Qed.

(** ** Strings and paths *)

Lemma startswith_nil s : startswith s "" = true.
Proof. destruct s; reflexivity. Qed.

Lemma startswith_char a c s :
  startswith (String c s) (String a "") = Ascii.eqb a c.
Proof. cbn [startswith]. rewrite startswith_nil. apply andb_true_r. Qed.

Lemma str_in_cons n c s : str_in n s = true -> str_in n (String c s) = true.
Proof. intros Hn. cbn [str_in]. rewrite Hn. apply orb_true_r. Qed.

Lemma startswith_str_in s n : startswith s n = true -> str_in n s = true.
Proof. intros Hs. destruct s; cbn [str_in]; rewrite Hs; reflexivity. Qed.

Lemma split_slash_cons s : exists h t, split_slash s = h :: t.
Proof.
  induction s as [|c s IH]; cbn [split_slash].
  - eauto.
  - destruct (Ascii.eqb c "/"); [eauto|].
    destruct IH as (h & t & ->). eauto.
Qed.

(** A prefix without slash is a prefix of the first segment, and
    conversely. *)
Lemma startswith_first_segment n : forall s h t,
  no_slash n = true -> split_slash s = h :: t ->
  startswith s n = true -> startswith h n = true.
Proof.
  induction n as [|a n IH]; intros s h t Hn Hs Hp.
  - apply startswith_nil.
  - cbn [no_slash] in Hn. apply andb_prop in Hn as [Ha Hn].
    destruct s as [|c s]; [discriminate Hp|].
    cbn [startswith] in Hp. apply andb_prop in Hp as [Hac Hp].
    apply Ascii.eqb_eq in Hac. subst c.
    cbn [split_slash] in Hs.
    apply negb_true_iff in Ha. rewrite Ha in Hs.
    destruct (split_slash_cons s) as (h' & t' & Hs').
    rewrite Hs' in Hs. injection Hs as <- <-.
    cbn [startswith]. rewrite Ascii.eqb_refl. cbn [andb].
    eapply IH; eauto.
Qed.

Lemma first_segment_startswith n : forall s h t,
  split_slash s = h :: t ->
  startswith h n = true -> startswith s n = true.
Proof.
  induction n as [|a n IH]; intros s h t Hs Hp.
  - apply startswith_nil.
  - destruct s as [|c s]; cbn [split_slash] in Hs.
    + injection Hs as <- <-. discriminate Hp.
    + destruct (Ascii.eqb c "/") eqn:Hc.
      * injection Hs as <- <-. discriminate Hp.
      * destruct (split_slash_cons s) as (h' & t' & Hs').
        rewrite Hs' in Hs. injection Hs as <- <-.
        cbn [startswith] in Hp |- *.
        apply andb_prop in Hp as [-> Hp]. cbn [andb].
        eapply IH; eauto.
Qed.

(** A substring without slash lies within one segment. *)
Lemma str_in_segment n : forall s,
  no_slash n = true -> n <> "" -> str_in n s = true ->
  exists seg, In seg (split_slash s) /\ str_in n seg = true.
Proof.
  intros s Hn Hne. induction s as [|c s IH]; intros Hin.
  - cbn [str_in] in Hin. rewrite orb_false_r in Hin.
    destruct n; [congruence | discriminate Hin].
  - destruct (split_slash_cons (String c s)) as (h & t & Hs).
    cbn [str_in] in Hin. apply orb_prop in Hin as [Hp | Hin].
    + exists h. split; [rewrite Hs; left; reflexivity|].
      apply startswith_str_in.
      eapply startswith_first_segment; eauto.
    + destruct (IH Hin) as (seg & Hseg & Hsin).
      cbn [split_slash]. destruct (Ascii.eqb c "/").
      * exists seg. split; [right; exact Hseg | exact Hsin].
      * destruct (split_slash_cons s) as (h' & t' & Hs').
        rewrite Hs' in Hseg |- *. destruct Hseg as [<- | Hseg].
        -- exists (String c h'). split; [left; reflexivity|].
           apply str_in_cons, Hsin.
        -- exists seg. split; [right; exact Hseg | exact Hsin].
Qed.

(** What a segment contains, the string contains. *)
Lemma segment_str_in n : forall s seg,
  In seg (split_slash s) -> str_in n seg = true -> str_in n s = true.
Proof.
  induction s as [|c s IH]; intros seg Hseg Hin.
  - cbn [split_slash] in Hseg. destruct Hseg as [<- | []]. exact Hin.
  - cbn [split_slash] in Hseg. destruct (Ascii.eqb c "/") eqn:Hc.
    + destruct Hseg as [<- | Hseg].
      * cbn [str_in] in Hin. rewrite orb_false_r in Hin.
        destruct n; [reflexivity | discriminate Hin].
      * apply str_in_cons. eapply IH; eauto.
    + destruct (split_slash_cons s) as (h & t & Hs).
      rewrite Hs in Hseg. destruct Hseg as [<- | Hseg].
      * cbn [str_in] in Hin. apply orb_prop in Hin as [Hp | Hin].
        -- apply startswith_str_in.
           eapply first_segment_startswith with (t := t); [|exact Hp].
           cbn [split_slash]. rewrite Hc, Hs. reflexivity.
        -- apply str_in_cons. eapply IH; [|exact Hin].
           rewrite Hs. left. reflexivity.
      * apply str_in_cons. eapply IH; [|exact Hin].
        rewrite Hs. right. exact Hseg.
Qed.

Lemma segment_no_slash : forall s seg,
  In seg (split_slash s) -> no_slash seg = true.
Proof.
  induction s as [|c s IH]; intros seg Hseg; cbn [split_slash] in Hseg.
  - destruct Hseg as [<- | []]. reflexivity.
  - destruct (Ascii.eqb c "/") eqn:Hc.
    + destruct Hseg as [<- | Hseg]; [reflexivity | auto].
    + destruct (split_slash_cons s) as (h & t & Hs).
      rewrite Hs in Hseg, IH. destruct Hseg as [<- | Hseg].
      * cbn [no_slash]. rewrite Hc. cbn. apply IH. left. reflexivity.
      * apply IH. right. exact Hseg.
Qed.

Lemma no_slash_startswith seg :
  no_slash seg = true -> startswith seg "/" = false.
Proof.
  destruct seg as [|c seg]; [reflexivity|].
  rewrite startswith_char. cbn [no_slash].
  intros Hn. apply andb_prop in Hn as [Hc _].
  apply negb_true_iff in Hc. rewrite Ascii.eqb_sym. exact Hc.
Qed.

Lemma splitroot_unrooted p :
  startswith p "/" = false -> splitroot p = ("", p).
Proof.
  destruct p as [|c p]; [reflexivity|].
  rewrite startswith_char. intros Hc.
  unfold splitroot.
  destruct c as [[] [] [] [] [] [] [] []]; try reflexivity.
  discriminate Hc.
Qed.

Lemma path_of_string_unrooted p :
  startswith p "/" = false ->
  path_of_string p = filter kept_segment (split_slash p).
Proof.
  intros Hp. unfold path_of_string. rewrite (splitroot_unrooted p Hp).
  reflexivity.
Qed.

Lemma path_of_string_rooted p :
  startswith p "/" = true ->
  exists r t, path_of_string p = r :: t /\ startswith r "/" = true.
Proof.
  destruct p as [|c p]; [discriminate|].
  rewrite startswith_char. intros Hc.
  apply Ascii.eqb_eq in Hc. subst c.
  unfold path_of_string, splitroot.
  destruct p as [|c p]; [cbn; eauto|].
  destruct (Ascii.eqb c "/") eqn:Hc.
  - apply Ascii.eqb_eq in Hc. subst c.
    destruct p as [|c p]; [cbn; eauto|].
    destruct (Ascii.eqb c "/") eqn:Hc.
    + apply Ascii.eqb_eq in Hc. subst c. cbn. eauto.
    + destruct c as [[] [] [] [] [] [] [] []]; try discriminate Hc; cbn; eauto.
  - destruct c as [[] [] [] [] [] [] [] []]; try discriminate Hc; cbn; eauto.
Qed.

Lemma unsafe_part_kept seg : unsafe_part seg = true -> kept_segment seg = true.
Proof.
  intros Hu. unfold kept_segment.
  destruct (String.eqb_spec seg ""); [subst; discriminate Hu|].
  destruct (String.eqb_spec seg "."); [subst; discriminate Hu|].
  reflexivity.
Qed.

Lemma unsafe_rooted p : startswith p "/" = true -> _is_safe_path p = false.
Proof.
  intros Hp. destruct (path_of_string_rooted p Hp) as (r & t & Hparts & Hr).
  unfold _is_safe_path. rewrite Hparts. cbn [existsb].
  unfold unsafe_part at 1. rewrite Hr, orb_true_r. reflexivity.
Qed.

Lemma unsafe_segment p seg :
  In seg (split_slash p) -> unsafe_part seg = true -> _is_safe_path p = false.
Proof.
  intros Hseg Hu. destruct (startswith p "/") eqn:Hp.
  - apply unsafe_rooted, Hp.
  - unfold _is_safe_path. rewrite (path_of_string_unrooted p Hp).
    apply negb_false_iff, existsb_exists. exists seg. split; [|exact Hu].
    apply filter_In. split; [exact Hseg | apply unsafe_part_kept, Hu].
Qed.

Lemma unsafe_str_in n p :
  no_slash n = true -> n <> "" ->
  (forall seg, str_in n seg = true -> unsafe_part seg = true) ->
  str_in n p = true -> _is_safe_path p = false.
Proof.
  intros Hn Hne Hu Hin.
  destruct (str_in_segment n p Hn Hne Hin) as (seg & Hseg & Hsin).
  eapply unsafe_segment; eauto.
Qed.

(** C3.  [_is_safe_path] answers unsafe exactly when a part of the
    path starts with a backslash or a slash, or contains [..] or a
    colon.  So every path that contains [..] or a colon, or that starts
    with a slash or a backslash, is unsafe, and a relative path with
    none of these and no backslash at all (such as [data/file.txt]) is
    safe.  The validator is a function of its argument alone. *)
Theorem is_safe_path_exact : forall path : string,
  (_is_safe_path path = false <->
   exists part, In part (path_of_string path) /\
     (startswith part "\" = true \/ startswith part "/" = true \/
      str_in ".." part = true \/ str_in ":" part = true))
  /\ (str_in ".." path = true -> _is_safe_path path = false)
  /\ (startswith path "/" = true -> _is_safe_path path = false)
  /\ (startswith path "\" = true -> _is_safe_path path = false)
  /\ (str_in ":" path = true -> _is_safe_path path = false)
  /\ (startswith path "/" = false -> str_in "\" path = false ->
      str_in ".." path = false -> str_in ":" path = false ->
      _is_safe_path path = true)
  /\ _is_safe_path "data/file.txt" = true.
Proof.
  intros path.
  assert (Hiff : _is_safe_path path = false <->
    exists part, In part (path_of_string path) /\
     (startswith part "\" = true \/ startswith part "/" = true \/
      str_in ".." part = true \/ str_in ":" part = true)).
  { unfold _is_safe_path. rewrite negb_false_iff, existsb_exists.
    split; intros (part & Hin & Hu); exists part; (split; [exact Hin|]).
    - unfold unsafe_part in Hu.
      repeat (apply orb_prop in Hu as [Hu | Hu]); auto.
    - unfold unsafe_part.
      destruct Hu as [-> | [-> | [-> | ->]]];
        rewrite ?orb_true_r; reflexivity. }
  split; [exact Hiff|].
  repeat split.
  - apply unsafe_str_in; [reflexivity | discriminate |].
    intros seg Hs. unfold unsafe_part. rewrite Hs, !orb_true_r. reflexivity.
  - apply unsafe_rooted.
  - intros Hp. destruct (split_slash_cons path) as (h & t & Hs).
    apply (unsafe_segment path h); [rewrite Hs; left; reflexivity|].
    unfold unsafe_part.
    rewrite (startswith_first_segment "\" path h t eq_refl Hs Hp).
    reflexivity.
  - apply unsafe_str_in; [reflexivity | discriminate |].
    intros seg Hs. unfold unsafe_part. rewrite Hs, !orb_true_r. reflexivity.
  - intros Hroot Hback Hdots Hcolon.
    apply not_false_iff_true. intros Hsafe.
    apply Hiff in Hsafe. destruct Hsafe as (part & Hin & Hu).
    rewrite (path_of_string_unrooted path Hroot) in Hin.
    apply filter_In in Hin as [Hin _].
    destruct Hu as [Hu | [Hu | [Hu | Hu]]].
    + apply startswith_str_in in Hu.
      rewrite (segment_str_in _ _ _ Hin Hu) in Hback. discriminate.
    + rewrite (no_slash_startswith _ (segment_no_slash _ _ Hin)) in Hu.
      discriminate.
    + rewrite (segment_str_in _ _ _ Hin Hu) in Hdots. discriminate.
    + rewrite (segment_str_in _ _ _ Hin Hu) in Hcolon. discriminate.
Qed.

Lemma is_safe_path_exact_witness :
  _is_safe_path "a/../b" = false /\ _is_safe_path "C:/x" = false
  /\ _is_safe_path "docs/readme.md" = true.
Proof.
  split; [|split].
  - apply (proj1 (proj2 (is_safe_path_exact "a/../b"))). reflexivity.
  - apply (proj1 (proj2 (proj2 (proj2 (proj2 (is_safe_path_exact "C:/x")))))).
    reflexivity.
  - apply (proj1 (proj2 (proj2 (proj2 (proj2 (proj2
             (is_safe_path_exact "docs/readme.md"))))))); reflexivity.
Defined.

(** ** The filesystem operations *)

Lemma path_eqb_eq p q : path_eqb p q = true <-> p = q.
Proof.
  unfold path_eqb. destruct (list_eq_dec string_dec p q); split;
    intros; congruence.
Qed.

Lemma path_eqb_refl p : path_eqb p p = true.
Proof. apply path_eqb_eq. reflexivity. Qed.

Lemma path_eqb_neq p q : path_eqb p q = false <-> p <> q.
Proof.
  unfold path_eqb. destruct (list_eq_dec string_dec p q); split;
    intros; congruence.
Qed.

Lemma path_eqb_sym p q : path_eqb p q = path_eqb q p.
Proof.
  unfold path_eqb.
  destruct (list_eq_dec string_dec p q), (list_eq_dec string_dec q p);
    congruence.
Qed.

Lemma fs_lookup_absent fs p :
  existsb (fun e => path_eqb (fst e) p) fs = false -> fs_lookup fs p = None.
Proof.
  induction fs as [|[q n] fs IH]; cbn; [reflexivity|].
  intros Hex. apply orb_false_iff in Hex as [Hq Hex].
  rewrite Hq. auto.
Qed.

Lemma fs_lookup_app fs fs' p :
  fs_lookup (fs ++ fs') p =
  match fs_lookup fs p with Some n => Some n | None => fs_lookup fs' p end.
Proof.
  induction fs as [|[q n] fs IH]; cbn; [reflexivity|].
  destruct (path_eqb q p); auto.
Qed.

Lemma fs_lookup_present fs p :
  existsb (fun e => path_eqb (fst e) p) fs = true ->
  exists n, fs_lookup fs p = Some n.
Proof.
  induction fs as [|[q n] fs IH]; cbn; [discriminate|].
  destruct (path_eqb q p); [eauto | exact IH].
Qed.

Lemma fs_lookup_replace p n fs q :
  fs_lookup (map (fun e => if path_eqb (fst e) p then (p, n) else e) fs) q =
  if path_eqb p q
  then match fs_lookup fs p with Some _ => Some n | None => None end
  else fs_lookup fs q.
Proof.
  destruct (path_eqb p q) eqn:Hpq.
  - apply path_eqb_eq in Hpq. subst q.
    induction fs as [|[r m] fs IH]; cbn; [reflexivity|].
    destruct (path_eqb r p) eqn:Hr; cbn.
    + rewrite path_eqb_refl. reflexivity.
    + rewrite Hr. exact IH.
  - induction fs as [|[r m] fs IH]; cbn; [reflexivity|].
    destruct (path_eqb r p) eqn:Hr; cbn.
    + apply path_eqb_eq in Hr. subst r. rewrite Hpq. exact IH.
    + rewrite IH. reflexivity.
Qed.

Lemma fs_lookup_put p n fs q :
  fs_lookup (fs_put p n fs) q =
  if path_eqb p q then Some n else fs_lookup fs q.
Proof.
  unfold fs_put.
  destruct (existsb (fun e => path_eqb (fst e) p) fs) eqn:Hex.
  - rewrite fs_lookup_replace.
    destruct (fs_lookup_present fs p Hex) as (m & ->). reflexivity.
  - rewrite fs_lookup_app. cbn.
    destruct (path_eqb p q) eqn:Hpq.
    + apply path_eqb_eq in Hpq. subst q.
      rewrite (fs_lookup_absent fs p Hex). reflexivity.
    + destruct (fs_lookup fs q); reflexivity.
Qed.

Lemma fs_lookup_remove p fs q :
  fs_lookup (fs_remove p fs) q =
  if path_eqb p q then None else fs_lookup fs q.
Proof.
  unfold fs_remove. induction fs as [|[r m] fs IH]; cbn.
  - destruct (path_eqb p q); reflexivity.
  - destruct (path_eqb r p) eqn:Hr; cbn.
    + apply path_eqb_eq in Hr. subst r. rewrite IH.
      destruct (path_eqb p q); reflexivity.
    + rewrite IH. destruct (path_eqb r q) eqn:Hrq; [|reflexivity].
      apply path_eqb_eq in Hrq. subst r.
      rewrite path_eqb_sym, Hr. reflexivity.
Qed.

Lemma fs_stat_put p n fs q :
  p <> [] ->
  fs_stat (fs_put p n fs) q = if path_eqb p q then Some n else fs_stat fs q.
Proof.
  intros Hp. destruct q as [|a q]; cbn [fs_stat].
  - destruct (path_eqb p []) eqn:E; [|reflexivity].
    apply path_eqb_eq in E. contradiction.
  - apply fs_lookup_put.
Qed.

Lemma fs_stat_remove p fs q :
  p <> [] ->
  fs_stat (fs_remove p fs) q = if path_eqb p q then None else fs_stat fs q.
Proof.
  intros Hp. destruct q as [|a q]; cbn [fs_stat].
  - destruct (path_eqb p []) eqn:E; [|reflexivity].
    apply path_eqb_eq in E. contradiction.
  - apply fs_lookup_remove.
Qed.

Lemma fs_stat_nonempty fs p : p <> [] -> fs_stat fs p = fs_lookup fs p.
Proof. destruct p; [contradiction | reflexivity]. Qed.

Lemma fs_exists_false_nonempty fs p : fs_exists fs p = false -> p <> [].
Proof. intros He ->. discriminate He. Qed.

(** Writing the chunks of a body one after the other leaves their
    concatenation in the file, and touches no other path. *)
Lemma write_chunks_ok p : forall chunks fs old,
  fs_lookup fs p = Some (File old) ->
  exists fs',
    for_each chunks (write_chunk p) fs = (inr tt, fs')
    /\ fs_lookup fs' p = Some (File (old ++ String.concat "" chunks))
    /\ forall q, q <> p -> fs_lookup fs' q = fs_lookup fs q.
Proof.
  induction chunks as [|c chunks IH]; intros fs old Hold.
  - exists fs. cbn. rewrite Hold.
    replace (old ++ "")%string with old; [auto|].
    clear. induction old; cbn; congruence.
  - cbn [for_each]. unfold bind at 1. unfold write_chunk at 1.
    rewrite Hold.
    destruct (IH (fs_put p (File (old ++ c)) fs) (old ++ c)%string)
      as (fs' & Hrun & Hp & Hframe).
    { rewrite fs_lookup_put, path_eqb_refl. reflexivity. }
    exists fs'. split; [exact Hrun|]. split.
    + rewrite Hp. f_equal. f_equal.
      assert (Hassoc : forall a b d : string,
                 ((a ++ b) ++ d = a ++ (b ++ d))%string).
      { clear. induction a; cbn; intros; congruence. }
      rewrite Hassoc. f_equal.
      destruct chunks; cbn; [|reflexivity].
      clear. induction c; cbn; congruence.
    + intros q Hq. rewrite (Hframe q Hq), fs_lookup_put.
      destruct (path_eqb p q) eqn:E; [|reflexivity].
      apply path_eqb_eq in E. congruence.
Qed.

(** ** [download_file] *)

Section DownloadFile.

Context `{UrlLib} `{HttpClient} `{Console}.
Variable self : Downloader.

(** When [requests.get] itself raises, [response] is still unbound when
    the [finally] clause runs: whatever the [except] clauses did, the
    caller gets the [UnboundLocalError] of [response.close()]. *)
Lemma download_file_get_raises url filename chunk_size fs name e :
  resolve_filename url filename = inr name ->
  fs_exists fs (joinpath (save_dir self) name) = false ->
  requests_get url = inl e ->
  download_file self url filename chunk_size fs
  = (inl (UnboundLocalError "response"), fs).
Proof.
  intros Hname Hfree Hget. unfold download_file.
  rewrite Hname, Hfree. unfold download_try. rewrite Hget.
  unfold try_finally, download_except.
  destruct (is_requests_ConnectionError e);
    [|destruct (is_requests_Timeout e);
      [|destruct (is_requests_RequestException e)]];
    unfold bind, unlink_if_exists, raise, close_response;
    rewrite ?Hfree; reflexivity.
Qed.

(** Past the size gate [response] is the operator's answer, a string:
    declining raises [DownloadCancelled], and then [response.close()]
    in the [finally] clause raises [AttributeError] in its place. *)
Lemma download_file_declined url filename chunk_size fs name r n :
  resolve_filename url filename = inr name ->
  fs_exists fs (joinpath (save_dir self) name) = false ->
  requests_get url = inr r ->
  raise_for_status r = None ->
  content_length r = Some n ->
  (one_GiB < n)%Z ->
  lower (input ("File size is " ++ _humanize_size n
                ++ ". Continue? (y/n): ")) <> "y" ->
  download_file self url filename chunk_size fs
  = (inl (AttributeError "close"), fs).
Proof.
  intros Hname Hfree Hget Hstatus Hlen Hbig Hno. unfold download_file.
  rewrite Hname, Hfree. unfold download_try.
  rewrite Hget, Hstatus, Hlen.
  apply Z.ltb_lt in Hbig. rewrite Hbig.
  apply String.eqb_neq in Hno. rewrite Hno. cbn [negb].
  reflexivity.
Qed.

(** An error of the transport in the middle of the body: the partial
    file is unlinked and the error of the taxonomy is raised. *)
Lemma download_file_stream_error url filename chunk_size fs name r chunks e :
  resolve_filename url filename = inr name ->
  fs_exists fs (joinpath (save_dir self) name) = false ->
  fs_is_dir fs (path_parent (joinpath (save_dir self) name)) = true ->
  requests_get url = inr r ->
  raise_for_status r = None ->
  (match content_length r with Some n => n | None => 0 end <= one_GiB)%Z ->
  iter_content r chunk_size = (chunks, Some e) ->
  is_requests_RequestException e = true ->
  exists fs',
    download_file self url filename chunk_size fs
    = (inl (if is_requests_ConnectionError e then ConnectionError url
            else if is_requests_Timeout e then TimeoutError url
            else Exception_download_failed e), fs')
    /\ fs_exists fs' (joinpath (save_dir self) name) = false
    /\ forall q, q <> joinpath (save_dir self) name ->
                 fs_lookup fs' q = fs_lookup fs q.
Proof.
  intros Hname Hfree Hdir Hget Hstatus Hsmall Hiter Hreq.
  set (file_path := joinpath (save_dir self) name) in *.
  assert (Hne : file_path <> []) by (eapply fs_exists_false_nonempty; eauto).
  unfold download_file. rewrite Hname. fold file_path. rewrite Hfree.
  unfold download_try. rewrite Hget, Hstatus.
  apply Z.ltb_ge in Hsmall. rewrite Hsmall.
  unfold open_wb. unfold fs_exists in Hfree. unfold fs_is_dir in Hdir.
  destruct (fs_stat fs file_path) eqn:Hstat; [discriminate Hfree|].
  destruct (fs_stat fs (path_parent file_path)) as [[|]|]; try discriminate.
  rewrite Hiter.
  destruct (write_chunks_ok file_path chunks
              (fs_put file_path (File "") fs) "") as (fs1 & Hrun & Hp & Hfr).
  { rewrite fs_lookup_put, path_eqb_refl. reflexivity. }
  rewrite Hrun.
  exists (fs_remove file_path fs1).
  assert (Hunlink : unlink_if_exists file_path fs1
                    = (inr tt, fs_remove file_path fs1)).
  { unfold unlink_if_exists, fs_exists, unlink.
    rewrite (fs_stat_nonempty _ _ Hne), Hp. reflexivity. }
  split; [|split].
  - unfold try_finally, download_except.
    destruct (is_requests_ConnectionError e);
      [|destruct (is_requests_Timeout e); [|rewrite Hreq]];
      unfold bind; rewrite Hunlink; reflexivity.
  - unfold fs_exists. rewrite (fs_stat_remove _ _ _ Hne), path_eqb_refl.
    reflexivity.
  - intros q Hq. rewrite fs_lookup_remove.
    destruct (path_eqb file_path q) eqn:E.
    + apply path_eqb_eq in E. congruence.
    + rewrite (Hfr q Hq), fs_lookup_put, E. reflexivity.
Qed.

(** The chunk size is not looked at: it is handed to [iter_content],
    and a download whose transport delivers the body succeeds. *)
Lemma download_file_succeeds url filename chunk_size fs name r chunks :
  resolve_filename url filename = inr name ->
  fs_exists fs (joinpath (save_dir self) name) = false ->
  fs_is_dir fs (path_parent (joinpath (save_dir self) name)) = true ->
  requests_get url = inr r ->
  raise_for_status r = None ->
  (match content_length r with Some n => n | None => 0 end <= one_GiB)%Z ->
  iter_content r chunk_size = (chunks, None) ->
  exists fs',
    download_file self url filename chunk_size fs
    = (inr (joinpath (save_dir self) name), fs')
    /\ fs_lookup fs' (joinpath (save_dir self) name)
       = Some (File (String.concat "" chunks))
    /\ forall q, q <> joinpath (save_dir self) name ->
                 fs_lookup fs' q = fs_lookup fs q.
Proof.
  intros Hname Hfree Hdir Hget Hstatus Hsmall Hiter.
  set (file_path := joinpath (save_dir self) name) in *.
  unfold download_file. rewrite Hname. fold file_path. rewrite Hfree.
  unfold download_try. rewrite Hget, Hstatus.
  apply Z.ltb_ge in Hsmall. rewrite Hsmall.
  unfold open_wb. unfold fs_exists in Hfree. unfold fs_is_dir in Hdir.
  destruct (fs_stat fs file_path) eqn:Hstat; [discriminate Hfree|].
  destruct (fs_stat fs (path_parent file_path)) as [[|]|]; try discriminate.
  rewrite Hiter.
  destruct (write_chunks_ok file_path chunks
              (fs_put file_path (File "") fs) "") as (fs1 & Hrun & Hp & Hfr).
  { rewrite fs_lookup_put, path_eqb_refl. reflexivity. }
  rewrite Hrun. exists fs1. split; [reflexivity|]. split; [exact Hp|].
  intros q Hq. rewrite (Hfr q Hq), fs_lookup_put.
  destruct (path_eqb file_path q) eqn:E; [|reflexivity].
  apply path_eqb_eq in E. congruence.
Qed.

End DownloadFile.

(** C7.  When the destination path of a download already exists,
    [download_file] raises [FileExistsError] and leaves the filesystem
    as it was: nothing is written, and the file that was there keeps
    its bytes. *)
Theorem download_file_already_exists `{UrlLib} `{HttpClient} `{Console} :
  forall (self : Downloader) url filename chunk_size fs name,
  resolve_filename url filename = inr name ->
  fs_exists fs (joinpath (save_dir self) name) = true ->
  download_file self url filename chunk_size fs
  = (inl (FileExistsError (joinpath (save_dir self) name)), fs).
Proof.
  intros self url filename chunk_size fs name Hname Hex.
  unfold download_file. rewrite Hname, Hex. reflexivity.
Qed.

Lemma download_file_already_exists_witness :
  @download_file example_urllib server_small (operator "y") session
    data_url None 8192 fs_existing_download
  = (inl (FileExistsError ["downloads"; "data.zip"]), fs_existing_download).
Proof.
  apply (@download_file_already_exists example_urllib server_small
           (operator "y") session data_url None 8192
           fs_existing_download "data.zip"); reflexivity.
Defined.

(** C6, at a failure to connect.  [requests.get] raises before
    [response] is bound; the [except] clause raises [ConnectionError],
    but the [finally] clause then evaluates [response.close()] and the
    caller gets [UnboundLocalError] instead of the error of the
    taxonomy.  (No file is left: none was opened.) *)
Theorem download_file_connect_failure `{UrlLib} `{HttpClient} `{Console} :
  forall (self : Downloader) url filename chunk_size fs name e,
  resolve_filename url filename = inr name ->
  fs_exists fs (joinpath (save_dir self) name) = false ->
  requests_get url = inl e ->
  download_file self url filename chunk_size fs
  = (inl (UnboundLocalError "response"), fs)
  /\ fst (download_file self url filename chunk_size fs)
     <> inl (ConnectionError url).
Proof.
  intros self url filename chunk_size fs name e Hname Hfree Hget.
  rewrite (download_file_get_raises self url filename chunk_size fs name e
             Hname Hfree Hget).
  split; [reflexivity | discriminate].
Qed.

Lemma download_file_connect_failure_witness :
  @download_file example_urllib server_unreachable (operator "y") session
    data_url None 8192 fs_empty_session
  = (inl (UnboundLocalError "response"), fs_empty_session).
Proof.
  apply (@download_file_connect_failure example_urllib server_unreachable
           (operator "y") session data_url None 8192
           fs_empty_session "data.zip" requests_ConnectionError);
    reflexivity.
Defined.

(** C5.  Above 1 GiB the operator is asked, and the answer is stored
    in [response].  When the operator declines, [DownloadCancelled] is
    raised and nothing is written, but the [finally] clause calls
    [close] on the answer, a string, and the caller gets
    [AttributeError] in place of [DownloadCancelled]. *)
Theorem download_file_declined_large `{UrlLib} `{HttpClient} `{Console} :
  forall (self : Downloader) url filename chunk_size fs name r n,
  resolve_filename url filename = inr name ->
  fs_exists fs (joinpath (save_dir self) name) = false ->
  requests_get url = inr r ->
  raise_for_status r = None ->
  content_length r = Some n ->
  (one_GiB < n)%Z ->
  lower (input ("File size is " ++ _humanize_size n
                ++ ". Continue? (y/n): ")) <> "y" ->
  download_file self url filename chunk_size fs
  = (inl (AttributeError "close"), fs)
  /\ fst (download_file self url filename chunk_size fs)
     <> inl DownloadCancelled.
Proof.
  intros self url filename chunk_size fs name r n
         Hname Hfree Hget Hstatus Hlen Hbig Hno.
  rewrite (download_file_declined self url filename chunk_size fs name r n
             Hname Hfree Hget Hstatus Hlen Hbig Hno).
  split; [reflexivity | discriminate].
Qed.

Lemma download_file_declined_large_witness :
  @download_file example_urllib server_big (operator "n") session
    big_url None 8192 fs_empty_session
  = (inl (AttributeError "close"), fs_empty_session).
Proof.
  apply (@download_file_declined_large example_urllib server_big
           (operator "n") session big_url None 8192
           fs_empty_session "big.iso" big_response 2147483648%Z);
    try reflexivity.
  vm_compute. discriminate.
Defined.

(** C8, as the code has it.  [download_file] does not look at the
    chunk size: a zero or negative one is handed to [iter_content] like
    any other, and when the transport delivers the body for it the
    download succeeds and the file holds the body. *)
Theorem download_file_chunk_size_unchecked
    `{UrlLib} `{HttpClient} `{Console} :
  forall (self : Downloader) url filename chunk_size fs name r chunks,
  (chunk_size <= 0)%Z ->
  resolve_filename url filename = inr name ->
  fs_exists fs (joinpath (save_dir self) name) = false ->
  fs_is_dir fs (path_parent (joinpath (save_dir self) name)) = true ->
  requests_get url = inr r ->
  raise_for_status r = None ->
  (match content_length r with Some n => n | None => 0 end <= one_GiB)%Z ->
  iter_content r chunk_size = (chunks, None) ->
  exists fs',
    download_file self url filename chunk_size fs
    = (inr (joinpath (save_dir self) name), fs')
    /\ fs_lookup fs' (joinpath (save_dir self) name)
       = Some (File (String.concat "" chunks)).
Proof.
  intros self url filename chunk_size fs name r chunks _
         Hname Hfree Hdir Hget Hstatus Hsmall Hiter.
  destruct (download_file_succeeds self url filename chunk_size fs name r
              chunks Hname Hfree Hdir Hget Hstatus Hsmall Hiter)
    as (fs' & Hrun & Hfile & _).
  exists fs'. split; assumption.
Qed.

Lemma download_file_chunk_size_unchecked_witness :
  exists fs',
    @download_file example_urllib server_small (operator "y") session
      data_url None 0%Z fs_empty_session
    = (inr ["downloads"; "data.zip"], fs')
    /\ fs_lookup fs' ["downloads"; "data.zip"] = Some (File "PK34").
Proof.
  apply (@download_file_chunk_size_unchecked example_urllib server_small
           (operator "y") session data_url None 0%Z
           fs_empty_session "data.zip" (ok_response (Some 4%Z) ["PK"; "34"])
           ["PK"; "34"]); try reflexivity; now vm_compute.
Defined.

(** C8 as stated fails: with chunk size [-1] and a server that answers
    404, the call ends in the wrapped transfer error, not in an
    invalid-input error. *)
Lemma download_file_negative_chunk_not_invalid_input :
  (-1 <= 0)%Z
  /\ ~ (exists e fs',
          @download_file example_urllib server_not_found (operator "y")
            session data_url None (-1)%Z fs_empty_session
          = (inl e, fs')
          /\ is_invalid_input e = true).
Proof.
  split; [discriminate|].
  intros (e & fs' & Hrun & Hinv).
  vm_compute in Hrun. injection Hrun as <- <-. discriminate Hinv.
Qed.

(** ** [_humanize_size] *)

Lemma humanize_units_text size : forall units current_size,
  exists unit,
    In unit (units ++ ["TB"])
    /\ humanize_units size current_size units = (format_1f size ++ unit)%string.
Proof.
  induction units as [|u units IH]; intros current_size; cbn [humanize_units].
  - exists "TB". split; [left; reflexivity | reflexivity].
  - destruct (Qltb current_size (inject_Z 1024)).
    + exists u. split; [left; reflexivity | reflexivity].
    + destruct (IH (current_size / inject_Z 1024)%Q) as (unit & Hin & Heq).
      exists unit. split; [right; exact Hin | exact Heq].
Qed.

(** C4.  The unit is chosen by dividing [current_size] by 1024, but
    the number printed is the byte count itself, never the scaled one:
    2048 bytes come out as [2048.0KB], not [2.0KB], and every result is
    the unscaled count with one decimal followed by a unit. *)
Theorem humanize_size_prints_unscaled :
  _humanize_size 2048 = "2048.0KB"
  /\ _humanize_size 2048 <> "2.0KB"
  /\ _humanize_size 5242880 = "5242880.0MB"
  /\ forall size : Z,
       exists unit,
         In unit ["B"; "KB"; "MB"; "GB"; "TB"]
         /\ _humanize_size size = (format_1f size ++ unit)%string.
Proof.
  split; [reflexivity|]. split; [discriminate|]. split; [reflexivity|].
  intros size. unfold _humanize_size.
  apply (humanize_units_text size ["B"; "KB"; "MB"; "GB"]).
Qed.

(** ** [__exit__] *)

Lemma fs_lookup_In fs p n : fs_lookup fs p = Some n -> In (p, n) fs.
Proof.
  induction fs as [|[q m] fs IH]; cbn; [discriminate|].
  destruct (path_eqb q p) eqn:E.
  - apply path_eqb_eq in E. subst q. intros [= ->]. left. reflexivity.
  - intros Hl. right. auto.
Qed.

Lemma fs_lookup_None fs p : fs_lookup fs p = None -> forall n, ~ In (p, n) fs.
Proof.
  induction fs as [|[q m] fs IH]; cbn; [tauto|].
  destruct (path_eqb q p) eqn:E; [discriminate|].
  intros Hl n [Heq | Hin].
  - injection Heq as -> ->. rewrite path_eqb_refl in E. discriminate.
  - exact (IH Hl n Hin).
Qed.

Lemma glob_zip_In dir fs q :
  In q (glob_zip dir fs) <-> glob_match dir q = true /\ exists n, In (q, n) fs.
Proof.
  unfold glob_zip. rewrite in_map_iff. split.
  - intros ([q' n] & <- & Hin). apply filter_In in Hin as [Hin Hm]. eauto.
  - intros (Hm & n & Hin). exists (q, n). split; [reflexivity|].
    apply filter_In. auto.
Qed.

(** Unlinking a list of paths none of which is a directory. *)
Lemma unlink_all ps : forall fs,
  (forall p, In p ps -> p <> [] /\ fs_lookup fs p <> Some Dir) ->
  exists fs',
    for_each ps (unlink true) fs = (inr tt, fs')
    /\ forall q, fs_lookup fs' q
                 = if existsb (path_eqb q) ps then None else fs_lookup fs q.
Proof.
  induction ps as [|p ps IH]; intros fs Hps.
  - exists fs. split; reflexivity.
  - destruct (Hps p (or_introl eq_refl)) as [Hne Hnd].
    assert (Hstep : exists fs1,
               unlink true p fs = (inr tt, fs1)
               /\ forall q, fs_lookup fs1 q
                            = if path_eqb q p then None else fs_lookup fs q).
    { unfold unlink. rewrite (fs_stat_nonempty fs p Hne).
      destruct (fs_lookup fs p) as [[d|]|] eqn:Hp.
      - eexists. split; [reflexivity|]. intros q.
        rewrite fs_lookup_remove, path_eqb_sym. reflexivity.
      - congruence.
      - eexists. split; [reflexivity|]. intros q.
        destruct (path_eqb q p) eqn:E; [|reflexivity].
        apply path_eqb_eq in E. subst q. exact Hp. }
    destruct Hstep as (fs1 & Hrun & Hfs1).
    destruct (IH fs1) as (fs' & Hrest & Hfs').
    { intros p' Hp'. destruct (Hps p' (or_intror Hp')) as [Hne' Hnd'].
      split; [exact Hne'|]. rewrite Hfs1.
      destruct (path_eqb p' p); [discriminate | exact Hnd']. }
    exists fs'. split.
    + cbn [for_each]. unfold bind. rewrite Hrun. exact Hrest.
    + intros q. rewrite Hfs', Hfs1. cbn [existsb].
      destruct (path_eqb q p); cbn [orb].
      * destruct (existsb (path_eqb q) ps); reflexivity.
      * reflexivity.
Qed.

(** X23.  With [keep_zip] true, leaving the session changes nothing.
    With [keep_zip] false, when no entry of the session directory that
    matches [*.zip] is a directory, leaving the session unlinks every
    matching entry and changes nothing else: entries of subdirectories
    and entries of other names stay as they are. *)
Theorem exit_removes_session_zips :
  forall (self : Downloader) (fs : FS),
  (keep_zip self = true -> __exit__ self fs = (inr tt, fs))
  /\ (keep_zip self = false ->
      (forall q, glob_match (save_dir self) q = true ->
                 fs_lookup fs q <> Some Dir) ->
      exists fs',
        __exit__ self fs = (inr tt, fs')
        /\ forall q, fs_lookup fs' q
                     = if glob_match (save_dir self) q then None
                       else fs_lookup fs q).
Proof.
  intros self fs. unfold __exit__. split.
  - intros ->. reflexivity.
  - intros -> Hnodir. cbn [negb].
    destruct (unlink_all (glob_zip (save_dir self) fs) fs) as (fs' & Hrun & Hfs').
    { intros p Hp. apply glob_zip_In in Hp as [Hm _]. split.
      - intros ->. unfold glob_match in Hm. cbn in Hm.
        rewrite andb_false_r in Hm. discriminate.
      - auto. }
    exists fs'. split; [exact Hrun|]. intros q. rewrite Hfs'.
    destruct (existsb (path_eqb q) (glob_zip (save_dir self) fs)) eqn:Hex.
    + apply existsb_exists in Hex as (p & Hp & Hqp).
      apply path_eqb_eq in Hqp. subst p.
      apply glob_zip_In in Hp as [-> _]. reflexivity.
    + destruct (glob_match (save_dir self) q) eqn:Hm; [|reflexivity].
      destruct (fs_lookup fs q) as [n|] eqn:Hq; [|reflexivity].
      apply fs_lookup_In in Hq.
      assert (Hin : In q (glob_zip (save_dir self) fs))
        by (apply glob_zip_In; eauto).
      assert (Htrue : existsb (path_eqb q) (glob_zip (save_dir self) fs) = true)
        by (apply existsb_exists; exists q; split;
            [exact Hin | apply path_eqb_refl]).
      congruence.
Qed.

Lemma exit_removes_session_zips_witness :
  exists fs',
    __exit__ session fs_after_downloads = (inr tt, fs')
    /\ forall q, fs_lookup fs' q
                 = if glob_match ["downloads"] q then None
                   else fs_lookup fs_after_downloads q.
Proof.
  apply (proj2 (exit_removes_session_zips session fs_after_downloads)).
  - reflexivity.
  - intros q Hm Hq. apply fs_lookup_In in Hq.
    cbn in Hq.
    repeat (destruct Hq as [Hq | Hq];
            [injection Hq as <-; try discriminate; vm_compute in Hm;
             discriminate|]).
    exact Hq.
Defined.

(** C10, at a session directory that holds a directory named
    [stale.zip], listed before the file [data.zip].  With [keep_zip]
    false the loop of [__exit__] hands every entry that matches
    [*.zip] to [unlink], directories too; on the directory [unlink]
    raises [IsADirectoryError], which leaves [__exit__] and ends the
    loop, nothing is deleted, and the matching file [data.zip] is
    still there after the teardown. *)
Theorem exit_stops_at_directory :
  keep_zip session = false
  /\ glob_match (save_dir session) ["downloads"; "data.zip"] = true
  /\ fs_is_file fs_stale_directory ["downloads"; "data.zip"] = true
  /\ __exit__ session fs_stale_directory
     = (inl (IsADirectoryError ["downloads"; "stale.zip"]), fs_stale_directory)
  /\ fs_is_file (snd (__exit__ session fs_stale_directory))
                ["downloads"; "data.zip"] = true.
Proof. repeat split. Qed.

(** ** [extract_zip] *)

Lemma is_prefix_refl p : is_prefix p p = true.
Proof. induction p; cbn; [reflexivity|]. rewrite String.eqb_refl. exact IHp. Qed.

Lemma is_prefix_antisym : forall p q,
  is_prefix p q = true -> is_prefix q p = true -> p = q.
Proof.
  induction p as [|a p IH]; intros [|b q]; cbn; try discriminate; auto.
  intros Hpq Hqp.
  apply andb_prop in Hpq as [Hab Hpq]. apply andb_prop in Hqp as [_ Hqp].
  apply String.eqb_eq in Hab. subst b. f_equal. auto.
Qed.

Lemma is_prefix_firstn : forall k p, is_prefix (firstn k p) p = true.
Proof.
  induction k as [|k IH]; intros [|a p]; cbn; try reflexivity.
  rewrite String.eqb_refl. apply IH.
Qed.

Lemma prefixes_In p q : In q (prefixes p) -> is_prefix q p = true /\ q <> [].
Proof.
  unfold prefixes. rewrite in_map_iff. intros (k & <- & Hk).
  apply in_seq in Hk. split; [apply is_prefix_firstn|].
  destruct p as [|a p]; [cbn in Hk; lia|].
  destruct k; [lia | discriminate].
Qed.

Lemma is_below_not_prefix p q :
  is_below p q = true -> is_prefix q p = true -> False.
Proof.
  unfold is_below. intros Hb Hqp. apply andb_prop in Hb as [Hpq Hne].
  apply negb_true_iff, path_eqb_neq in Hne.
  apply Hne, is_prefix_antisym; assumption.
Qed.

(** Making directories only adds directory entries, at paths of the
    list that were absent. *)
Lemma mkdir_steps_frame target ps : forall fs r fs',
  for_each ps (mkdir_step target) fs = (r, fs') ->
  forall q, fs_lookup fs' q = fs_lookup fs q
            \/ (fs_lookup fs q = None /\ fs_lookup fs' q = Some Dir /\ In q ps).
Proof.
  induction ps as [|p ps IH]; intros fs r fs' Hrun q.
  - cbn in Hrun. injection Hrun as <- <-. left. reflexivity.
  - cbn [for_each] in Hrun. unfold bind, mkdir_step at 1 in Hrun.
    destruct (fs_stat fs p) as [[d|]|] eqn:Hp.
    + injection Hrun as <- <-. left. reflexivity.
    + destruct (IH _ _ _ Hrun q) as [Heq | (Hn & Hd & Hin)]; [left; exact Heq|].
      right. repeat split; auto. right. exact Hin.
    + assert (Hne : p <> []) by (intros ->; discriminate Hp).
      rewrite (fs_stat_nonempty _ _ Hne) in Hp.
      destruct (IH _ _ _ Hrun q) as [Heq | (Hn & Hd & Hin)].
      * rewrite fs_lookup_put in Heq.
        destruct (path_eqb p q) eqn:E.
        -- apply path_eqb_eq in E. subst q. right.
           repeat split; auto. left. reflexivity.
        -- left. exact Heq.
      * rewrite fs_lookup_put in Hn.
        destruct (path_eqb p q); [discriminate|].
        right. repeat split; auto. right. exact Hin.
Qed.

Lemma mkdir_parents_frame p fs r fs' :
  mkdir_parents p fs = (r, fs') ->
  forall q, fs_lookup fs' q = fs_lookup fs q
            \/ (fs_lookup fs q = None /\ fs_lookup fs' q = Some Dir
                /\ is_prefix q p = true /\ q <> []).
Proof.
  intros Hrun q.
  destruct (mkdir_steps_frame p (prefixes p) fs r fs' Hrun q)
    as [Heq | (Hn & Hd & Hin)]; [left; exact Heq|].
  right. apply prefixes_In in Hin. tauto.
Qed.

Lemma mkdir_parents_file p fs r fs' q d :
  mkdir_parents p fs = (r, fs') ->
  fs_stat fs q = Some (File d) -> fs_stat fs' q = Some (File d).
Proof.
  intros Hrun Hq. destruct q as [|a q]; [discriminate Hq|].
  cbn [fs_stat] in *.
  destruct (mkdir_parents_frame p fs r fs' Hrun (a :: q))
    as [Heq | (Hn & _)]; congruence.
Qed.

Lemma extract_zip_unfold `{ZipCodec} self limit zip_path extract_path :
  extract_zip self limit zip_path extract_path
  = extract_zip_body self
      (match limit with
       | O => fun _ _ => raise RecursionError
       | S l => extract_zip self l
       end)
      zip_path extract_path.
Proof. destruct limit; reflexivity. Qed.

(** C2.  An archive with an unsafe entry name, once its destination
    directory is made: [extract_zip] raises the unsafe-path error, with
    every unsafe name of the archive in the order of the listing, and
    the filesystem is the one left by making the directory.  No file
    was written anywhere and nothing changed below the destination, so
    a destination that held nothing still holds nothing. *)
Theorem extract_zip_unsafe_extracts_nothing `{ZipCodec} :
  forall (self : Downloader) limit zip_path extract_path fs data entries fs1,
  fs_stat fs zip_path = Some (File data) ->
  is_zipfile_data data = true ->
  zip_read data = Some entries ->
  mkdir_parents (destination self zip_path extract_path) fs = (inr tt, fs1) ->
  (exists name, In name (namelist entries) /\ _is_safe_path name = false) ->
  extract_zip self limit zip_path extract_path fs
  = (inl (ValueError_unsafe
            (filter (fun name => negb (_is_safe_path name)) (namelist entries))),
     fs1)
  /\ (forall name, In name (namelist entries) -> _is_safe_path name = false ->
        In name (filter (fun name => negb (_is_safe_path name))
                        (namelist entries)))
  /\ (forall q d, fs_lookup fs1 q = Some (File d) ->
                  fs_lookup fs q = Some (File d))
  /\ (forall q, is_below (destination self zip_path extract_path) q = true ->
                fs_lookup fs1 q = fs_lookup fs q)
  /\ ((forall q, is_below (destination self zip_path extract_path) q = true ->
                 fs_lookup fs q = None) ->
      forall q, is_below (destination self zip_path extract_path) q = true ->
                fs_lookup fs1 q = None).
Proof.
  intros self limit zip_path extract_path fs data entries fs1
         Hzip Hvalid Hread Hmk (bad & Hbad & Hunsafe).
  assert (Hbelow : forall q,
             is_below (destination self zip_path extract_path) q = true ->
             fs_lookup fs1 q = fs_lookup fs q).
  { intros q Hq.
    destruct (mkdir_parents_frame _ _ _ _ Hmk q)
      as [Heq | (_ & _ & Hpre & _)]; [exact Heq|].
    destruct (is_below_not_prefix _ _ Hq Hpre). }
  split; [|split; [|split; [|split]]].
  - rewrite extract_zip_unfold. unfold extract_zip_body, is_zipfile.
    rewrite Hzip, Hvalid. cbn [negb].
    unfold bind at 1. rewrite Hmk.
    unfold bind at 1. unfold ZipFile.
    rewrite (mkdir_parents_file _ _ _ _ _ _ Hmk Hzip), Hread.
    unfold bind at 1.
    destruct (filter (fun name => negb (_is_safe_path name)) (namelist entries))
      as [|u us] eqn:Hfilter.
    + assert (Hin : In bad (filter (fun name => negb (_is_safe_path name))
                                   (namelist entries))).
      { apply filter_In. rewrite Hunsafe. auto. }
      rewrite Hfilter in Hin. destruct Hin.
    + reflexivity.
  - intros name Hin Hname. apply filter_In. rewrite Hname. auto.
  - intros q d Hq.
    destruct (mkdir_parents_frame _ _ _ _ Hmk q) as [Heq | (_ & Hd & _)];
      congruence.
  - exact Hbelow.
  - intros Hempty q Hq. rewrite (Hbelow q Hq). auto.
Qed.

Lemma extract_zip_unsafe_extracts_nothing_witness :
  @extract_zip example_codec session 5 ["downloads"; "data.zip"] None
    fs_evil_downloaded
  = (inl (ValueError_unsafe ["../escape.txt"]), fs_evil_rejected).
Proof.
  apply (@extract_zip_unsafe_extracts_nothing example_codec session 5
           ["downloads"; "data.zip"] None fs_evil_downloaded "EVIL"
           [("ok.txt", "fine"); ("../escape.txt", "boo")]
           fs_evil_rejected); try reflexivity.
  exists "../escape.txt". split; [right; left; reflexivity | reflexivity].
Defined.

(** ** Nested archives *)

Lemma In_fs_put p n fs q m :
  In (q, m) (fs_put p n fs) -> (q = p /\ m = n) \/ In (q, m) fs.
Proof.
  unfold fs_put. destruct (existsb _ fs).
  - rewrite in_map_iff. intros ([r k] & Heq & Hin). cbn [fst] in Heq.
    destruct (path_eqb r p).
    + injection Heq as <- <-. left. auto.
    + injection Heq as <- <-. right. exact Hin.
  - rewrite in_app_iff. intros [Hin | [Heq | []]]; [right; exact Hin|].
    injection Heq as <- <-. left. auto.
Qed.

Lemma In_fs_remove p fs q m :
  In (q, m) (fs_remove p fs) -> In (q, m) fs /\ q <> p.
Proof.
  unfold fs_remove. rewrite filter_In. cbn [fst]. intros [Hin Hne].
  split; [exact Hin|]. apply path_eqb_neq, negb_true_iff, Hne.
Qed.

Section ZipFree.

Variable root : Path.

Lemma zip_free_only_zips aside fs :
  zip_free root aside fs = true -> only_zips root aside fs.
Proof.
  unfold zip_free. rewrite forallb_forall. intros Hall q d Hin Hb Hz.
  specialize (Hall _ Hin). cbn [fst snd] in Hall. rewrite Hb, Hz in Hall.
  cbn in Hall. apply existsb_exists in Hall as (p & Hp & Heq).
  apply path_eqb_eq in Heq. subst p. exact Hp.
Qed.

Lemma only_zips_weaken aside aside' fs :
  only_zips root aside fs -> incl aside aside' -> only_zips root aside' fs.
Proof. intros Hinv Hincl q d Hin Hb Hz. apply Hincl. eapply Hinv; eauto. Qed.

Lemma only_zips_put_dir aside fs p :
  only_zips root aside fs -> only_zips root aside (fs_put p Dir fs).
Proof.
  intros Hinv q d Hin. apply In_fs_put in Hin as [[_ Heq] | Hin];
    [discriminate Heq | eapply Hinv; eauto].
Qed.

Lemma only_zips_put_file aside fs p data :
  only_zips root aside fs ->
  (is_below root p = true -> is_nested_zip (path_name p) = true -> In p aside) ->
  only_zips root aside (fs_put p (File data) fs).
Proof.
  intros Hinv Hp q d Hin. apply In_fs_put in Hin as [[-> _] | Hin];
    [exact Hp | eapply Hinv; eauto].
Qed.

Lemma only_zips_remove aside fs p :
  only_zips root (p :: aside) fs -> only_zips root aside (fs_remove p fs).
Proof.
  intros Hinv q d Hin Hb Hz. apply In_fs_remove in Hin as [Hin Hne].
  destruct (Hinv q d Hin Hb Hz) as [Heq | Hq]; [congruence | exact Hq].
Qed.

Lemma only_zips_mkdir_steps target aside ps : forall fs r fs',
  for_each ps (mkdir_step target) fs = (r, fs') ->
  only_zips root aside fs -> only_zips root aside fs'.
Proof.
  induction ps as [|p ps IH]; intros fs r fs' Hrun Hinv.
  - cbn in Hrun. injection Hrun as <- <-. exact Hinv.
  - cbn [for_each] in Hrun. unfold bind, mkdir_step at 1 in Hrun.
    destruct (fs_stat fs p) as [[d|]|].
    + injection Hrun as <- <-. exact Hinv.
    + eapply IH; eauto.
    + eapply IH; [exact Hrun|]. apply only_zips_put_dir, Hinv.
Qed.

Lemma only_zips_os_mkdir aside p fs r fs' :
  os_mkdir p fs = (r, fs') -> only_zips root aside fs -> only_zips root aside fs'.
Proof.
  unfold os_mkdir. intros Hrun Hinv.
  destruct (fs_stat fs p); [injection Hrun as <- <-; exact Hinv|].
  destruct (fs_stat fs (path_parent p)) as [[d|]|];
    injection Hrun as <- <-; auto using only_zips_put_dir.
Qed.

Lemma only_zips_open_wb aside p fs r fs' :
  open_wb p fs = (r, fs') ->
  (is_below root p = true -> is_nested_zip (path_name p) = true -> In p aside) ->
  only_zips root aside fs -> only_zips root aside fs'.
Proof.
  unfold open_wb. intros Hrun Hp Hinv.
  destruct (fs_stat fs p) as [[d|]|];
    try (injection Hrun as <- <-; exact Hinv);
    destruct (fs_stat fs (path_parent p)) as [[d'|]|];
    injection Hrun as <- <-; auto using only_zips_put_file.
Qed.

Lemma only_zips_write_chunk aside p data fs r fs' :
  write_chunk p data fs = (r, fs') ->
  (is_below root p = true -> is_nested_zip (path_name p) = true -> In p aside) ->
  only_zips root aside fs -> only_zips root aside fs'.
Proof.
  unfold write_chunk. intros Hrun Hp Hinv.
  destruct (fs_lookup fs p) as [[d|]|];
    injection Hrun as <- <-; auto using only_zips_put_file.
Qed.

Lemma only_zips_unlink aside p fs fs' :
  unlink true p fs = (inr tt, fs') ->
  only_zips root (p :: aside) fs ->
  only_zips root aside fs' /\ fs_is_file fs' p = false.
Proof.
  unfold unlink. intros Hrun Hinv.
  destruct (fs_stat fs p) as [[d|]|] eqn:Hp; [| discriminate Hrun |].
  - injection Hrun as <-.
    assert (Hne : p <> []) by (intros ->; discriminate Hp).
    split; [apply only_zips_remove, Hinv|].
    unfold fs_is_file. rewrite (fs_stat_remove _ _ _ Hne), path_eqb_refl.
    reflexivity.
  - injection Hrun as <-.
    assert (Hne : p <> []) by (intros ->; discriminate Hp).
    split; [|unfold fs_is_file; rewrite Hp; reflexivity].
    rewrite (fs_stat_nonempty _ _ Hne) in Hp.
    intros q d Hin Hb Hz.
    destruct (Hinv q d Hin Hb Hz) as [<- | Hq]; [|exact Hq].
    destruct (fs_lookup_None _ _ Hp _ Hin).
Qed.

End ZipFree.

(** *** Entry names and the paths they are extracted to *)

Lemma is_rooted_segments l :
  (forall x, In x l -> no_slash x = true) -> is_rooted l = false.
Proof.
  destruct l as [|r l]; [reflexivity|]. intros Hl. cbn [is_rooted].
  apply no_slash_startswith, Hl. left. reflexivity.
Qed.

Lemma path_of_string_segments s :
  startswith s "/" = false ->
  forall x, In x (path_of_string s) -> no_slash x = true.
Proof.
  intros Hs x Hx. rewrite (path_of_string_unrooted s Hs) in Hx.
  apply filter_In in Hx as [Hx _]. eapply segment_no_slash, Hx.
Qed.

Lemma joinpath_relative p s :
  startswith s "/" = false -> joinpath p s = p ++ path_of_string s.
Proof.
  intros Hs. unfold joinpath.
  rewrite (is_rooted_segments _ (path_of_string_segments s Hs)). reflexivity.
Qed.

Lemma safe_not_rooted m : _is_safe_path m = true -> startswith m "/" = false.
Proof.
  intros Hsafe. destruct (startswith m "/") eqn:Hm; [|reflexivity].
  rewrite (unsafe_rooted m Hm) in Hsafe. discriminate.
Qed.

(** For a safe entry name [zipfile] and [pathlib] agree on the path. *)
Lemma safe_arcname_parts m :
  _is_safe_path m = true -> path_of_string m = arcname_parts m.
Proof.
  intros Hsafe. rewrite (path_of_string_unrooted m (safe_not_rooted m Hsafe)).
  unfold arcname_parts. apply filter_ext_in. intros x Hx.
  unfold kept_segment.
  destruct (String.eqb_spec x ""); [reflexivity|].
  destruct (String.eqb_spec x "."); [reflexivity|].
  destruct (String.eqb_spec x ".."); [|reflexivity].
  subst x. rewrite (unsafe_segment m ".." Hx eq_refl) in Hsafe. discriminate.
Qed.

Lemma safe_joinpath dest m :
  _is_safe_path m = true -> joinpath dest m = dest ++ arcname_parts m.
Proof.
  intros Hsafe. rewrite (joinpath_relative dest m (safe_not_rooted m Hsafe)).
  rewrite (safe_arcname_parts m Hsafe). reflexivity.
Qed.

Lemma arcname_parts_no_slash m x : In x (arcname_parts m) -> no_slash x = true.
Proof.
  unfold arcname_parts. intros Hx. apply filter_In in Hx as [Hx _].
  eapply segment_no_slash, Hx.
Qed.

Lemma path_name_target dest m file_name rest :
  rev (arcname_parts m) = file_name :: rest ->
  path_name (dest ++ arcname_parts m) = file_name.
Proof.
  intros Hrev. unfold path_name. rewrite rev_app_distr, Hrev. cbn.
  rewrite no_slash_startswith; [reflexivity|].
  apply (arcname_parts_no_slash m). apply in_rev. rewrite Hrev.
  left. reflexivity.
Qed.

Lemma path_name_unrooted p : startswith (path_name p) "/" = false.
Proof.
  unfold path_name. destruct (rev p) as [|x l]; [reflexivity|].
  destruct (startswith x "/") eqn:Hx; [reflexivity | exact Hx].
Qed.

Lemma path_stem_unrooted p : startswith (path_stem p) "/" = false.
Proof.
  unfold path_stem. pose proof (path_name_unrooted p) as Hname.
  destruct (rfind_dot (path_name p)) as [i|]; [|exact Hname].
  destruct ((0 <? i)%nat && (i <? String.length (path_name p) - 1)%nat) eqn:Hi;
    [|exact Hname].
  apply andb_prop in Hi as [Hi _]. apply Nat.ltb_lt in Hi.
  destruct i as [|i]; [lia|].
  destruct (path_name p) as [|c name]; [reflexivity|].
  cbn [substring]. rewrite startswith_char in *. exact Hname.
Qed.

Lemma is_prefix_app root p q :
  is_prefix root p = true -> is_prefix root (p ++ q) = true.
Proof.
  revert p. induction root as [|a root IH]; intros [|b p]; cbn;
    try reflexivity; try discriminate.
  intros Hp. apply andb_prop in Hp as [-> Hp]. cbn. auto.
Qed.

Lemma nested_destination_below root dest member :
  is_prefix root dest = true ->
  is_prefix root (joinpath dest (path_stem (path_of_string member))) = true.
Proof.
  intros Hroot. rewrite joinpath_relative by apply path_stem_unrooted.
  apply is_prefix_app, Hroot.
Qed.

Section NestedArchives.

Context `{ZipCodec}.
Variable root : Path.

Lemma only_zips_zip_extract aside entries member dest fs r fs' :
  zip_extract entries member dest fs = (r, fs') ->
  (endswith member "/" = false ->
   is_below root (dest ++ arcname_parts member) = true ->
   is_nested_zip (path_name (dest ++ arcname_parts member)) = true ->
   In (dest ++ arcname_parts member) aside) ->
  only_zips root aside fs -> only_zips root aside fs'.
Proof.
  unfold zip_extract. intros Hrun Htarget Hinv.
  destruct (getinfo entries member) as [data|];
    [|injection Hrun as <- <-; exact Hinv].
  unfold bind at 1 in Hrun.
  set (target := dest ++ arcname_parts member) in *.
  destruct (fs_exists fs (path_parent target)).
  - destruct (endswith member "/").
    + destruct (fs_is_dir fs target);
        [injection Hrun as <- <-; exact Hinv|].
      eapply only_zips_os_mkdir; eauto.
    + unfold bind in Hrun.
      destruct (open_wb target fs) as [[e|[]] fs1] eqn:Hopen.
      * injection Hrun as <- <-. eapply only_zips_open_wb; eauto.
      * eapply only_zips_write_chunk; [exact Hrun | auto |].
        eapply only_zips_open_wb; eauto.
  - destruct (mkdir_parents (path_parent target) fs) as [[e|[]] fs0] eqn:Hmk.
    + injection Hrun as <- <-. eapply only_zips_mkdir_steps; eauto.
    + assert (Hinv0 : only_zips root aside fs0)
        by (eapply only_zips_mkdir_steps; eauto).
      destruct (endswith member "/").
      * destruct (fs_is_dir fs0 target);
          [injection Hrun as <- <-; exact Hinv0|].
        eapply only_zips_os_mkdir; eauto.
      * unfold bind in Hrun.
        destruct (open_wb target fs0) as [[e|[]] fs1] eqn:Hopen.
        -- injection Hrun as <- <-. eapply only_zips_open_wb; eauto.
        -- eapply only_zips_write_chunk; [exact Hrun | auto |].
           eapply only_zips_open_wb; eauto.
Qed.

End NestedArchives.

(** After the [finally] clause of the loop body, whatever the nested
    attempt did. *)
Lemma extract_member_nested `{ZipCodec} (self : Downloader)
    recur entries dest member fs fs1 r fs2 :
  is_nested_zip member = true ->
  zip_extract entries member dest fs = (inr tt, fs1) ->
  recur (joinpath dest member)
        (Some (joinpath dest (path_stem (path_of_string member)))) fs1
  = (r, fs2) ->
  exists r' fs3,
    extract_member self recur entries dest member fs = (r', fs3)
    /\ (keep_zip self = false -> fs_is_file fs3 (joinpath dest member) = false)
    /\ (keep_zip self = true -> fs3 = fs2)
    /\ (forall q, q <> joinpath dest member ->
                  fs_lookup fs3 q = fs_lookup fs2 q)
    /\ (forall e, r = inl e -> exists e', r' = inl e')
    /\ (r' = inr tt -> exists p, r = inr p).
Proof.
  intros Hnested Hext Hrecur. unfold extract_member.
  unfold bind at 1. rewrite Hext, Hnested.
  set (nested_path := joinpath dest member) in *.
  unfold try_finally, bind. rewrite Hrecur.
  assert (Hcases : forall (r' : exn + unit) fs3,
             (keep_zip self = false -> fs_is_file fs3 nested_path = false) ->
             (keep_zip self = true -> fs3 = fs2) ->
             (forall q, q <> nested_path -> fs_lookup fs3 q = fs_lookup fs2 q) ->
             (forall e, r = inl e -> exists e', r' = inl e') ->
             (r' = inr tt -> exists p, r = inr p) ->
             exists r0 fs0,
               (r', fs3) = (r0, fs0)
               /\ (keep_zip self = false -> fs_is_file fs0 nested_path = false)
               /\ (keep_zip self = true -> fs0 = fs2)
               /\ (forall q, q <> nested_path ->
                             fs_lookup fs0 q = fs_lookup fs2 q)
               /\ (forall e, r = inl e -> exists e', r0 = inl e')
               /\ (r0 = inr tt -> exists p, r = inr p)).
  { intros r' fs3 H1 H2 H3 H4 H5. exists r', fs3. tauto. }
  destruct r as [e|p]; cbn [ret];
    (destruct (keep_zip self) eqn:Hkeep; cbn [negb ret];
     [apply Hcases; try discriminate; eauto|]);
    unfold unlink;
    (destruct (fs_stat fs2 nested_path) as [[d|]|] eqn:Hstat;
     [ assert (Hne : nested_path <> [])
         by (intros E; rewrite E in Hstat; discriminate);
       assert (Hgone : fs_is_file (fs_remove nested_path fs2) nested_path
                       = false)
         by (unfold fs_is_file;
             rewrite (fs_stat_remove _ _ _ Hne), path_eqb_refl; reflexivity);
       assert (Hframe : forall q, q <> nested_path ->
                 fs_lookup (fs_remove nested_path fs2) q = fs_lookup fs2 q)
         by (intros q Hq; rewrite fs_lookup_remove;
             destruct (path_eqb nested_path q) eqn:E; [|reflexivity];
             apply path_eqb_eq in E; congruence)
     | assert (Hgone : fs_is_file fs2 nested_path = false)
         by (unfold fs_is_file; rewrite Hstat; reflexivity)
     | assert (Hgone : fs_is_file fs2 nested_path = false)
         by (unfold fs_is_file; rewrite Hstat; reflexivity) ]);
    apply Hcases; try discriminate; eauto.
Qed.

(** ** [download_and_extract] *)

(** C1, at a failure of the extraction.  When [extract_zip] raises,
    [extract_dir] has not been bound, so the [except] clause unlinks
    the downloaded archive and removes no directory: every other path
    is as the failed extraction left it, the destination directory and
    what was extracted into it included. *)
Theorem download_and_extract_keeps_directory
    `{UrlLib} `{HttpClient} `{Console} `{ZipCodec} :
  forall (self : Downloader) limit url extract_path fs zip_path fs1 e fs2,
  download_file self url None 8192 fs = (inr zip_path, fs1) ->
  extract_zip self limit zip_path extract_path fs1 = (inl e, fs2) ->
  fs_is_dir fs2 zip_path = false ->
  exists fs',
    download_and_extract self limit url extract_path fs
    = (inl (Exception_download_and_extract e), fs')
    /\ fs_is_file fs' zip_path = false
    /\ forall q, q <> zip_path -> fs_lookup fs' q = fs_lookup fs2 q.
Proof.
  intros self limit url extract_path fs zip_path fs1 e fs2 Hdl Hext Hnd.
  unfold download_and_extract, download_and_extract_try.
  rewrite Hdl, Hext.
  unfold download_and_extract_except. cbn [zip_path_local extract_dir_local].
  unfold bind, unlink, fs_is_dir in *.
  destruct (fs_stat fs2 zip_path) as [[d|]|] eqn:Hstat; [| discriminate Hnd |].
  - assert (Hne : zip_path <> []) by (intros E; rewrite E in Hstat; discriminate).
    eexists. split; [reflexivity|]. split.
    + unfold fs_is_file. rewrite (fs_stat_remove _ _ _ Hne), path_eqb_refl.
      reflexivity.
    + intros q Hq. rewrite fs_lookup_remove.
      destruct (path_eqb zip_path q) eqn:E; [|reflexivity].
      apply path_eqb_eq in E. congruence.
  - eexists. split; [reflexivity|]. split.
    + unfold fs_is_file. rewrite Hstat. reflexivity.
    + reflexivity.
Qed.

Lemma download_and_extract_keeps_directory_witness :
  exists fs',
    @download_and_extract example_urllib server_evil (operator "y")
      example_codec session 5 data_url None fs_empty_session
    = (inl (Exception_download_and_extract
              (ValueError_unsafe ["../escape.txt"])), fs')
    /\ fs_is_file fs' ["downloads"; "data.zip"] = false
    /\ forall q, q <> ["downloads"; "data.zip"] ->
                 fs_lookup fs' q = fs_lookup fs_evil_rejected q.
Proof.
  apply (@download_and_extract_keeps_directory example_urllib server_evil
           (operator "y") example_codec session 5%nat data_url None
           fs_empty_session ["downloads"; "data.zip"] fs_evil_downloaded
           (ValueError_unsafe ["../escape.txt"]) fs_evil_rejected);
    reflexivity.
Defined.

(** The same run, evaluated: the archive is gone and the directory
    [downloads/data] that the failed extraction made is still there. *)
Example download_and_extract_unsafe_archive :
  @download_and_extract example_urllib server_evil (operator "y")
    example_codec session 5 data_url None fs_empty_session
  = (inl (Exception_download_and_extract (ValueError_unsafe ["../escape.txt"])),
     [(["downloads"], Dir); (["downloads"; "data"], Dir)]).
Proof. reflexivity. Qed.

(** * Further properties *)

(** ** Relations kept by the runs of a program *)

Lemma bind_success {A B} (m : M A) (k : A -> M B) fs r fs' :
  bind m k fs = (inr r, fs') ->
  exists a fs1, m fs = (inr a, fs1) /\ k a fs1 = (inr r, fs').
Proof.
  unfold bind. destruct (m fs) as [[e|a] fs1]; [discriminate|]. eauto.
Qed.

Section Preserves.

Variable R : FS -> FS -> Prop.
Hypothesis R_refl : forall fs, R fs fs.
Hypothesis R_trans : forall a b c, R a b -> R b c -> R a c.

Lemma preserves_ret {A} (a : A) : preserves R (ret a).
Proof. intros fs r fs' [= <- <-]. apply R_refl. Qed.

Lemma preserves_raise {A} (e : exn) : preserves R (@raise A e).
Proof. intros fs r fs' [= <- <-]. apply R_refl. Qed.

Lemma preserves_bind {A B} (m : M A) (k : A -> M B) :
  preserves R m -> (forall a, preserves R (k a)) -> preserves R (bind m k).
Proof.
  intros Hm Hk fs r fs' Hrun. unfold bind in Hrun.
  destruct (m fs) as [[e|a] fs1] eqn:Hfs.
  - injection Hrun as <- <-. eapply Hm; eauto.
  - eapply R_trans; [eapply Hm; eauto | eapply Hk; eauto].
Qed.

Lemma preserves_for_each {A} (f : A -> M unit) (l : list A) :
  (forall x, In x l -> preserves R (f x)) -> preserves R (for_each l f).
Proof.
  induction l as [|x l IH]; intros Hf; cbn [for_each].
  - apply preserves_ret.
  - apply preserves_bind; [apply Hf; left; reflexivity|].
    intros _. apply IH. intros y Hy. apply Hf. right. exact Hy.
Qed.

Lemma preserves_try_finally {A} (body : M A) (fin : M unit) :
  preserves R body -> preserves R fin -> preserves R (try_finally body fin).
Proof.
  intros Hb Hf fs r fs' Hrun. unfold try_finally in Hrun.
  destruct (body fs) as [rb fs1] eqn:Hbody.
  destruct (fin fs1) as [[e|u] fs2] eqn:Hfin; injection Hrun as <- <-;
    (eapply R_trans; [eapply Hb; eauto | eapply Hf; eauto]).
Qed.

End Preserves.

(** *** The three relations *)

Lemma unchanged_outside_refl area fs : unchanged_outside area fs fs.
Proof. intros q _. reflexivity. Qed.

Lemma unchanged_outside_trans area a b c :
  unchanged_outside area a b -> unchanged_outside area b c ->
  unchanged_outside area a c.
Proof. intros Hab Hbc q Hq. rewrite (Hbc q Hq). apply Hab, Hq. Qed.

Lemma dirs_kept_refl fs : dirs_kept fs fs.
Proof. intros q Hq. exact Hq. Qed.

Lemma dirs_kept_trans a b c : dirs_kept a b -> dirs_kept b c -> dirs_kept a c.
Proof. intros Hab Hbc q Hq. apply Hbc, Hab, Hq. Qed.

Lemma paths_kept_refl fs : paths_kept fs fs.
Proof. intros q Hq. exact Hq. Qed.

Lemma paths_kept_trans a b c :
  paths_kept a b -> paths_kept b c -> paths_kept a c.
Proof. intros Hab Hbc q Hq. apply Hbc, Hab, Hq. Qed.

(** *** What one operation changes *)

Lemma put_unchanged_outside area p n fs :
  area p = true -> unchanged_outside area fs (fs_put p n fs).
Proof.
  intros Hp q Hq. rewrite fs_lookup_put.
  destruct (path_eqb p q) eqn:E; [|reflexivity].
  apply path_eqb_eq in E. congruence.
Qed.

Lemma remove_unchanged_outside area p fs :
  area p = true -> unchanged_outside area fs (fs_remove p fs).
Proof.
  intros Hp q Hq. rewrite fs_lookup_remove.
  destruct (path_eqb p q) eqn:E; [|reflexivity].
  apply path_eqb_eq in E. congruence.
Qed.

Lemma put_dirs_kept p n fs :
  fs_lookup fs p <> Some Dir -> dirs_kept fs (fs_put p n fs).
Proof.
  intros Hp q Hq. rewrite fs_lookup_put.
  destruct (path_eqb p q) eqn:E; [|exact Hq].
  apply path_eqb_eq in E. congruence.
Qed.

Lemma remove_dirs_kept p fs :
  fs_lookup fs p <> Some Dir -> dirs_kept fs (fs_remove p fs).
Proof.
  intros Hp q Hq. rewrite fs_lookup_remove.
  destruct (path_eqb p q) eqn:E; [|exact Hq].
  apply path_eqb_eq in E. congruence.
Qed.

Lemma put_paths_kept p n fs : paths_kept fs (fs_put p n fs).
Proof.
  intros q Hq. rewrite fs_lookup_put.
  destruct (path_eqb p q); [discriminate | exact Hq].
Qed.

Lemma fs_stat_lookup_file fs p d :
  fs_stat fs p = Some (File d) -> fs_lookup fs p = Some (File d).
Proof. destruct p; [discriminate | auto]. Qed.

Lemma fs_stat_lookup_none fs p : fs_stat fs p = None -> fs_lookup fs p = None.
Proof. destruct p; [discriminate | auto]. Qed.

Lemma fs_stat_not_dir fs p :
  fs_stat fs p <> Some Dir -> fs_lookup fs p <> Some Dir.
Proof. destruct p; [intros Hp; exfalso; apply Hp; reflexivity | auto]. Qed.

Section Operations.

Variable area : Path -> bool.

Lemma mkdir_step_unchanged target p :
  area p = true -> preserves (unchanged_outside area) (mkdir_step target p).
Proof.
  intros Hp fs r fs' Hrun. unfold mkdir_step in Hrun.
  destruct (fs_stat fs p) as [[d|]|]; injection Hrun as <- <-;
    auto using unchanged_outside_refl, put_unchanged_outside.
Qed.

Lemma os_mkdir_unchanged p :
  area p = true -> preserves (unchanged_outside area) (os_mkdir p).
Proof.
  intros Hp fs r fs' Hrun. unfold os_mkdir in Hrun.
  destruct (fs_stat fs p);
    [injection Hrun as <- <-; apply unchanged_outside_refl|].
  destruct (fs_stat fs (path_parent p)) as [[d|]|]; injection Hrun as <- <-;
    auto using unchanged_outside_refl, put_unchanged_outside.
Qed.

Lemma open_wb_unchanged p :
  area p = true -> preserves (unchanged_outside area) (open_wb p).
Proof.
  intros Hp fs r fs' Hrun. unfold open_wb in Hrun.
  destruct (fs_stat fs p) as [[d|]|];
    try (injection Hrun as <- <-; apply unchanged_outside_refl);
    destruct (fs_stat fs (path_parent p)) as [[d'|]|]; injection Hrun as <- <-;
    auto using unchanged_outside_refl, put_unchanged_outside.
Qed.

Lemma write_chunk_unchanged p data :
  area p = true -> preserves (unchanged_outside area) (write_chunk p data).
Proof.
  intros Hp fs r fs' Hrun. unfold write_chunk in Hrun.
  destruct (fs_lookup fs p) as [[d|]|]; injection Hrun as <- <-;
    auto using unchanged_outside_refl, put_unchanged_outside.
Qed.

Lemma unlink_unchanged missing_ok p :
  area p = true -> preserves (unchanged_outside area) (unlink missing_ok p).
Proof.
  intros Hp fs r fs' Hrun. unfold unlink in Hrun.
  destruct (fs_stat fs p) as [[d|]|]; [| |destruct missing_ok];
    injection Hrun as <- <-;
    auto using unchanged_outside_refl, remove_unchanged_outside.
Qed.

End Operations.

Lemma mkdir_step_dirs_kept target p : preserves dirs_kept (mkdir_step target p).
Proof.
  intros fs r fs' Hrun. unfold mkdir_step in Hrun.
  destruct (fs_stat fs p) as [[d|]|] eqn:Hp; injection Hrun as <- <-;
    try apply dirs_kept_refl.
  apply put_dirs_kept. rewrite (fs_stat_lookup_none _ _ Hp). discriminate.
Qed.

Lemma os_mkdir_dirs_kept p : preserves dirs_kept (os_mkdir p).
Proof.
  intros fs r fs' Hrun. unfold os_mkdir in Hrun.
  destruct (fs_stat fs p) eqn:Hp;
    [injection Hrun as <- <-; apply dirs_kept_refl|].
  destruct (fs_stat fs (path_parent p)) as [[d|]|]; injection Hrun as <- <-;
    try apply dirs_kept_refl.
  apply put_dirs_kept. rewrite (fs_stat_lookup_none _ _ Hp). discriminate.
Qed.

Lemma open_wb_dirs_kept p : preserves dirs_kept (open_wb p).
Proof.
  intros fs r fs' Hrun. unfold open_wb in Hrun.
  destruct (fs_stat fs p) as [[d|]|] eqn:Hp;
    try (injection Hrun as <- <-; apply dirs_kept_refl);
    destruct (fs_stat fs (path_parent p)) as [[d'|]|]; injection Hrun as <- <-;
    try apply dirs_kept_refl; apply put_dirs_kept, fs_stat_not_dir;
    rewrite Hp; discriminate.
Qed.

Lemma write_chunk_dirs_kept p data : preserves dirs_kept (write_chunk p data).
Proof.
  intros fs r fs' Hrun. unfold write_chunk in Hrun.
  destruct (fs_lookup fs p) as [[d|]|] eqn:Hp; injection Hrun as <- <-;
    try apply dirs_kept_refl.
  apply put_dirs_kept. rewrite Hp. discriminate.
Qed.

Lemma unlink_dirs_kept missing_ok p : preserves dirs_kept (unlink missing_ok p).
Proof.
  intros fs r fs' Hrun. unfold unlink in Hrun.
  destruct (fs_stat fs p) as [[d|]|] eqn:Hp; [| |destruct missing_ok];
    injection Hrun as <- <-; try apply dirs_kept_refl.
  apply remove_dirs_kept, fs_stat_not_dir. rewrite Hp. discriminate.
Qed.

Lemma mkdir_step_paths_kept target p : preserves paths_kept (mkdir_step target p).
Proof.
  intros fs r fs' Hrun. unfold mkdir_step in Hrun.
  destruct (fs_stat fs p) as [[d|]|]; injection Hrun as <- <-;
    auto using paths_kept_refl, put_paths_kept.
Qed.

Lemma os_mkdir_paths_kept p : preserves paths_kept (os_mkdir p).
Proof.
  intros fs r fs' Hrun. unfold os_mkdir in Hrun.
  destruct (fs_stat fs p);
    [injection Hrun as <- <-; apply paths_kept_refl|].
  destruct (fs_stat fs (path_parent p)) as [[d|]|]; injection Hrun as <- <-;
    auto using paths_kept_refl, put_paths_kept.
Qed.

Lemma open_wb_paths_kept p : preserves paths_kept (open_wb p).
Proof.
  intros fs r fs' Hrun. unfold open_wb in Hrun.
  destruct (fs_stat fs p) as [[d|]|];
    try (injection Hrun as <- <-; apply paths_kept_refl);
    destruct (fs_stat fs (path_parent p)) as [[d'|]|]; injection Hrun as <- <-;
    auto using paths_kept_refl, put_paths_kept.
Qed.

Lemma write_chunk_paths_kept p data : preserves paths_kept (write_chunk p data).
Proof.
  intros fs r fs' Hrun. unfold write_chunk in Hrun.
  destruct (fs_lookup fs p) as [[d|]|]; injection Hrun as <- <-;
    auto using paths_kept_refl, put_paths_kept.
Qed.

(** ** Prefixes *)

Lemma is_prefix_trans : forall p q r,
  is_prefix p q = true -> is_prefix q r = true -> is_prefix p r = true.
Proof.
  induction p as [|a p IH]; intros [|b q] [|c r]; cbn;
    try reflexivity; try discriminate.
  intros Hpq Hqr.
  apply andb_prop in Hpq as [Hab Hpq]. apply andb_prop in Hqr as [Hbc Hqr].
  apply String.eqb_eq in Hab. subst b. rewrite Hbc. cbn. eauto.
Qed.

Lemma is_prefix_removelast : forall p q,
  is_prefix q (removelast p) = true -> is_prefix q p = true.
Proof.
  induction p as [|a p IH]; intros q Hq; [exact Hq|].
  destruct p as [|b p].
  - destruct q; [reflexivity | discriminate Hq].
  - destruct q as [|c q]; [reflexivity|].
    change (removelast (a :: b :: p)) with (a :: removelast (b :: p)) in Hq.
    cbn [is_prefix] in Hq |- *.
    apply andb_prop in Hq as [-> Hq]. cbn. apply IH, Hq.
Qed.

Lemma is_prefix_self_app p x : is_prefix p (p ++ x) = true.
Proof. apply is_prefix_app, is_prefix_refl. Qed.

Lemma is_prefix_app_cases : forall d x q,
  is_prefix q (d ++ x) = true ->
  is_prefix q d = true \/ is_prefix d q = true.
Proof.
  induction d as [|a d IH]; intros x q Hq.
  - right. reflexivity.
  - destruct q as [|b q]; [left; reflexivity|].
    cbn [app is_prefix] in Hq |- *.
    apply andb_prop in Hq as [Hab Hq]. apply String.eqb_eq in Hab. subst b.
    rewrite String.eqb_refl. cbn. eauto.
Qed.

Lemma is_prefix_comparable : forall d q r,
  is_prefix q d = true -> is_prefix r d = true ->
  is_prefix q r = true \/ is_prefix r q = true.
Proof.
  induction d as [|a d IH]; intros [|b q] [|c r]; cbn; auto; try discriminate.
  intros Hq Hr.
  apply andb_prop in Hq as [Hb Hq]. apply andb_prop in Hr as [Hc Hr].
  apply String.eqb_eq in Hb, Hc. subst b c.
  rewrite String.eqb_refl. cbn. eauto.
Qed.

(** ** What [extract_zip] keeps, in general

    A relation on filesystems that is kept by the operations on the
    paths of the extraction area is kept by [extract_zip], at every
    depth of nesting. *)

Section ExtractionPreserves.

Context `{ZipCodec}.
Variable self : Downloader.
Variable R : FS -> FS -> Prop.
Hypothesis R_refl : forall fs, R fs fs.
Hypothesis R_trans : forall a b c, R a b -> R b c -> R a c.

Variable ok : Path -> Prop.
Hypothesis ok_mkdir_step : forall target p, ok p -> preserves R (mkdir_step target p).
Hypothesis ok_os_mkdir : forall p, ok p -> preserves R (os_mkdir p).
Hypothesis ok_open_wb : forall p, ok p -> preserves R (open_wb p).
Hypothesis ok_write_chunk : forall p data, ok p -> preserves R (write_chunk p data).
Hypothesis ok_cleanup : forall p,
  ok p ->
  preserves R (if negb (keep_zip self) then unlink true p else ret tt).

Variable root : Path.
Hypothesis ok_area : forall d x q,
  is_prefix root d = true -> is_prefix q (d ++ x) = true -> ok q.

Lemma mkdir_parents_preserves p :
  (forall q, is_prefix q p = true -> ok q) -> preserves R (mkdir_parents p).
Proof.
  intros Hp. unfold mkdir_parents. apply preserves_for_each; auto.
  intros q Hq. apply ok_mkdir_step, Hp. apply prefixes_In in Hq. tauto.
Qed.

Lemma zip_extract_preserves entries member dest :
  is_prefix root dest = true ->
  preserves R (zip_extract entries member dest).
Proof.
  intros Hroot. unfold zip_extract.
  destruct (getinfo entries member) as [data|]; [|apply preserves_raise, R_refl].
  set (target := dest ++ arcname_parts member).
  assert (Hok : forall q, is_prefix q target = true -> ok q)
    by (intros q Hq; eapply ok_area; eauto).
  assert (Htarget : ok target) by (apply Hok, is_prefix_refl).
  apply preserves_bind; auto.
  - intros fs r fs' Hrun.
    destruct (fs_exists fs (path_parent target)).
    + injection Hrun as <- <-. apply R_refl.
    + eapply mkdir_parents_preserves; [|exact Hrun].
      intros q Hq. apply Hok, is_prefix_removelast, Hq.
  - intros _. destruct (endswith member "/").
    + intros fs r fs' Hrun. destruct (fs_is_dir fs target).
      * injection Hrun as <- <-. apply R_refl.
      * eapply ok_os_mkdir; eauto.
    + apply preserves_bind; auto.
Qed.

Lemma extract_member_preserves recur entries dest member :
  (forall nested_path nested_dest,
     is_prefix root nested_dest = true -> ok nested_path ->
     preserves R (recur nested_path (Some nested_dest))) ->
  is_prefix root dest = true ->
  _is_safe_path member = true ->
  preserves R (extract_member self recur entries dest member).
Proof.
  intros Hrec Hroot Hsafe. unfold extract_member.
  apply preserves_bind; auto using zip_extract_preserves.
  intros _. destruct (is_nested_zip member); [|apply preserves_ret, R_refl].
  assert (Hnp : ok (joinpath dest member)).
  { rewrite (safe_joinpath dest member Hsafe).
    eapply ok_area; [exact Hroot | apply is_prefix_refl]. }
  apply preserves_try_finally; auto.
  apply preserves_bind; auto.
  - apply Hrec; [apply nested_destination_below, Hroot | exact Hnp].
  - intros _. apply preserves_ret, R_refl.
Qed.

Lemma extract_zip_body_unfold recur zip_path extract_path fs :
  extract_zip_body self recur zip_path extract_path fs
  = if negb (is_zipfile zip_path fs)
    then (inl (ValueError_not_zip zip_path), fs)
    else (mkdir_parents (destination self zip_path extract_path) ;;;
          extract_zip_after_mkdir self recur zip_path
            (destination self zip_path extract_path)) fs.
Proof. reflexivity. Qed.

Lemma extract_zip_after_mkdir_preserves recur zip_path dest :
  (forall nested_path nested_dest,
     is_prefix root nested_dest = true -> ok nested_path ->
     preserves R (recur nested_path (Some nested_dest))) ->
  is_prefix root dest = true ->
  ok zip_path ->
  preserves R (extract_zip_after_mkdir self recur zip_path dest).
Proof.
  intros Hrec Hroot Hzip. unfold extract_zip_after_mkdir.
  apply preserves_bind; auto.
  { intros fs r fs' Hrun. unfold ZipFile in Hrun.
    destruct (fs_stat fs zip_path) as [[data|]|];
      [destruct (zip_read data)| |]; injection Hrun as <- <-; apply R_refl. }
  intros entries. apply preserves_bind; auto.
  { destruct (filter (fun name => negb (_is_safe_path name)) (namelist entries))
      as [|u us] eqn:Hfilter; [|apply preserves_raise, R_refl].
    apply preserves_for_each; auto. intros member Hmember.
    apply extract_member_preserves; auto.
    destruct (_is_safe_path member) eqn:Hsafe; [reflexivity|].
    assert (Hin : In member (filter (fun name => negb (_is_safe_path name))
                                    (namelist entries)))
      by (apply filter_In; rewrite Hsafe; auto).
    rewrite Hfilter in Hin. destruct Hin. }
  intros _. apply preserves_bind; auto.
  intros _. apply preserves_ret, R_refl.
Qed.

Lemma extract_zip_body_preserves recur zip_path extract_path :
  (forall nested_path nested_dest,
     is_prefix root nested_dest = true -> ok nested_path ->
     preserves R (recur nested_path (Some nested_dest))) ->
  is_prefix root (destination self zip_path extract_path) = true ->
  ok zip_path ->
  preserves R (extract_zip_body self recur zip_path extract_path).
Proof.
  intros Hrec Hroot Hzip fs r fs' Hrun.
  rewrite extract_zip_body_unfold in Hrun.
  destruct (negb (is_zipfile zip_path fs));
    [injection Hrun as <- <-; apply R_refl|].
  revert Hrun. apply preserves_bind; auto.
  - apply mkdir_parents_preserves. intros q Hq.
    eapply ok_area with (x := []); [exact Hroot|]. rewrite app_nil_r. exact Hq.
  - intros _. apply extract_zip_after_mkdir_preserves; auto.
Qed.

Lemma extract_zip_preserves : forall limit zip_path extract_path,
  is_prefix root (destination self zip_path extract_path) = true ->
  ok zip_path ->
  preserves R (extract_zip self limit zip_path extract_path).
Proof.
  induction limit as [|limit IH]; intros zip_path extract_path Hroot Hzip;
    rewrite extract_zip_unfold; apply extract_zip_body_preserves; auto.
  intros np nd _ _. apply preserves_raise, R_refl.
Qed.

(** A run that succeeded made the destination directory first and
    returns the destination. *)
Lemma extract_zip_success_split limit zip_path extract_path fs r fs' :
  is_prefix root (destination self zip_path extract_path) = true ->
  ok zip_path ->
  extract_zip self limit zip_path extract_path fs = (inr r, fs') ->
  exists fs1,
    mkdir_parents (destination self zip_path extract_path) fs = (inr tt, fs1)
    /\ R fs1 fs' /\ r = destination self zip_path extract_path.
Proof.
  intros Hroot Hzip Hrun.
  rewrite extract_zip_unfold, extract_zip_body_unfold in Hrun.
  destruct (negb (is_zipfile zip_path fs)); [discriminate Hrun|].
  unfold bind at 1 in Hrun.
  destruct (mkdir_parents (destination self zip_path extract_path) fs)
    as [[e|[]] fs1]; [discriminate Hrun|].
  exists fs1. split; [reflexivity|].
  split.
  - revert Hrun. apply extract_zip_after_mkdir_preserves; auto.
    intros np nd Hnd Hnp. destruct limit.
    + apply preserves_raise, R_refl.
    + apply extract_zip_preserves; auto.
  - unfold extract_zip_after_mkdir in Hrun.
    apply bind_success in Hrun as (entries & fs2 & _ & Hrun).
    apply bind_success in Hrun as (u & fs3 & _ & Hrun).
    apply bind_success in Hrun as (u' & fs4 & _ & Hrun).
    injection Hrun as <- _. reflexivity.
Qed.

End ExtractionPreserves.

(** ** [extract_zip]: where it writes, and what it keeps *)

Lemma extraction_area_covers zip_path root d x q :
  is_prefix root d = true -> is_prefix q (d ++ x) = true ->
  extraction_area zip_path root q = true.
Proof.
  intros Hroot Hq. unfold extraction_area.
  destruct (is_prefix_app_cases d x q Hq) as [Hqd | Hdq].
  - destruct (is_prefix_comparable d q root Hqd Hroot) as [-> | ->];
      rewrite ?orb_true_r; reflexivity.
  - rewrite (is_prefix_trans root d q Hroot Hdq), orb_true_r. reflexivity.
Qed.

Lemma extract_zip_unchanged_outside `{ZipCodec} self limit zip_path extract_path :
  preserves
    (unchanged_outside
       (extraction_area zip_path (destination self zip_path extract_path)))
    (extract_zip self limit zip_path extract_path).
Proof.
  set (area := extraction_area zip_path (destination self zip_path extract_path)).
  apply (extract_zip_preserves self (unchanged_outside area)
           (unchanged_outside_refl area) (unchanged_outside_trans area)
           (fun p => area p = true))
    with (root := destination self zip_path extract_path).
  - intros; apply mkdir_step_unchanged; assumption.
  - intros; apply os_mkdir_unchanged; assumption.
  - intros; apply open_wb_unchanged; assumption.
  - intros; apply write_chunk_unchanged; assumption.
  - intros p Hp. destruct (negb (keep_zip self)).
    + apply unlink_unchanged, Hp.
    + apply preserves_ret, unchanged_outside_refl.
  - intros d x q. apply extraction_area_covers.
  - apply is_prefix_refl.
  - unfold area, extraction_area. rewrite path_eqb_refl. apply orb_true_r.
Qed.

(** X1.  Whatever the archive holds and however the run ends,
    [extract_zip] changes nothing outside the archive file, the
    destination directory with what lies below it, and the directories
    above the destination: no entry name makes it write elsewhere. *)
Theorem extract_zip_stays_in_area `{ZipCodec} :
  forall (self : Downloader) limit zip_path extract_path fs q,
  extraction_area zip_path (destination self zip_path extract_path) q = false ->
  fs_lookup (snd (extract_zip self limit zip_path extract_path fs)) q
  = fs_lookup fs q.
Proof.
  intros self limit zip_path extract_path fs q Hq.
  destruct (extract_zip self limit zip_path extract_path fs) as [r fs'] eqn:Hrun.
  exact (extract_zip_unchanged_outside self limit zip_path extract_path
           fs r fs' Hrun q Hq).
Qed.

Lemma extract_zip_stays_in_area_witness :
  fs_lookup
    (snd (@extract_zip example_codec session 5 ["downloads"; "outer.zip"] None
            fs_outer_with_notes))
    ["downloads"; "notes.txt"]
  = Some (File "n").
Proof.
  apply (@extract_zip_stays_in_area example_codec session 5%nat
           ["downloads"; "outer.zip"] None fs_outer_with_notes
           ["downloads"; "notes.txt"]).
  reflexivity.
Defined.

Lemma mkdir_steps_make_dirs target ps : forall fs fs',
  for_each ps (mkdir_step target) fs = (inr tt, fs') ->
  forall q, In q ps -> fs_stat fs' q = Some Dir.
Proof.
  induction ps as [|p ps IH]; intros fs fs' Hrun q Hq; [destruct Hq|].
  cbn [for_each] in Hrun.
  apply bind_success in Hrun as ([] & fs1 & Hstep & Hrest).
  destruct Hq as [<- | Hq]; [|eauto].
  destruct p as [|a p]; [reflexivity|].
  assert (Hp : fs_lookup fs1 (a :: p) = Some Dir).
  { unfold mkdir_step in Hstep. cbn [fs_stat] in Hstep.
    destruct (fs_lookup fs (a :: p)) as [[d|]|] eqn:Hl;
      [discriminate Hstep | |]; injection Hstep as <-; [exact Hl|].
    rewrite fs_lookup_put, path_eqb_refl. reflexivity. }
  cbn [fs_stat].
  eapply (preserves_for_each dirs_kept dirs_kept_refl dirs_kept_trans);
    [|exact Hrest | exact Hp].
  intros x _. apply mkdir_step_dirs_kept.
Qed.

Lemma prefixes_self p : p <> [] -> In p (prefixes p).
Proof.
  intros Hp. unfold prefixes. apply in_map_iff. exists (length p).
  split; [apply firstn_all|]. apply in_seq.
  destruct p; [contradiction | cbn; lia].
Qed.

Lemma mkdir_parents_makes_dir p fs fs' :
  mkdir_parents p fs = (inr tt, fs') -> fs_is_dir fs' p = true.
Proof.
  intros Hrun. unfold fs_is_dir.
  destruct p as [|a p]; [reflexivity|].
  rewrite (mkdir_steps_make_dirs _ _ _ _ Hrun (a :: p));
    [reflexivity | apply prefixes_self; discriminate].
Qed.

Lemma extract_zip_dirs `{ZipCodec} self limit zip_path extract_path :
  preserves dirs_kept (extract_zip self limit zip_path extract_path).
Proof.
  apply (extract_zip_preserves self dirs_kept dirs_kept_refl dirs_kept_trans
           (fun _ => True)) with (root := []); auto.
  - intros; apply mkdir_step_dirs_kept.
  - intros; apply os_mkdir_dirs_kept.
  - intros; apply open_wb_dirs_kept.
  - intros; apply write_chunk_dirs_kept.
  - intros p _. destruct (negb (keep_zip self)).
    + apply unlink_dirs_kept.
    + apply preserves_ret, dirs_kept_refl.
Qed.

Lemma extract_zip_success_dir `{ZipCodec} self limit zip_path extract_path
    fs r fs' :
  extract_zip self limit zip_path extract_path fs = (inr r, fs') ->
  r = destination self zip_path extract_path /\ fs_is_dir fs' r = true.
Proof.
  intros Hrun.
  apply (extract_zip_success_split self dirs_kept dirs_kept_refl dirs_kept_trans
           (fun _ => True)) with (root := []) in Hrun; auto.
  - destruct Hrun as (fs1 & Hmk & Hkept & ->). split; [reflexivity|].
    apply mkdir_parents_makes_dir in Hmk. unfold fs_is_dir in *.
    destruct (destination self zip_path extract_path) as [|a p];
      [reflexivity|].
    cbn [fs_stat] in *.
    destruct (fs_lookup fs1 (a :: p)) as [[d|]|] eqn:Hl; try discriminate Hmk.
    rewrite (Hkept _ Hl). reflexivity.
  - intros; apply mkdir_step_dirs_kept.
  - intros; apply os_mkdir_dirs_kept.
  - intros; apply open_wb_dirs_kept.
  - intros; apply write_chunk_dirs_kept.
  - intros p _. destruct (negb (keep_zip self)).
    + apply unlink_dirs_kept.
    + apply preserves_ret, dirs_kept_refl.
Qed.

(** X2.  [extract_zip] never removes a directory nor puts a file in its
    place, however it ends; and when it returns, it returns the
    destination, which is then a directory. *)
Theorem extract_zip_keeps_directories `{ZipCodec} :
  forall (self : Downloader) limit zip_path extract_path fs,
  (forall q, fs_lookup fs q = Some Dir ->
     fs_lookup (snd (extract_zip self limit zip_path extract_path fs)) q
     = Some Dir)
  /\ (forall r fs',
        extract_zip self limit zip_path extract_path fs = (inr r, fs') ->
        r = destination self zip_path extract_path
        /\ fs_is_dir fs' r = true).
Proof.
  intros self limit zip_path extract_path fs. split.
  - intros q Hq.
    destruct (extract_zip self limit zip_path extract_path fs)
      as [r fs'] eqn:Hrun.
    exact (extract_zip_dirs self limit zip_path extract_path fs r fs' Hrun q Hq).
  - intros r fs'. apply extract_zip_success_dir.
Qed.

Lemma extract_zip_keeps_directories_witness :
  fs_lookup
    (snd (@extract_zip example_codec session 5 ["downloads"; "broken.zip"] None
            fs_broken_archive))
    ["downloads"]
  = Some Dir
  /\ fs_is_dir fs_outer_extracted ["downloads"; "outer"] = true.
Proof.
  split.
  - apply (proj1 (@extract_zip_keeps_directories example_codec session 5%nat
                    ["downloads"; "broken.zip"] None fs_broken_archive)).
    reflexivity.
  - apply (proj2 (@extract_zip_keeps_directories example_codec session 5%nat
                    ["downloads"; "outer.zip"] None fs_outer_archive)
             ["downloads"; "outer"] fs_outer_extracted).
    reflexivity.
Defined.

(** X3.  With [keep_zip] set, [extract_zip] deletes nothing: every path
    that existed still exists when the run ends, normally or not. *)
Theorem extract_zip_keep_deletes_nothing `{ZipCodec} :
  forall (self : Downloader) limit zip_path extract_path fs q,
  keep_zip self = true ->
  fs_lookup fs q <> None ->
  fs_lookup (snd (extract_zip self limit zip_path extract_path fs)) q <> None.
Proof.
  intros self limit zip_path extract_path fs q Hkeep Hq.
  destruct (extract_zip self limit zip_path extract_path fs) as [r fs'] eqn:Hrun.
  cbn [snd]. revert q Hq. change (paths_kept fs fs'). revert fs r fs' Hrun.
  apply (extract_zip_preserves self paths_kept paths_kept_refl paths_kept_trans
           (fun _ => True)) with (root := []); auto.
  - intros; apply mkdir_step_paths_kept.
  - intros; apply os_mkdir_paths_kept.
  - intros; apply open_wb_paths_kept.
  - intros; apply write_chunk_paths_kept.
  - intros p _. rewrite Hkeep. apply preserves_ret, paths_kept_refl.
Qed.

Lemma extract_zip_keep_deletes_nothing_witness :
  fs_lookup
    (snd (@extract_zip example_codec session_keep 5
            ["downloads"; "outer.zip"] None fs_outer_with_notes))
    ["downloads"; "outer.zip"]
  <> None.
Proof.
  apply (@extract_zip_keep_deletes_nothing example_codec session_keep 5%nat
           ["downloads"; "outer.zip"] None fs_outer_with_notes
           ["downloads"; "outer.zip"]).
  - reflexivity.
  - discriminate.
Defined.

(** ** [extract_zip]: what the extracted files hold *)

Section FileKept.

Variable target : Path.
Variable data : string.

Lemma file_kept_refl fs : file_kept target data fs fs.
Proof. intros Hq. exact Hq. Qed.

Lemma file_kept_trans a b c :
  file_kept target data a b -> file_kept target data b c ->
  file_kept target data a c.
Proof. intros Hab Hbc Hq. apply Hbc, Hab, Hq. Qed.

Lemma put_file_kept p n fs :
  p <> target -> file_kept target data fs (fs_put p n fs).
Proof.
  intros Hp Hq. rewrite fs_lookup_put.
  destruct (path_eqb p target) eqn:E; [|exact Hq].
  apply path_eqb_eq in E. contradiction.
Qed.

Lemma put_absent_file_kept p n fs :
  fs_lookup fs p = None -> file_kept target data fs (fs_put p n fs).
Proof.
  intros Hp Hq. apply put_file_kept; [|exact Hq]. congruence.
Qed.

Lemma mkdir_step_file_kept t p :
  preserves (file_kept target data) (mkdir_step t p).
Proof.
  intros fs r fs' Hrun. unfold mkdir_step in Hrun.
  destruct (fs_stat fs p) as [[d|]|] eqn:Hp; injection Hrun as <- <-;
    try apply file_kept_refl.
  apply put_absent_file_kept, fs_stat_lookup_none, Hp.
Qed.

Lemma os_mkdir_file_kept p : preserves (file_kept target data) (os_mkdir p).
Proof.
  intros fs r fs' Hrun. unfold os_mkdir in Hrun.
  destruct (fs_stat fs p) eqn:Hp;
    [injection Hrun as <- <-; apply file_kept_refl|].
  destruct (fs_stat fs (path_parent p)) as [[d|]|]; injection Hrun as <- <-;
    try apply file_kept_refl.
  apply put_absent_file_kept, fs_stat_lookup_none, Hp.
Qed.

Lemma open_wb_file_kept p :
  p <> target -> preserves (file_kept target data) (open_wb p).
Proof.
  intros Hne fs r fs' Hrun. unfold open_wb in Hrun.
  destruct (fs_stat fs p) as [[d|]|];
    try (injection Hrun as <- <-; apply file_kept_refl);
    destruct (fs_stat fs (path_parent p)) as [[d'|]|]; injection Hrun as <- <-;
    auto using file_kept_refl, put_file_kept.
Qed.

Lemma write_chunk_file_kept p chunk :
  p <> target -> preserves (file_kept target data) (write_chunk p chunk).
Proof.
  intros Hne fs r fs' Hrun. unfold write_chunk in Hrun.
  destruct (fs_lookup fs p) as [[d|]|]; injection Hrun as <- <-;
    auto using file_kept_refl, put_file_kept.
Qed.

Lemma unlink_file_kept missing_ok p :
  p <> target -> preserves (file_kept target data) (unlink missing_ok p).
Proof.
  intros Hne fs r fs' Hrun. unfold unlink in Hrun.
  destruct (fs_stat fs p) as [[d|]|]; [| |destruct missing_ok];
    injection Hrun as <- <-; try apply file_kept_refl.
  intros Hq. rewrite fs_lookup_remove.
  destruct (path_eqb p target) eqn:E; [|exact Hq].
  apply path_eqb_eq in E. contradiction.
Qed.

Lemma zip_extract_file_kept entries member dest :
  dest ++ arcname_parts member <> target ->
  preserves (file_kept target data) (zip_extract entries member dest).
Proof.
  intros Hne. unfold zip_extract.
  destruct (getinfo entries member) as [d|];
    [|apply preserves_raise, file_kept_refl].
  cbv zeta.
  apply (preserves_bind _ file_kept_trans).
  - intros fs r fs' Hrun. cbv beta in Hrun.
    destruct (fs_exists fs (path_parent (dest ++ arcname_parts member))).
    + injection Hrun as <- <-. apply file_kept_refl.
    + revert Hrun.
      apply (preserves_for_each _ file_kept_refl file_kept_trans).
      intros q _. apply mkdir_step_file_kept.
  - intros _. destruct (endswith member "/").
    + intros fs r fs' Hrun. cbv beta in Hrun.
      destruct (fs_is_dir fs (dest ++ arcname_parts member)).
      * injection Hrun as <- <-. apply file_kept_refl.
      * eapply os_mkdir_file_kept; eauto.
    + apply (preserves_bind _ file_kept_trans);
        auto using open_wb_file_kept, write_chunk_file_kept.
Qed.

End FileKept.

Lemma for_each_app {A} (f : A -> M unit) l1 l2 fs :
  for_each (l1 ++ l2) f fs = (for_each l1 f ;;; for_each l2 f) fs.
Proof.
  revert fs. induction l1 as [|x l1 IH]; intros fs; cbn [app for_each].
  - reflexivity.
  - unfold bind. destruct (f x fs) as [[e|u] fs1]; [reflexivity|].
    rewrite IH. reflexivity.
Qed.

Lemma string_append_nil_l (s : string) : ("" ++ s)%string = s.
Proof. reflexivity. Qed.

(** A file entry that was extracted is on disk with its bytes. *)
Lemma zip_extract_writes entries member dest data fs fs' :
  getinfo entries member = Some data ->
  endswith member "/" = false ->
  zip_extract entries member dest fs = (inr tt, fs') ->
  fs_lookup fs' (dest ++ arcname_parts member) = Some (File data).
Proof.
  intros Hinfo Hfile Hrun. unfold zip_extract in Hrun.
  rewrite Hinfo, Hfile in Hrun. cbv zeta in Hrun.
  apply bind_success in Hrun as ([] & fs0 & _ & Hrun).
  apply bind_success in Hrun as ([] & fs1 & Hopen & Hwrite).
  set (target := dest ++ arcname_parts member) in *.
  assert (Hempty : fs_lookup fs1 target = Some (File "")).
  { unfold open_wb in Hopen.
    destruct (fs_stat fs0 target) as [[d|]|];
      try discriminate Hopen;
      destruct (fs_stat fs0 (path_parent target)) as [[d'|]|];
      try discriminate Hopen; injection Hopen as <-;
      rewrite fs_lookup_put, path_eqb_refl; reflexivity. }
  unfold write_chunk in Hwrite. rewrite Hempty in Hwrite.
  injection Hwrite as <-. rewrite fs_lookup_put, path_eqb_refl. reflexivity.
Qed.

(** X4.  After a successful extraction, the file an entry was extracted
    to holds the bytes of that entry, provided the entry and the ones
    listed after it are not nested archives, none of these is
    extracted to the same path, and the path is not the archive's. *)
Theorem extract_zip_writes_entry `{ZipCodec} :
  forall (self : Downloader) limit zip_path extract_path fs r fs'
         archive entries before member after data,
  fs_stat fs zip_path = Some (File archive) ->
  zip_read archive = Some entries ->
  namelist entries = before ++ member :: after ->
  getinfo entries member = Some data ->
  endswith member "/" = false ->
  (forall m, In m (member :: after) -> is_nested_zip m = false) ->
  (forall m, In m after ->
     destination self zip_path extract_path ++ arcname_parts m
     <> destination self zip_path extract_path ++ arcname_parts member) ->
  destination self zip_path extract_path ++ arcname_parts member <> zip_path ->
  extract_zip self limit zip_path extract_path fs = (inr r, fs') ->
  fs_lookup fs' (destination self zip_path extract_path ++ arcname_parts member)
  = Some (File data).
Proof.
  intros self limit zip_path extract_path fs r fs' archive entries
         before member later data
         Hzip Hread Hnames Hinfo Hfile Hflat Hdistinct Hnotzip Hrun.
  set (dest := destination self zip_path extract_path) in *.
  set (target := dest ++ arcname_parts member) in *.
  rewrite extract_zip_unfold in Hrun. unfold extract_zip_body in Hrun.
  destruct (negb (is_zipfile zip_path fs)); [discriminate Hrun|].
  fold dest in Hrun.
  apply bind_success in Hrun as ([] & fs1 & Hmk & Hrun).
  apply bind_success in Hrun as (entries' & fs1' & Hopen & Hrun).
  assert (Hentries : entries' = entries /\ fs1' = fs1).
  { unfold ZipFile in Hopen.
    rewrite (mkdir_parents_file _ _ _ _ _ _ Hmk Hzip), Hread in Hopen.
    injection Hopen as <- <-. auto. }
  destruct Hentries as [-> ->].
  apply bind_success in Hrun as ([] & fs2 & Hloop & Hrun).
  apply bind_success in Hrun as ([] & fs3 & Hclean & Hret).
  injection Hret as _ <-.
  destruct (filter (fun name => negb (_is_safe_path name)) (namelist entries));
    [|discriminate Hloop].
  rewrite Hnames, for_each_app in Hloop.
  apply bind_success in Hloop as ([] & fsa & _ & Hloop).
  cbn [for_each] in Hloop.
  apply bind_success in Hloop as ([] & fsb & Hmember & Hlater).
  assert (Hwritten : fs_lookup fsb target = Some (File data)).
  { unfold extract_member in Hmember.
    apply bind_success in Hmember as ([] & fsm & Hext & Hret).
    rewrite (Hflat member (or_introl eq_refl)) in Hret.
    cbn in Hret. injection Hret as <-.
    eapply zip_extract_writes; eauto. }
  assert (Hkept : file_kept target data fsb fs2).
  { revert Hlater.
    apply (preserves_for_each _ (file_kept_refl target data)
             (file_kept_trans target data)).
    intros m Hm. unfold extract_member.
    rewrite (Hflat m (or_intror Hm)).
    apply (preserves_bind _ (file_kept_trans target data)).
    - apply zip_extract_file_kept. apply Hdistinct, Hm.
    - intros _. apply preserves_ret, file_kept_refl. }
  assert (Hclean' : file_kept target data fs2 fs3).
  { revert Hclean. destruct (negb (keep_zip self)).
    - apply unlink_file_kept. congruence.
    - apply preserves_ret, file_kept_refl. }
  apply Hclean', Hkept, Hwritten.
Qed.

Lemma extract_zip_writes_entry_witness :
  fs_lookup fs_flat_extracted ["downloads"; "flat"; "docs"; "a.txt"]
  = Some (File "A").
Proof.
  apply (@extract_zip_writes_entry flat_codec session 5%nat
           ["downloads"; "flat.zip"] None fs_flat_archive
           ["downloads"; "flat"] fs_flat_extracted "FLAT"
           [("docs/a.txt", "A"); ("b.txt", "B")]
           [] "docs/a.txt" ["b.txt"] "A"); try reflexivity.
  - intros m [<- | [<- | []]]; reflexivity.
  - intros m [<- | []]. discriminate.
  - discriminate.
Defined.

(** X5.  When [extract_zip] returns and [keep_zip] is false, the archive
    it was called on is no longer a file. *)
Theorem extract_zip_discards_archive `{ZipCodec} :
  forall (self : Downloader) limit zip_path extract_path fs r fs',
  keep_zip self = false ->
  extract_zip self limit zip_path extract_path fs = (inr r, fs') ->
  fs_is_file fs' zip_path = false.
Proof.
  intros self limit zip_path extract_path fs r fs' Hdiscard Hrun.
  rewrite extract_zip_unfold in Hrun. unfold extract_zip_body in Hrun.
  destruct (negb (is_zipfile zip_path fs)); [discriminate Hrun|].
  apply bind_success in Hrun as ([] & fs1 & _ & Hrun).
  apply bind_success in Hrun as (entries & fs2 & _ & Hrun).
  apply bind_success in Hrun as ([] & fs3 & _ & Hrun).
  apply bind_success in Hrun as ([] & fs4 & Hclean & Hret).
  injection Hret as _ <-.
  rewrite Hdiscard in Hclean. cbn [negb] in Hclean.
  unfold unlink in Hclean. unfold fs_is_file.
  destruct (fs_stat fs3 zip_path) as [[d|]|] eqn:Hstat;
    [| discriminate Hclean |]; injection Hclean as <-.
  - assert (Hne : zip_path <> [])
      by (intros E; rewrite E in Hstat; discriminate).
    rewrite (fs_stat_remove _ _ _ Hne), path_eqb_refl. reflexivity.
  - rewrite Hstat. reflexivity.
Qed.

Lemma extract_zip_discards_archive_witness :
  fs_is_file fs_flat_extracted ["downloads"; "flat.zip"] = false.
Proof.
  apply (@extract_zip_discards_archive flat_codec session 5%nat
           ["downloads"; "flat.zip"] None fs_flat_archive
           ["downloads"; "flat"] fs_flat_extracted); reflexivity.
Defined.

(** X6.  For an entry name that [_is_safe_path] accepts, the path the
    loop computes with [extract_path / member], where it looks for a
    nested archive, is the path [zipfile] extracts the entry to, and it
    is the destination or lies below it. *)
Theorem safe_entry_path_agrees :
  forall (dest : Path) (member : string),
  _is_safe_path member = true ->
  joinpath dest member = dest ++ arcname_parts member
  /\ is_prefix dest (joinpath dest member) = true.
Proof.
  intros dest member Hsafe.
  rewrite (safe_joinpath dest member Hsafe).
  split; [reflexivity | apply is_prefix_self_app].
Qed.

Lemma safe_entry_path_agrees_witness :
  joinpath ["downloads"; "data"] "docs/./a.txt"
  = ["downloads"; "data"] ++ arcname_parts "docs/./a.txt".
Proof.
  apply (safe_entry_path_agrees ["downloads"; "data"] "docs/./a.txt").
  reflexivity.
Defined.

(** An entry name that is not safe: the two paths differ. *)
Example unsafe_entry_paths_differ :
  joinpath ["downloads"; "data"] "../x" = ["downloads"; "data"; ".."; "x"]
  /\ ["downloads"; "data"] ++ arcname_parts "../x" = ["downloads"; "data"; "x"].
Proof. split; reflexivity. Qed.

(** ** [extract_zip]: nested archives *)

Lemma endswith_slash_lower s :
  endswith s "/" = true -> endswith (lower s) "/" = true.
Proof.
  induction s as [|c s IH]; [discriminate|].
  cbn [endswith lower]. intros Hs. apply orb_prop in Hs as [Hs | Hs].
  - apply String.eqb_eq in Hs. injection Hs as -> ->. reflexivity.
  - rewrite (IH Hs). apply orb_true_r.
Qed.

Lemma endswith_slash_not_zip s :
  endswith s "/" = true -> endswith s ".zip" = false.
Proof.
  induction s as [|c s IH]; [discriminate|].
  cbn [endswith]. intros Hs. apply orb_prop in Hs as [Hs | Hs].
  - apply String.eqb_eq in Hs. injection Hs as -> ->. reflexivity.
  - rewrite (IH Hs), orb_false_r.
    destruct (String.eqb_spec (String c s) ".zip") as [E|]; [|reflexivity].
    injection E as -> ->. discriminate Hs.
Qed.

(** An entry taken for a nested archive is a file entry. *)
Lemma nested_zip_is_file member :
  is_nested_zip member = true -> endswith member "/" = false.
Proof.
  unfold is_nested_zip. intros Hzip.
  destruct (endswith member "/") eqn:Hdir; [|reflexivity].
  rewrite (endswith_slash_not_zip _ (endswith_slash_lower _ Hdir)) in Hzip.
  discriminate Hzip.
Qed.

(** What [regular_nested] says of the entries of the archive it is
    about. *)
Lemma regular_nested_members `{ZipCodec} limit data entries member :
  regular_nested limit data = true ->
  zip_read data = Some entries ->
  In member (namelist entries) ->
  entry_name_regular member = true
  /\ (is_nested_zip member = true ->
      forall nested, getinfo entries member = Some nested ->
        match limit with
        | O => true
        | S l => regular_nested l nested
        end = true).
Proof.
  intros Hreg Hread Hin.
  destruct limit as [|l]; cbn [regular_nested] in Hreg; rewrite Hread in Hreg;
    rewrite forallb_forall in Hreg; specialize (Hreg member Hin);
    apply andb_prop in Hreg as [Hname Hnested];
    (split; [exact Hname|]); intros Hzip nested Hinfo; [reflexivity|].
  rewrite Hzip, Hinfo in Hnested. exact Hnested.
Qed.

Section NestedRegular.

Context `{ZipCodec}.
Variable self : Downloader.
Variable root : Path.
Hypothesis discard : keep_zip self = false.

Lemma only_zips_extract_member regular recur entries dest member aside fs fs' :
  recur_leaves_no_zip root regular recur ->
  is_prefix root dest = true ->
  _is_safe_path member = true ->
  entry_name_regular member = true ->
  (is_nested_zip member = true ->
   forall nested, getinfo entries member = Some nested ->
                  regular nested = true) ->
  only_zips root aside fs ->
  extract_member self recur entries dest member fs = (inr tt, fs') ->
  only_zips root aside fs'.
Proof.
  intros Hrec Hroot Hsafe Hreg Hinner Hinv Hrun.
  unfold extract_member in Hrun. unfold bind at 1 in Hrun.
  destruct (zip_extract entries member dest fs) as [[e|[]] fs1] eqn:Hext;
    [discriminate Hrun|].
  destruct (is_nested_zip member) eqn:Hnested.
  - rewrite (safe_joinpath dest member Hsafe) in Hrun.
    set (nested_path := dest ++ arcname_parts member) in *.
    assert (Hinv1 : only_zips root (nested_path :: aside) fs1).
    { eapply only_zips_zip_extract; [exact Hext | left; reflexivity |].
      eapply only_zips_weaken; [exact Hinv | apply incl_tl, incl_refl]. }
    assert (Hdata : forall data, fs_stat fs1 nested_path = Some (File data) ->
                                 regular data = true).
    { intros data Hstat.
      destruct (getinfo entries member) as [nested|] eqn:Hinfo.
      - pose proof (zip_extract_writes entries member dest nested fs fs1
                      Hinfo (nested_zip_is_file member Hnested) Hext) as Hw.
        fold nested_path in Hw.
        assert (Hne : nested_path <> [])
          by (intros E; rewrite E in Hstat; discriminate Hstat).
        rewrite (fs_stat_nonempty _ _ Hne), Hw in Hstat.
        injection Hstat as <-. apply Hinner; reflexivity.
      - unfold zip_extract in Hext. rewrite Hinfo in Hext.
        discriminate Hext. }
    unfold try_finally, bind in Hrun. rewrite discard in Hrun.
    cbn [negb] in Hrun.
    destruct (recur nested_path _ fs1) as [[e|p] fs2] eqn:Hrecur.
    + destruct (unlink true nested_path fs2) as [[e'|[]] fs3];
        discriminate Hrun.
    + cbn [ret] in Hrun.
      destruct (unlink true nested_path fs2) as [[e'|[]] fs3] eqn:Hunlink;
        [discriminate Hrun|].
      injection Hrun as <-.
      assert (Hinv2 : only_zips root aside fs2).
      { eapply Hrec; [| exact Hdata | exact Hinv1 | exact Hrecur].
        apply nested_destination_below, Hroot. }
      eapply only_zips_unlink; [exact Hunlink|].
      eapply only_zips_weaken; [exact Hinv2 | apply incl_tl, incl_refl].
  - injection Hrun as <-.
    eapply only_zips_zip_extract; [exact Hext | | exact Hinv].
    intros Hfile _ Hname. exfalso.
    unfold entry_name_regular in Hreg. rewrite Hfile in Hreg. cbn [orb] in Hreg.
    destruct (rev (arcname_parts member)) as [|file_name rest] eqn:Hrev;
      [discriminate Hreg|].
    rewrite (path_name_target dest member file_name rest Hrev) in Hname.
    rewrite Hname, Hnested in Hreg. discriminate Hreg.
Qed.

Lemma only_zips_extract_members regular recur entries dest aside :
  recur_leaves_no_zip root regular recur ->
  is_prefix root dest = true ->
  forall members fs fs',
  (forall member, In member members ->
     _is_safe_path member = true
     /\ entry_name_regular member = true
     /\ (is_nested_zip member = true ->
         forall nested, getinfo entries member = Some nested ->
                        regular nested = true)) ->
  only_zips root aside fs ->
  for_each members (extract_member self recur entries dest) fs = (inr tt, fs') ->
  only_zips root aside fs'.
Proof.
  intros Hrec Hroot. induction members as [|m members IH];
    intros fs fs' Hnames Hinv Hrun.
  - cbn in Hrun. injection Hrun as <-. exact Hinv.
  - cbn [for_each] in Hrun. unfold bind in Hrun.
    destruct (extract_member self recur entries dest m fs)
      as [[e|[]] fs1] eqn:Hm; [discriminate Hrun|].
    destruct (Hnames m (or_introl eq_refl)) as (Hsafe & Hreg & Hinner).
    eapply IH; [| |exact Hrun].
    + intros m' Hm'. apply Hnames. right. exact Hm'.
    + eapply only_zips_extract_member; eauto.
Qed.

(** One call of [extract_zip], given what its recursive calls do: only
    the archive it reads has to have regular entry names, and its
    nested archives have to be [regular]. *)
Lemma only_zips_extract_zip_body regular recur zip_path extract_path aside
    fs r fs' :
  recur_leaves_no_zip root regular recur ->
  is_prefix root (destination self zip_path extract_path) = true ->
  (forall data entries member,
     fs_stat fs zip_path = Some (File data) ->
     zip_read data = Some entries ->
     In member (namelist entries) ->
     entry_name_regular member = true
     /\ (is_nested_zip member = true ->
         forall nested, getinfo entries member = Some nested ->
                        regular nested = true)) ->
  only_zips root (zip_path :: aside) fs ->
  extract_zip_body self recur zip_path extract_path fs = (inr r, fs') ->
  only_zips root aside fs' /\ fs_is_file fs' zip_path = false.
Proof.
  intros Hrec Hroot Hreg Hinv Hrun. unfold extract_zip_body in Hrun.
  unfold is_zipfile in Hrun.
  destruct (fs_stat fs zip_path) as [[data|]|] eqn:Hstat;
    try discriminate Hrun.
  destruct (is_zipfile_data data); [|discriminate Hrun]. cbn [negb] in Hrun.
  set (dest := destination self zip_path extract_path) in *.
  unfold bind at 1 in Hrun.
  destruct (mkdir_parents dest fs) as [[e|[]] fs1] eqn:Hmk; [discriminate Hrun|].
  assert (Hinv1 : only_zips root (zip_path :: aside) fs1)
    by (eapply only_zips_mkdir_steps; eauto).
  pose proof (mkdir_parents_file dest fs _ fs1 zip_path data Hmk Hstat)
    as Hstat1.
  unfold bind at 1 in Hrun. unfold ZipFile at 1 in Hrun.
  rewrite Hstat1 in Hrun.
  destruct (zip_read data) as [entries|] eqn:Hread; [|discriminate Hrun].
  unfold bind at 1 in Hrun.
  destruct (filter (fun name => negb (_is_safe_path name)) (namelist entries))
    as [|u us] eqn:Hfilter; [|discriminate Hrun].
  destruct (for_each (namelist entries)
              (extract_member self recur entries dest) fs1)
    as [[e|[]] fs2] eqn:Hloop; [discriminate Hrun|].
  assert (Hinv2 : only_zips root (zip_path :: aside) fs2).
  { eapply only_zips_extract_members; [exact Hrec | exact Hroot | |
                                        exact Hinv1 | exact Hloop].
    intros member Hmember. split.
    - destruct (_is_safe_path member) eqn:Hsafe; [reflexivity|].
      assert (Hin : In member (filter (fun name => negb (_is_safe_path name))
                                      (namelist entries)))
        by (apply filter_In; rewrite Hsafe; auto).
      rewrite Hfilter in Hin. destruct Hin.
    - exact (Hreg data entries member eq_refl Hread Hmember). }
  rewrite discard in Hrun. cbn [negb] in Hrun. unfold bind in Hrun.
  destruct (unlink true zip_path fs2) as [[e|[]] fs3] eqn:Hunlink;
    [discriminate Hrun|].
  cbn [ret] in Hrun. injection Hrun as <- <-.
  exact (only_zips_unlink root aside zip_path fs2 fs3 Hunlink Hinv2).
Qed.

(** What the recursive calls of [extract_zip] at [limit] are, and what
    they need of the nested archives. *)
Lemma only_zips_recursive_calls : forall limit,
  recur_leaves_no_zip root
    (fun nested => match limit with
                   | O => true
                   | S l => regular_nested l nested
                   end)
    (match limit with
     | O => fun _ _ => raise RecursionError
     | S l => extract_zip self l
     end).
Proof.
  induction limit as [|limit IH];
    intros nested_path dest fs r fs' aside Hroot Hdata Hinv Hrun;
    [discriminate Hrun|].
  rewrite extract_zip_unfold in Hrun.
  eapply only_zips_extract_zip_body in Hrun; [apply Hrun | exact IH | | |].
  - exact Hroot.
  - intros data entries member Hstat Hread Hin.
    exact (regular_nested_members limit data entries member
             (Hdata data Hstat) Hread Hin).
  - exact Hinv.
Qed.

(** A successful extraction with [keep_zip] false leaves no regular
    file with a [.zip] name below its destination, provided there was
    none but the archive itself and the archives it extracts have
    regular entry names; and the archive is gone. *)
Lemma extract_zip_leaves_no_zip limit zip_path extract_path fs r fs' :
  root = destination self zip_path extract_path ->
  regular_archive_at limit zip_path fs = true ->
  zip_free root [zip_path] fs = true ->
  extract_zip self limit zip_path extract_path fs = (inr r, fs') ->
  fs_is_file fs' zip_path = false
  /\ forall q d, is_below root q = true ->
                 fs_lookup fs' q = Some (File d) ->
                 is_nested_zip (path_name q) = false.
Proof.
  intros Hroot Hreg Hfree Hrun. rewrite extract_zip_unfold in Hrun.
  apply zip_free_only_zips in Hfree.
  eapply only_zips_extract_zip_body with (aside := []) in Hrun
    as (Hinv & Hgone).
  - split; [exact Hgone|]. intros q d Hb Hq.
    destruct (is_nested_zip (path_name q)) eqn:Hz; [|reflexivity].
    destruct (Hinv q d (fs_lookup_In _ _ _ Hq) Hb Hz).
  - apply only_zips_recursive_calls.
  - rewrite Hroot. apply is_prefix_refl.
  - intros data entries member Hstat Hread Hin.
    unfold regular_archive_at in Hreg. rewrite Hstat in Hreg.
    exact (regular_nested_members limit data entries member Hreg Hread Hin).
  - exact Hfree.
Qed.

End NestedRegular.

(** C9, as the code has it.  For an extracted entry whose name ends in
    [.zip], whatever the case of the letters, the loop body calls
    [extract_zip] on the extracted file, with the directory named after
    its stem as destination, and when that call has ended, normally or
    by an exception, the file is unlinked unless [keep_zip] is set; an
    exception of the nested call still ends the loop body with an
    exception.  So a successful extraction with [keep_zip] false leaves
    no file with a [.zip] name below the destination, and the archive
    itself is gone, provided that no file below the destination but the
    archive had such a name before, and that the entry names of the
    archive extracted, and of the nested archives extracted from it
    down to the recursion limit, are regular.  Nothing is asked of
    archives that are not extracted. *)
Theorem nested_archives_unlinked `{ZipCodec} : forall self : Downloader,
  (forall recur entries dest member fs fs1 r fs2,
     is_nested_zip member = true ->
     zip_extract entries member dest fs = (inr tt, fs1) ->
     recur (joinpath dest member)
           (Some (joinpath dest (path_stem (path_of_string member)))) fs1
     = (r, fs2) ->
     exists r' fs3,
       extract_member self recur entries dest member fs = (r', fs3)
       /\ (keep_zip self = false ->
           fs_is_file fs3 (joinpath dest member) = false)
       /\ (keep_zip self = true -> fs3 = fs2)
       /\ (forall q, q <> joinpath dest member ->
                     fs_lookup fs3 q = fs_lookup fs2 q)
       /\ (forall e, r = inl e -> exists e', r' = inl e')
       /\ (r' = inr tt -> exists p, r = inr p))
  /\ (forall limit zip_path extract_path fs r fs',
        keep_zip self = false ->
        regular_archive_at limit zip_path fs = true ->
        zip_free (destination self zip_path extract_path) [zip_path] fs = true ->
        extract_zip self limit zip_path extract_path fs = (inr r, fs') ->
        fs_is_file fs' zip_path = false
        /\ forall q d,
             is_below (destination self zip_path extract_path) q = true ->
             fs_lookup fs' q = Some (File d) ->
             is_nested_zip (path_name q) = false).
Proof.
  intros self. split.
  - intros recur entries dest member fs fs1 r fs2.
    apply extract_member_nested.
  - intros limit zip_path extract_path fs r fs' Hdiscard Hregular Hfree Hrun.
    eapply extract_zip_leaves_no_zip; eauto.
Qed.

(** The codec of this run also reads the archive [ODD], whose entry
    name is not regular; it is not extracted here. *)
Lemma nested_archives_unlinked_witness :
  @regular_nested mixed_codec 5 "ODD" = false
  /\ @extract_zip mixed_codec session 5 ["downloads"; "outer.zip"] None
       fs_outer_archive
     = (inr ["downloads"; "outer"], fs_outer_extracted)
  /\ fs_is_file fs_outer_extracted ["downloads"; "outer.zip"] = false
  /\ forall q d, is_below ["downloads"; "outer"] q = true ->
                 fs_lookup fs_outer_extracted q = Some (File d) ->
                 is_nested_zip (path_name q) = false.
Proof.
  split; [reflexivity|]. split; [reflexivity|].
  apply (proj2 (@nested_archives_unlinked mixed_codec session)
           5%nat ["downloads"; "outer.zip"] None fs_outer_archive
           ["downloads"; "outer"] fs_outer_extracted);
    reflexivity.
Defined.

(** C9 as stated fails when a nested attempt fails: the nested file is
    unlinked, but the exception leaves [extract_zip] before the archive
    it was called on is unlinked, and that archive stays. *)
Lemma nested_failure_leaves_archive :
  keep_zip session = false
  /\ @extract_zip example_codec session 5 ["downloads"; "broken.zip"] None
       fs_broken_archive
     = (inl (ValueError_unsafe ["../escape.txt"]), fs_broken_left)
  /\ fs_is_file fs_broken_left ["downloads"; "broken"; "inner.zip"] = false
  /\ fs_is_file fs_broken_left ["downloads"; "broken.zip"] = true
  /\ is_nested_zip (path_name ["downloads"; "broken.zip"]) = true.
Proof. repeat split. Qed.

(** Why the entry names have to be regular: the entry [a.zip/.] is
    safe, is extracted to the file [a.zip], and is not taken for a
    nested archive, so the file stays after a successful run. *)
Example irregular_entry_name_leaves_zip :
  entry_name_regular "a.zip/." = false
  /\ @regular_archive_at odd_codec 5 ["downloads"; "odd.zip"] fs_odd_archive
     = false
  /\ @extract_zip odd_codec session 5 ["downloads"; "odd.zip"] None
       fs_odd_archive
     = (inr ["downloads"; "odd"],
        [(["downloads"], Dir); (["downloads"; "odd"], Dir);
         (["downloads"; "odd"; "a.zip"], File "INNER")]).
Proof. repeat split. Qed.

(** ** [download_file]: further properties *)

Lemma try_finally_raise {A} (body : M A) (e : exn) fs :
  try_finally body (raise e) fs = (inl e, snd (body fs)).
Proof. unfold try_finally, raise. destruct (body fs). reflexivity. Qed.

Lemma not_requests_exception e :
  is_requests_RequestException e = false ->
  is_requests_ConnectionError e = false /\ is_requests_Timeout e = false.
Proof. destruct e; cbn; intros; try discriminate; auto. Qed.

Section DownloadFileMore.

Context `{UrlLib} `{HttpClient} `{Console}.
Variable self : Downloader.

(** An exception in the middle of the body that is not one of
    [requests]: no [except] clause takes it, and the partial file
    stays. *)
Lemma download_file_other_error url filename chunk_size fs name r chunks e :
  resolve_filename url filename = inr name ->
  fs_exists fs (joinpath (save_dir self) name) = false ->
  fs_is_dir fs (path_parent (joinpath (save_dir self) name)) = true ->
  requests_get url = inr r ->
  raise_for_status r = None ->
  (match content_length r with Some n => n | None => 0 end <= one_GiB)%Z ->
  iter_content r chunk_size = (chunks, Some e) ->
  is_requests_RequestException e = false ->
  exists fs',
    download_file self url filename chunk_size fs = (inl e, fs')
    /\ fs_lookup fs' (joinpath (save_dir self) name)
       = Some (File (String.concat "" chunks))
    /\ forall q, q <> joinpath (save_dir self) name ->
                 fs_lookup fs' q = fs_lookup fs q.
Proof.
  intros Hname Hfree Hdir Hget Hstatus Hsmall Hiter Hreq.
  destruct (not_requests_exception e Hreq) as [Hconn Htime].
  set (file_path := joinpath (save_dir self) name) in *.
  unfold download_file. rewrite Hname. fold file_path. rewrite Hfree.
  unfold download_try. rewrite Hget, Hstatus.
  apply Z.ltb_ge in Hsmall. rewrite Hsmall.
  unfold open_wb. unfold fs_exists in Hfree. unfold fs_is_dir in Hdir.
  destruct (fs_stat fs file_path) eqn:Hstat; [discriminate Hfree|].
  destruct (fs_stat fs (path_parent file_path)) as [[|]|]; try discriminate.
  rewrite Hiter.
  destruct (write_chunks_ok file_path chunks
              (fs_put file_path (File "") fs) "") as (fs1 & Hrun & Hp & Hfr).
  { rewrite fs_lookup_put, path_eqb_refl. reflexivity. }
  rewrite Hrun. exists fs1. split; [|split].
  - unfold try_finally, download_except. rewrite Hconn, Htime, Hreq.
    reflexivity.
  - exact Hp.
  - intros q Hq. rewrite (Hfr q Hq), fs_lookup_put.
    destruct (path_eqb file_path q) eqn:E; [|reflexivity].
    apply path_eqb_eq in E. congruence.
Qed.

(** Past the size gate the [finally] clause always raises. *)
Lemma download_file_large url filename chunk_size fs name r n :
  resolve_filename url filename = inr name ->
  fs_exists fs (joinpath (save_dir self) name) = false ->
  requests_get url = inr r ->
  raise_for_status r = None ->
  content_length r = Some n ->
  (one_GiB < n)%Z ->
  fst (download_file self url filename chunk_size fs)
  = inl (AttributeError "close").
Proof.
  intros Hname Hfree Hget Hstatus Hlen Hbig. unfold download_file.
  rewrite Hname, Hfree. unfold download_try.
  rewrite Hget, Hstatus, Hlen.
  apply Z.ltb_lt in Hbig. rewrite Hbig.
  destruct (negb _).
  - unfold close_response. rewrite try_finally_raise. reflexivity.
  - destruct (open_wb _ fs) as [[e|u] fs1];
      unfold close_response; rewrite try_finally_raise; reflexivity.
Qed.

(** A 4xx or 5xx answer. *)
Lemma download_file_http_error url filename chunk_size fs name r :
  resolve_filename url filename = inr name ->
  fs_exists fs (joinpath (save_dir self) name) = false ->
  requests_get url = inr r ->
  (400 <= status_code r < 600)%Z ->
  download_file self url filename chunk_size fs
  = (inl (Exception_download_failed requests_HTTPError), fs).
Proof.
  intros Hname Hfree Hget [Hlo Hhi]. unfold download_file.
  rewrite Hname, Hfree. unfold download_try. rewrite Hget.
  unfold raise_for_status.
  apply Z.leb_le in Hlo. apply Z.ltb_lt in Hhi. rewrite Hlo, Hhi. cbn [andb].
  unfold try_finally, download_except. cbn.
  unfold bind, unlink_if_exists. rewrite Hfree. reflexivity.
Qed.

(** Only the destination path is ever touched. *)
Lemma download_try_unchanged url file_path chunk_size fs :
  unchanged_outside (path_eqb file_path) fs
    (snd (download_try url file_path chunk_size fs)).
Proof.
  set (area := path_eqb file_path).
  assert (Harea : area file_path = true) by apply path_eqb_refl.
  unfold download_try.
  destruct (requests_get url) as [e|r]; [apply unchanged_outside_refl|].
  destruct (raise_for_status r); [apply unchanged_outside_refl|].
  destruct (if (one_GiB <? _)%Z then _ else _) as [response cancelled].
  destruct cancelled; [apply unchanged_outside_refl|].
  destruct (open_wb file_path fs) as [[e|u] fs1] eqn:Hopen.
  - exact (open_wb_unchanged area file_path Harea _ _ _ Hopen).
  - pose proof (open_wb_unchanged area file_path Harea _ _ _ Hopen) as Hopened.
    destruct response as [|r'|s]; try exact Hopened.
    destruct (iter_content r' chunk_size) as [chunks err].
    destruct (for_each chunks (write_chunk file_path) fs1)
      as [[e|u'] fs2] eqn:Hloop; cbn [snd];
      (eapply unchanged_outside_trans; [exact Hopened|]);
      (revert Hloop;
       apply (preserves_for_each _ (unchanged_outside_refl area)
                (unchanged_outside_trans area));
       intros chunk _; apply write_chunk_unchanged, Harea).
Qed.

Lemma download_file_unchanged url filename chunk_size fs name :
  resolve_filename url filename = inr name ->
  unchanged_outside (path_eqb (joinpath (save_dir self) name)) fs
    (snd (download_file self url filename chunk_size fs)).
Proof.
  intros Hname. unfold download_file. rewrite Hname.
  set (file_path := joinpath (save_dir self) name).
  set (area := path_eqb file_path).
  assert (Harea : area file_path = true) by apply path_eqb_refl.
  destruct (fs_exists fs file_path); [apply unchanged_outside_refl|].
  pose proof (download_try_unchanged url file_path chunk_size fs) as Htry.
  destruct (download_try url file_path chunk_size fs)
    as [[raised response] fs1]. cbn [snd] in Htry.
  eapply unchanged_outside_trans; [exact Htry|].
  destruct (try_finally _ _ fs1) as [res fs2] eqn:Hrun. cbn [snd].
  revert Hrun.
  assert (Hunlink : preserves (unchanged_outside area)
                      (unlink_if_exists file_path)).
  { intros fs0 r0 fs0' Hrun. unfold unlink_if_exists in Hrun.
    destruct (fs_exists fs0 file_path).
    - exact (unlink_unchanged area false file_path Harea _ _ _ Hrun).
    - injection Hrun as <- <-. apply unchanged_outside_refl. }
  apply (preserves_try_finally _ (unchanged_outside_trans area)).
  - destruct raised as [e|];
      [|apply preserves_ret, unchanged_outside_refl].
    unfold download_except.
    destruct (is_requests_ConnectionError e);
      [|destruct (is_requests_Timeout e);
        [|destruct (is_requests_RequestException e)]];
      try (apply (preserves_bind _ (unchanged_outside_trans area));
           [exact Hunlink|intros _]);
      apply preserves_raise, unchanged_outside_refl.
  - destruct response; cbn [close_response];
      first [apply preserves_ret | apply preserves_raise];
      apply unchanged_outside_refl.
Qed.

End DownloadFileMore.

(** X7.  When the transport delivers the whole body, [download_file]
    returns the destination path, the file there holds the chunks in
    the order they came, one after the other, and no other path has
    changed. *)
Theorem download_file_writes_body `{UrlLib} `{HttpClient} `{Console} :
  forall (self : Downloader) url filename chunk_size fs name r chunks,
  resolve_filename url filename = inr name ->
  fs_exists fs (joinpath (save_dir self) name) = false ->
  fs_is_dir fs (path_parent (joinpath (save_dir self) name)) = true ->
  requests_get url = inr r ->
  raise_for_status r = None ->
  (match content_length r with Some n => n | None => 0 end <= one_GiB)%Z ->
  iter_content r chunk_size = (chunks, None) ->
  exists fs',
    download_file self url filename chunk_size fs
    = (inr (joinpath (save_dir self) name), fs')
    /\ fs_lookup fs' (joinpath (save_dir self) name)
       = Some (File (String.concat "" chunks))
    /\ forall q, q <> joinpath (save_dir self) name ->
                 fs_lookup fs' q = fs_lookup fs q.
Proof. intros self. apply download_file_succeeds. Qed.

Lemma download_file_writes_body_witness :
  exists fs',
    @download_file example_urllib server_small (operator "y") session
      data_url (Some "copy.bin") 8192 fs_empty_session
    = (inr ["downloads"; "copy.bin"], fs')
    /\ fs_lookup fs' ["downloads"; "copy.bin"] = Some (File "PK34")
    /\ forall q, q <> ["downloads"; "copy.bin"] ->
                 fs_lookup fs' q = fs_lookup fs_empty_session q.
Proof.
  apply (@download_file_writes_body example_urllib server_small
           (operator "y") session data_url (Some "copy.bin") 8192%Z
           fs_empty_session "copy.bin" (ok_response (Some 4%Z) ["PK"; "34"])
           ["PK"; "34"]); try reflexivity; now vm_compute.
Defined.

(** X8.  When the body breaks off with an exception of [requests], the
    caller gets [ConnectionError], [TimeoutError] or the wrapped
    failure, by the class of the exception and in that order of
    precedence; the partial file is unlinked and no other path has
    changed. *)
Theorem download_file_broken_body `{UrlLib} `{HttpClient} `{Console} :
  forall (self : Downloader) url filename chunk_size fs name r chunks e,
  resolve_filename url filename = inr name ->
  fs_exists fs (joinpath (save_dir self) name) = false ->
  fs_is_dir fs (path_parent (joinpath (save_dir self) name)) = true ->
  requests_get url = inr r ->
  raise_for_status r = None ->
  (match content_length r with Some n => n | None => 0 end <= one_GiB)%Z ->
  iter_content r chunk_size = (chunks, Some e) ->
  is_requests_RequestException e = true ->
  exists fs',
    download_file self url filename chunk_size fs
    = (inl (if is_requests_ConnectionError e then ConnectionError url
            else if is_requests_Timeout e then TimeoutError url
            else Exception_download_failed e), fs')
    /\ fs_exists fs' (joinpath (save_dir self) name) = false
    /\ forall q, q <> joinpath (save_dir self) name ->
                 fs_lookup fs' q = fs_lookup fs q.
Proof. intros self. apply download_file_stream_error. Qed.

Lemma download_file_broken_body_witness :
  exists fs',
    @download_file example_urllib server_dropped (operator "y") session
      data_url None 8192 fs_empty_session
    = (inl (ConnectionError data_url), fs')
    /\ fs_exists fs' ["downloads"; "data.zip"] = false
    /\ forall q, q <> ["downloads"; "data.zip"] ->
                 fs_lookup fs' q = fs_lookup fs_empty_session q.
Proof.
  apply (@download_file_broken_body example_urllib server_dropped
           (operator "y") session data_url None 8192%Z
           fs_empty_session "data.zip" (dropped_response ["ab"; "cd"])
           ["ab"; "cd"] requests_ConnectionError);
    try reflexivity; now vm_compute.
Defined.

(** X9.  When the body breaks off with an exception that is not one of
    [requests], no [except] clause takes it: the exception reaches the
    caller as it is, and the partial file stays on disk with the
    chunks written so far. *)
Theorem download_file_foreign_exception `{UrlLib} `{HttpClient} `{Console} :
  forall (self : Downloader) url filename chunk_size fs name r chunks e,
  resolve_filename url filename = inr name ->
  fs_exists fs (joinpath (save_dir self) name) = false ->
  fs_is_dir fs (path_parent (joinpath (save_dir self) name)) = true ->
  requests_get url = inr r ->
  raise_for_status r = None ->
  (match content_length r with Some n => n | None => 0 end <= one_GiB)%Z ->
  iter_content r chunk_size = (chunks, Some e) ->
  is_requests_RequestException e = false ->
  exists fs',
    download_file self url filename chunk_size fs = (inl e, fs')
    /\ fs_lookup fs' (joinpath (save_dir self) name)
       = Some (File (String.concat "" chunks))
    /\ forall q, q <> joinpath (save_dir self) name ->
                 fs_lookup fs' q = fs_lookup fs q.
Proof. intros self. apply download_file_other_error. Qed.

Lemma download_file_foreign_exception_witness :
  exists fs',
    @download_file example_urllib server_crashing (operator "y") session
      data_url None 8192 fs_empty_session
    = (inl BrokenPipeError, fs')
    /\ fs_lookup fs' ["downloads"; "data.zip"] = Some (File "abcd")
    /\ forall q, q <> ["downloads"; "data.zip"] ->
                 fs_lookup fs' q = fs_lookup fs_empty_session q.
Proof.
  apply (@download_file_foreign_exception example_urllib server_crashing
           (operator "y") session data_url None 8192%Z
           fs_empty_session "data.zip"
           {| status_code := 200;
              content_length := None;
              iter_content :=
                fun _ => (["ab"; "cd"], Some BrokenPipeError) |}
           ["ab"; "cd"] BrokenPipeError);
    try reflexivity; now vm_compute.
Defined.

(** X10.  No download of a body announced above 1 GiB succeeds, whatever
    the operator answers: [response] then holds the answer, and the
    [finally] clause ends every such call in [AttributeError].  The
    announced size is below [float_limit], so that the prompt, which
    prints it with [_humanize_size], can be made: from that bound on
    [float] raises and the operator is never asked. *)
Theorem download_file_never_above_one_GiB `{UrlLib} `{HttpClient} `{Console} :
  forall (self : Downloader) url filename chunk_size fs name r n,
  resolve_filename url filename = inr name ->
  fs_exists fs (joinpath (save_dir self) name) = false ->
  requests_get url = inr r ->
  raise_for_status r = None ->
  content_length r = Some n ->
  (one_GiB < n < float_limit)%Z ->
  fst (download_file self url filename chunk_size fs)
  = inl (AttributeError "close").
Proof.
  intros self url filename chunk_size fs name r n
         Hname Hfree Hget Hstatus Hlen [Hbig _].
  now apply (download_file_large self url filename chunk_size fs name r n).
Qed.

Lemma download_file_never_above_one_GiB_witness :
  fst (@download_file example_urllib server_big (operator "y") session
         big_url None 8192 fs_empty_session)
  = inl (AttributeError "close").
Proof.
  apply (@download_file_never_above_one_GiB example_urllib server_big
           (operator "y") session big_url None 8192%Z fs_empty_session
           "big.iso" big_response 2147483648%Z);
    try reflexivity; now vm_compute.
Defined.

(** X11.  An answer with a status from 400 to 599 ends the call in the
    wrapped failure whose cause is the HTTP error; nothing is written. *)
Theorem download_file_http_error_status `{UrlLib} `{HttpClient} `{Console} :
  forall (self : Downloader) url filename chunk_size fs name r,
  resolve_filename url filename = inr name ->
  fs_exists fs (joinpath (save_dir self) name) = false ->
  requests_get url = inr r ->
  (400 <= status_code r < 600)%Z ->
  download_file self url filename chunk_size fs
  = (inl (Exception_download_failed requests_HTTPError), fs).
Proof. intros self. apply download_file_http_error. Qed.

Lemma download_file_http_error_status_witness :
  @download_file example_urllib server_not_found (operator "y") session
    data_url None 8192 fs_empty_session
  = (inl (Exception_download_failed requests_HTTPError), fs_empty_session).
Proof.
  apply (@download_file_http_error_status example_urllib server_not_found
           (operator "y") session data_url None 8192%Z fs_empty_session
           "data.zip" not_found_response); try reflexivity.
  split; now vm_compute.
Defined.

(** X12.  However a call of [download_file] ends, it has changed no path
    but its destination. *)
Theorem download_file_touches_only_destination
    `{UrlLib} `{HttpClient} `{Console} :
  forall (self : Downloader) url filename chunk_size fs name q,
  resolve_filename url filename = inr name ->
  q <> joinpath (save_dir self) name ->
  fs_lookup (snd (download_file self url filename chunk_size fs)) q
  = fs_lookup fs q.
Proof.
  intros self url filename chunk_size fs name q Hname Hq.
  apply (download_file_unchanged self url filename chunk_size fs name Hname).
  apply path_eqb_neq. congruence.
Qed.

Lemma download_file_touches_only_destination_witness :
  fs_lookup
    (snd (@download_file example_urllib server_crashing (operator "y") session
            data_url None 8192 fs_outer_with_notes))
    ["downloads"; "notes.txt"]
  = Some (File "n").
Proof.
  apply (@download_file_touches_only_destination example_urllib
           server_crashing (operator "y") session data_url None 8192%Z
           fs_outer_with_notes "data.zip" ["downloads"; "notes.txt"]).
  - reflexivity.
  - discriminate.
Defined.

(** ** [download_and_extract]: where the rollback works *)

Lemma fs_lookup_rmtree p fs q :
  fs_lookup (fs_rmtree_entries p fs) q =
  if is_prefix p q then None else fs_lookup fs q.
Proof.
  unfold fs_rmtree_entries. induction fs as [|[r n] fs IH]; cbn.
  - destruct (is_prefix p q); reflexivity.
  - destruct (is_prefix p r) eqn:Hr; cbn.
    + rewrite IH. destruct (is_prefix p q) eqn:Hq; [reflexivity|].
      destruct (path_eqb r q) eqn:E; [|reflexivity].
      apply path_eqb_eq in E. congruence.
    + rewrite IH. destruct (path_eqb r q) eqn:E; [|reflexivity].
      apply path_eqb_eq in E. subst r. rewrite Hr. reflexivity.
Qed.

(** X13.  When what was downloaded is no ZIP archive,
    [download_and_extract] raises the wrapped failure whose cause is
    the invalid-archive error, and the rollback is complete: every
    path holds what it held before the call. *)
Theorem download_and_extract_not_an_archive
    `{UrlLib} `{HttpClient} `{Console} `{ZipCodec} :
  forall (self : Downloader) limit url extract_path fs name r chunks,
  resolve_filename url None = inr name ->
  fs_exists fs (joinpath (save_dir self) name) = false ->
  fs_is_dir fs (path_parent (joinpath (save_dir self) name)) = true ->
  requests_get url = inr r ->
  raise_for_status r = None ->
  (match content_length r with Some n => n | None => 0 end <= one_GiB)%Z ->
  iter_content r 8192 = (chunks, None) ->
  is_zipfile_data (String.concat "" chunks) = false ->
  exists fs',
    download_and_extract self limit url extract_path fs
    = (inl (Exception_download_and_extract
              (ValueError_not_zip (joinpath (save_dir self) name))), fs')
    /\ forall q, fs_lookup fs' q = fs_lookup fs q.
Proof.
  intros self limit url extract_path fs name r chunks
         Hname Hfree Hdir Hget Hstatus Hsmall Hiter Hnozip.
  destruct (download_file_succeeds self url None 8192%Z fs name r chunks
              Hname Hfree Hdir Hget Hstatus Hsmall Hiter)
    as (fs1 & Hdl & Hfile & Hframe).
  set (zip_path := joinpath (save_dir self) name) in *.
  assert (Hne : zip_path <> []) by (eapply fs_exists_false_nonempty; eauto).
  assert (Hstat : fs_stat fs1 zip_path = Some (File (String.concat "" chunks)))
    by (rewrite (fs_stat_nonempty _ _ Hne); exact Hfile).
  exists (fs_remove zip_path fs1). split.
  - unfold download_and_extract, download_and_extract_try. rewrite Hdl.
    rewrite extract_zip_unfold. unfold extract_zip_body, is_zipfile.
    rewrite Hstat, Hnozip. cbn [negb].
    unfold download_and_extract_except. cbn [zip_path_local extract_dir_local].
    unfold bind, unlink. rewrite Hstat. reflexivity.
  - intros q. rewrite fs_lookup_remove.
    destruct (path_eqb zip_path q) eqn:E.
    + apply path_eqb_eq in E. subst q. unfold fs_exists in Hfree.
      rewrite (fs_stat_nonempty _ _ Hne) in Hfree.
      destruct (fs_lookup fs zip_path); [discriminate | reflexivity].
    + apply Hframe. apply path_eqb_neq in E. congruence.
Qed.

Lemma download_and_extract_not_an_archive_witness :
  exists fs',
    @download_and_extract example_urllib server_text (operator "y")
      example_codec session 5 data_url None fs_outer_with_notes
    = (inl (Exception_download_and_extract
              (ValueError_not_zip ["downloads"; "data.zip"])), fs')
    /\ forall q, fs_lookup fs' q = fs_lookup fs_outer_with_notes q.
Proof.
  apply (@download_and_extract_not_an_archive example_urllib server_text
           (operator "y") example_codec session 5%nat data_url None
           fs_outer_with_notes "data.zip"
           (ok_response (Some 5%Z) ["he"; "llo"]) ["he"; "llo"]);
    try reflexivity; now vm_compute.
Defined.

(** X14.  When the archive was downloaded and extracted and printing the
    manifest then fails, the rollback removes the extraction directory
    with all it holds, and unlinks the archive if it is still there,
    whatever [keep_zip] says; the caller gets the wrapped failure, and
    the other paths are as the extraction left them. *)
Theorem download_and_extract_print_failure
    `{UrlLib} `{HttpClient} `{Console} `{ZipCodec} :
  forall (self : Downloader) limit url extract_path fs
         zip_path fs1 extract_dir fs2 e,
  download_file self url None 8192 fs = (inr zip_path, fs1) ->
  extract_zip self limit zip_path extract_path fs1 = (inr extract_dir, fs2) ->
  print_lines (_format_extracted_files extract_dir
                 (rglob_all extract_dir fs2) fs2) = Some e ->
  fs_is_dir fs2 zip_path = false ->
  exists fs',
    download_and_extract self limit url extract_path fs
    = (inl (Exception_download_and_extract e), fs')
    /\ (forall q, is_prefix extract_dir q = true -> fs_lookup fs' q = None)
    /\ fs_is_file fs' zip_path = false
    /\ (forall q, is_prefix extract_dir q = false -> q <> zip_path ->
                  fs_lookup fs' q = fs_lookup fs2 q).
Proof.
  intros self limit url extract_path fs zip_path fs1 extract_dir fs2 e
         Hdl Hext Hprint Hnd.
  destruct (extract_zip_success_dir self limit zip_path extract_path
              fs1 extract_dir fs2 Hext) as [_ Hdir].
  assert (Hstep : exists fs3,
             unlink true zip_path fs2 = (inr tt, fs3)
             /\ fs_is_file fs3 zip_path = false
             /\ (forall q, q <> zip_path -> fs_lookup fs3 q = fs_lookup fs2 q)
             /\ fs_is_dir fs3 extract_dir = true).
  { unfold unlink, fs_is_dir in *.
    destruct (fs_stat fs2 zip_path) as [[d|]|] eqn:Hstat;
      [| discriminate Hnd |].
    - assert (Hne : zip_path <> [])
        by (intros E; rewrite E in Hstat; discriminate).
      eexists. split; [reflexivity|]. split; [|split].
      + unfold fs_is_file.
        rewrite (fs_stat_remove _ _ _ Hne), path_eqb_refl. reflexivity.
      + intros q Hq. rewrite fs_lookup_remove.
        destruct (path_eqb zip_path q) eqn:E; [|reflexivity].
        apply path_eqb_eq in E. congruence.
      + rewrite (fs_stat_remove _ _ _ Hne).
        destruct (path_eqb zip_path extract_dir) eqn:E; [|exact Hdir].
        apply path_eqb_eq in E. subst extract_dir.
        rewrite Hstat in Hdir. discriminate Hdir.
    - eexists. split; [reflexivity|]. split; [|split].
      + unfold fs_is_file. rewrite Hstat. reflexivity.
      + reflexivity.
      + exact Hdir. }
  destruct Hstep as (fs3 & Hunlink & Hgone & Hframe & Hdir3).
  exists (fs_rmtree_entries extract_dir fs3). split; [|split; [|split]].
  - unfold download_and_extract, download_and_extract_try.
    rewrite Hdl, Hext, Hprint.
    unfold download_and_extract_except. cbn [zip_path_local extract_dir_local].
    unfold bind. rewrite Hunlink. unfold rmtree_ignore_errors.
    unfold fs_is_dir in Hdir3.
    destruct (fs_stat fs3 extract_dir) as [[d|]|]; try discriminate Hdir3.
    reflexivity.
  - intros q Hq. rewrite fs_lookup_rmtree, Hq. reflexivity.
  - unfold fs_is_file in *. destruct zip_path as [|a p]; [reflexivity|].
    cbn [fs_stat] in *. rewrite fs_lookup_rmtree.
    destruct (is_prefix extract_dir (a :: p)); [reflexivity | exact Hgone].
  - intros q Hq Hne. rewrite fs_lookup_rmtree, Hq. apply Hframe, Hne.
Qed.

Lemma download_and_extract_print_failure_witness :
  exists fs',
    @download_and_extract example_urllib server_outer closed_console
      example_codec session_keep 5 data_url None fs_empty_session
    = (inl (Exception_download_and_extract BrokenPipeError), fs')
    /\ (forall q, is_prefix ["downloads"; "data"] q = true ->
                  fs_lookup fs' q = None)
    /\ fs_is_file fs' ["downloads"; "data.zip"] = false
    /\ (forall q, is_prefix ["downloads"; "data"] q = false ->
                  q <> ["downloads"; "data.zip"] ->
                  fs_lookup fs' q = fs_lookup fs_data_extracted_keep q).
Proof.
  apply (@download_and_extract_print_failure example_urllib server_outer
           closed_console example_codec session_keep 5%nat data_url None
           fs_empty_session ["downloads"; "data.zip"] fs_outer_downloaded
           ["downloads"; "data"] fs_data_extracted_keep BrokenPipeError);
    reflexivity.
Defined.

(** ** [Downloader.__init__] *)

Lemma mkdir_steps_idle target ps fs :
  (forall q, In q ps -> fs_stat fs q = Some Dir) ->
  for_each ps (mkdir_step target) fs = (inr tt, fs).
Proof.
  induction ps as [|p ps IH]; intros Hps; [reflexivity|].
  cbn [for_each]. unfold bind, mkdir_step at 1.
  rewrite (Hps p (or_introl eq_refl)). apply IH.
  intros q Hq. apply Hps. right. exact Hq.
Qed.

Lemma mkdir_parents_idempotent p fs fs' :
  mkdir_parents p fs = (inr tt, fs') -> mkdir_parents p fs' = (inr tt, fs').
Proof.
  intros Hrun. apply mkdir_steps_idle.
  intros q Hq. eapply mkdir_steps_make_dirs; eauto.
Qed.

Lemma prefixes_snoc p :
  p <> [] ->
  prefixes p
  = map (fun k => firstn k p) (seq 1 (length p - 1)) ++ [p].
Proof.
  intros Hp. unfold prefixes.
  destruct (length p) as [|n] eqn:Hlen.
  - destruct p; [contradiction | discriminate Hlen].
  - rewrite seq_S, map_app. cbn [map].
    replace (S n - 1) with n by lia.
    replace (1 + n) with (length p) by lia.
    rewrite firstn_all. reflexivity.
Qed.

Lemma firstn_shorter_neq : forall k (p : Path),
  k < length p -> firstn k p <> p.
Proof.
  intros k p Hk Heq. apply (f_equal (@length string)) in Heq.
  rewrite length_firstn in Heq. lia.
Qed.

(** A regular file where the directory should be. *)
Lemma mkdir_parents_blocked p data fs :
  fs_stat fs p = Some (File data) ->
  (forall q, is_prefix q p = true -> q <> p -> fs_stat fs q = Some Dir) ->
  mkdir_parents p fs = (inl (FileExistsError p), fs).
Proof.
  intros Hfile Habove.
  assert (Hne : p <> []) by (intros ->; discriminate Hfile).
  unfold mkdir_parents. rewrite (prefixes_snoc p Hne), for_each_app.
  unfold bind at 1. rewrite mkdir_steps_idle.
  - cbn [for_each]. unfold bind, mkdir_step. rewrite Hfile, path_eqb_refl.
    reflexivity.
  - intros q Hq. apply in_map_iff in Hq as (k & <- & Hk).
    apply in_seq in Hk. apply Habove.
    + apply is_prefix_firstn.
    + apply firstn_shorter_neq. lia.
Qed.

(** X15.  A [Downloader] that was constructed has the attributes it was
    given, and its session directory is a directory.  The construction
    only added directories, on the way to the session directory, at
    paths that did not exist: what existed holds what it held. *)
Theorem Downloader_new_makes_directory :
  forall os_access_w save_dir_arg keep_zip_arg fs self fs',
  Downloader_new os_access_w save_dir_arg keep_zip_arg fs = (inr self, fs') ->
  save_dir self = save_dir_arg
  /\ keep_zip self = keep_zip_arg
  /\ fs_is_dir fs' save_dir_arg = true
  /\ forall q,
       fs_lookup fs' q = fs_lookup fs q
       \/ (fs_lookup fs q = None /\ fs_lookup fs' q = Some Dir
           /\ is_prefix q save_dir_arg = true).
Proof.
  intros w sd kz fs self fs' Hrun. unfold Downloader_new in Hrun.
  destruct (mkdir_parents sd fs) as [[e|[]] fs1] eqn:Hmk; [discriminate Hrun|].
  destruct (w fs1 sd); [|discriminate Hrun].
  injection Hrun as <- <-. cbn [save_dir keep_zip].
  split; [reflexivity|]. split; [reflexivity|].
  split; [eapply mkdir_parents_makes_dir; eauto|].
  intros q. destruct (mkdir_parents_frame _ _ _ _ Hmk q) as [Heq | Hnew];
    [left; exact Heq | right; tauto].
Qed.

Lemma Downloader_new_makes_directory_witness :
  fs_is_dir [(["var"], Dir); (["var"; "cache"], Dir);
             (["var"; "cache"; "dl"], Dir)]
            ["var"; "cache"; "dl"] = true.
Proof.
  apply (Downloader_new_makes_directory (fun _ _ => true)
           ["var"; "cache"; "dl"] false [(["var"], Dir)]
           {| save_dir := ["var"; "cache"; "dl"]; keep_zip := false |}
           [(["var"], Dir); (["var"; "cache"], Dir);
            (["var"; "cache"; "dl"], Dir)]).
  reflexivity.
Defined.

(** X16.  Constructing a [Downloader] on a session directory that an
    earlier construction made changes nothing, and a construction that
    fails the writability test has made the directory all the same. *)
Theorem Downloader_new_again :
  forall os_access_w save_dir_arg keep_zip_arg fs fs1,
  mkdir_parents save_dir_arg fs = (inr tt, fs1) ->
  mkdir_parents save_dir_arg fs1 = (inr tt, fs1)
  /\ Downloader_new os_access_w save_dir_arg keep_zip_arg fs1
     = (if os_access_w fs1 save_dir_arg
        then inr {| save_dir := save_dir_arg; keep_zip := keep_zip_arg |}
        else inl (PermissionError save_dir_arg), fs1)
  /\ (os_access_w fs1 save_dir_arg = false ->
      Downloader_new os_access_w save_dir_arg keep_zip_arg fs
      = (inl (PermissionError save_dir_arg), fs1)
      /\ fs_is_dir fs1 save_dir_arg = true).
Proof.
  intros w sd kz fs fs1 Hmk.
  pose proof (mkdir_parents_idempotent sd fs fs1 Hmk) as Hagain.
  split; [exact Hagain|]. split.
  - unfold Downloader_new. rewrite Hagain.
    destruct (w fs1 sd); reflexivity.
  - intros Hw. split.
    + unfold Downloader_new. rewrite Hmk, Hw. reflexivity.
    + eapply mkdir_parents_makes_dir; eauto.
Qed.

Lemma Downloader_new_again_witness :
  Downloader_new (fun _ _ => false) ["downloads"] true []
  = (inl (PermissionError ["downloads"]), fs_empty_session).
Proof.
  apply (Downloader_new_again (fun _ _ => false) ["downloads"] true
           [] fs_empty_session); reflexivity.
Defined.

(** X17.  When a regular file is where the session directory should be,
    below directories, the construction fails with the
    [FileExistsError] of [mkdir] and changes nothing. *)
Theorem Downloader_new_blocked :
  forall os_access_w save_dir_arg keep_zip_arg fs data,
  fs_stat fs save_dir_arg = Some (File data) ->
  (forall q, is_prefix q save_dir_arg = true -> q <> save_dir_arg ->
             fs_stat fs q = Some Dir) ->
  Downloader_new os_access_w save_dir_arg keep_zip_arg fs
  = (inl (MkdirError (FileExistsError save_dir_arg)), fs).
Proof.
  intros w sd kz fs data Hfile Habove. unfold Downloader_new.
  rewrite (mkdir_parents_blocked sd data fs Hfile Habove). reflexivity.
Qed.

Lemma Downloader_new_blocked_witness :
  Downloader_new (fun _ _ => true) ["downloads"] false fs_blocked_session
  = (inl (MkdirError (FileExistsError ["downloads"])), fs_blocked_session).
Proof.
  apply (Downloader_new_blocked (fun _ _ => true) ["downloads"] false
           fs_blocked_session "in the way").
  - reflexivity.
  - intros [|a [|b q]] Hq Hne; try reflexivity.
    + cbn in Hq. apply andb_prop in Hq as [Ha _].
      apply String.eqb_eq in Ha. subst a. contradiction.
    + cbn in Hq. rewrite andb_false_r in Hq. discriminate.
Defined.

(** ** [get_filename_from_url] *)

Lemma split_slash_trailing : forall s,
  endswith s "/" = true ->
  2 <= length (split_slash s) /\ last (split_slash s) "" = "".
Proof.
  induction s as [|c s IH]; intros Hs; [discriminate Hs|].
  cbn [endswith] in Hs. apply orb_prop in Hs as [Hs | Hs].
  - apply String.eqb_eq in Hs. injection Hs as -> ->.
    cbn. split; [lia | reflexivity].
  - destruct (IH Hs) as [Hlen Hlast]. cbn [split_slash].
    destruct (Ascii.eqb c "/").
    + split; [cbn [length]; lia|].
      destruct (split_slash s); [cbn in Hlen; lia | exact Hlast].
    + destruct (split_slash s) as [|h [|x t]]; cbn [length] in *; try lia.
      split; [lia | exact Hlast].
Qed.

Lemma basename_trailing_slash path :
  path = "" \/ endswith path "/" = true -> basename path = "".
Proof.
  intros [-> | Hs]; [reflexivity|]. apply split_slash_trailing, Hs.
Qed.

(** X18.  A file name that [get_filename_from_url] returns is never
    empty, and for a URL whose path is empty or ends in a slash it is
    the default name (percent-decoding leaves the empty string
    empty). *)
Theorem get_filename_from_url_default `{UrlLib} :
  forall url,
  (forall name, get_filename_from_url url = inr name -> name <> "")
  /\ (forall path,
        urlparse_path url = Some path ->
        path = "" \/ endswith path "/" = true ->
        unquote "" = "" ->
        get_filename_from_url url = inr "downloaded_file.zip").
Proof.
  intros url. split.
  - intros name Hname. unfold get_filename_from_url in Hname.
    destruct (urlparse_path url) as [path|]; [|discriminate Hname].
    destruct (String.eqb_spec (unquote (basename path)) "");
      injection Hname as <-; [discriminate | assumption].
  - intros path Hpath Hslash Hunquote. unfold get_filename_from_url.
    rewrite Hpath, (basename_trailing_slash path Hslash), Hunquote.
    reflexivity.
Qed.

Lemma get_filename_from_url_default_witness :
  @get_filename_from_url example_urllib "https://example.com/"
  = inr "downloaded_file.zip".
Proof.
  apply (proj2 (@get_filename_from_url_default example_urllib
                  "https://example.com/") "/"); try reflexivity.
  right. reflexivity.
Defined.

(** ** The [with] statement *)

Lemma exit_unlinks_matches self fs :
  keep_zip self = false ->
  (forall q, glob_match (save_dir self) q = true ->
             fs_lookup fs q <> Some Dir) ->
  exists fs',
    __exit__ self fs = (inr tt, fs')
    /\ forall q, fs_lookup fs' q
                 = if glob_match (save_dir self) q then None
                   else fs_lookup fs q.
Proof.
  intros Hdiscard Hnodir. unfold __exit__. rewrite Hdiscard. cbn [negb].
  destruct (unlink_all (glob_zip (save_dir self) fs) fs) as (fs' & Hrun & Hfs').
  { intros p Hp. apply glob_zip_In in Hp as [Hm _]. split; [|auto].
    intros ->. unfold glob_match in Hm. cbn in Hm.
    rewrite andb_false_r in Hm. discriminate. }
  exists fs'. split; [exact Hrun|]. intros q. rewrite Hfs'.
  destruct (existsb (path_eqb q) (glob_zip (save_dir self) fs)) eqn:Hex.
  - apply existsb_exists in Hex as (p & Hp & Hqp).
    apply path_eqb_eq in Hqp. subst p.
    apply glob_zip_In in Hp as [-> _]. reflexivity.
  - destruct (glob_match (save_dir self) q) eqn:Hm; [|reflexivity].
    destruct (fs_lookup fs q) as [n|] eqn:Hq; [|reflexivity].
    apply fs_lookup_In in Hq.
    assert (Hin : In q (glob_zip (save_dir self) fs))
      by (apply glob_zip_In; eauto).
    assert (Htrue : existsb (path_eqb q) (glob_zip (save_dir self) fs) = true)
      by (apply existsb_exists; exists q; split;
          [exact Hin | apply path_eqb_refl]).
    congruence.
Qed.

(** X19.  A file downloaded in a [with] block under a name matching
    [*.zip], into the session directory, does not outlive the block
    when [keep_zip] is false: the block returns its path, and
    [__exit__] has unlinked it, with every other matching file of the
    session directory. *)
Theorem with_session_discards_download `{UrlLib} `{HttpClient} `{Console} :
  forall (self : Downloader) url filename chunk_size fs name r chunks,
  keep_zip self = false ->
  resolve_filename url filename = inr name ->
  glob_match (save_dir self) (joinpath (save_dir self) name) = true ->
  fs_exists fs (joinpath (save_dir self) name) = false ->
  fs_is_dir fs (path_parent (joinpath (save_dir self) name)) = true ->
  (forall q, glob_match (save_dir self) q = true -> fs_lookup fs q <> Some Dir) ->
  requests_get url = inr r ->
  raise_for_status r = None ->
  (match content_length r with Some n => n | None => 0 end <= one_GiB)%Z ->
  iter_content r chunk_size = (chunks, None) ->
  exists fs',
    with_session self (download_file self url filename chunk_size) fs
    = (inr (joinpath (save_dir self) name), fs')
    /\ fs_exists fs' (joinpath (save_dir self) name) = false
    /\ forall q, fs_lookup fs' q
                 = if glob_match (save_dir self) q then None
                   else fs_lookup fs q.
Proof.
  intros self url filename chunk_size fs name r chunks Hdiscard Hname Hmatch
         Hfree Hdir Hnodir Hget Hstatus Hsmall Hiter.
  destruct (download_file_succeeds self url filename chunk_size fs name r
              chunks Hname Hfree Hdir Hget Hstatus Hsmall Hiter)
    as (fs1 & Hdl & Hfile & Hframe).
  set (file_path := joinpath (save_dir self) name) in *.
  assert (Hne : file_path <> []) by (eapply fs_exists_false_nonempty; eauto).
  destruct (exit_unlinks_matches self fs1 Hdiscard) as (fs' & Hexit & Hfs').
  { intros q Hq. destruct (list_eq_dec string_dec q file_path) as [-> | Hneq].
    - rewrite Hfile. discriminate.
    - rewrite (Hframe q Hneq). apply Hnodir, Hq. }
  exists fs'. split; [|split].
  - unfold with_session, try_finally. rewrite Hdl, Hexit. reflexivity.
  - unfold fs_exists. rewrite (fs_stat_nonempty _ _ Hne), Hfs', Hmatch.
    reflexivity.
  - intros q. rewrite Hfs'.
    destruct (glob_match (save_dir self) q) eqn:Hq; [reflexivity|].
    apply Hframe. intros ->. congruence.
Qed.

Lemma with_session_discards_download_witness :
  exists fs',
    @with_session Path session
      (@download_file example_urllib server_small (operator "y") session
         data_url None 8192)
      fs_outer_with_notes
    = (inr ["downloads"; "data.zip"], fs')
    /\ fs_exists fs' ["downloads"; "data.zip"] = false
    /\ forall q, fs_lookup fs' q
                 = if glob_match ["downloads"] q then None
                   else fs_lookup fs_outer_with_notes q.
Proof.
  apply (@with_session_discards_download example_urllib server_small
           (operator "y") session data_url None 8192%Z fs_outer_with_notes
           "data.zip" (ok_response (Some 4%Z) ["PK"; "34"]) ["PK"; "34"]);
    try reflexivity; try (now vm_compute).
  intros q Hm Hq. apply fs_lookup_In in Hq. cbn in Hq.
  repeat (destruct Hq as [Hq | Hq];
          [injection Hq as <-; try discriminate; vm_compute in Hm;
           discriminate|]).
  exact Hq.
Defined.

(** ** The manifest and [list_contents] *)

Lemma insert_path_perm p l : Permutation (insert_path p l) (p :: l).
Proof.
  induction l as [|q l IH]; cbn [insert_path]; [reflexivity|].
  destruct (path_leb p q); [reflexivity|].
  rewrite IH. apply perm_swap.
Qed.

Lemma sorted_perm l : Permutation (sorted l) l.
Proof.
  induction l as [|p l IH]; cbn; [reflexivity|].
  fold (sorted l). rewrite insert_path_perm, IH. reflexivity.
Qed.

Lemma is_prefix_split : forall base q,
  is_prefix base q = true -> exists rel, q = base ++ rel.
Proof.
  induction base as [|a base IH]; intros q Hq; [exists q; reflexivity|].
  destruct q as [|b q]; [discriminate Hq|]. cbn in Hq.
  apply andb_prop in Hq as [Hab Hq]. apply String.eqb_eq in Hab. subst b.
  destruct (IH q Hq) as (rel & ->). exists rel. reflexivity.
Qed.

Lemma relative_to_app base rel : relative_to (base ++ rel) base = Some rel.
Proof.
  induction base as [|a base IH]; [destruct rel; reflexivity|].
  cbn. rewrite String.eqb_refl. exact IH.
Qed.

Lemma is_below_split base q :
  is_below base q = true <-> exists rel, rel <> [] /\ q = base ++ rel.
Proof.
  unfold is_below. split.
  - intros Hq. apply andb_prop in Hq as [Hpre Hne].
    destruct (is_prefix_split base q Hpre) as (rel & ->).
    exists rel. split; [|reflexivity]. intros ->.
    rewrite app_nil_r, path_eqb_refl in Hne. discriminate.
  - intros (rel & Hrel & ->). rewrite is_prefix_self_app. cbn [andb].
    apply negb_true_iff, path_eqb_neq. intros Heq.
    apply Hrel. apply (app_inv_head base). rewrite app_nil_r. auto.
Qed.

Lemma rglob_all_In dir fs q :
  In q (rglob_all dir fs) <-> is_below dir q = true /\ exists n, In (q, n) fs.
Proof.
  unfold rglob_all. rewrite in_map_iff. split.
  - intros ([q' n] & <- & Hin). apply filter_In in Hin as [Hin Hb]. eauto.
  - intros (Hb & n & Hin). exists (q, n). split; [reflexivity|].
    apply filter_In. auto.
Qed.

(** X20.  The manifest made from the walk of a directory has one line
    for each regular file below the directory and no other line: the
    line gives the path of the file relative to the directory and its
    size as [_humanize_size] prints it.  Directories give no line. *)
Theorem manifest_lists_regular_files :
  forall (dir : Path) (fs : FS) (line : string),
  In line (_format_extracted_files dir (rglob_all dir fs) fs) <->
  exists rel data,
    rel <> []
    /\ fs_lookup fs (dir ++ rel) = Some (File data)
    /\ line = (path_str rel ++ " (" ++ _humanize_size (st_size data) ++ ")")%string.
Proof.
  intros dir fs line. unfold _format_extracted_files. rewrite in_flat_map.
  split.
  - intros (q & Hq & Hline).
    apply (Permutation_in _ (sorted_perm _)) in Hq.
    apply rglob_all_In in Hq as [Hb _].
    apply is_below_split in Hb as (rel & Hrel & ->).
    assert (Hne : dir ++ rel <> [])
      by (intros E; apply app_eq_nil in E as [_ E]; auto).
    rewrite (fs_stat_nonempty _ _ Hne), relative_to_app in Hline.
    destruct (fs_lookup fs (dir ++ rel)) as [[data|]|] eqn:Hl;
      [|destruct Hline|destruct Hline].
    destruct Hline as [<- | []]. exists rel, data. auto.
  - intros (rel & data & Hrel & Hl & ->). exists (dir ++ rel).
    assert (Hne : dir ++ rel <> [])
      by (intros E; apply app_eq_nil in E as [_ E]; auto).
    split.
    + apply (Permutation_in _ (Permutation_sym (sorted_perm _))).
      apply rglob_all_In. split.
      * apply is_below_split. eauto.
      * exists (File data). apply fs_lookup_In, Hl.
    + rewrite (fs_stat_nonempty _ _ Hne), Hl, relative_to_app.
      left. reflexivity.
Qed.

(** X21.  [list_contents] of a path that does not exist prints one line
    saying so.  Of a directory it prints a header and then the lines
    of the manifest of that directory, in the order of the walk
    instead of sorted. *)
Theorem list_contents_prints_manifest :
  forall (self : Downloader) directory fs,
  (fs_exists fs (dir_to_list self directory) = false ->
   list_contents self directory fs
   = [("Directory does not exist: "
       ++ path_str (dir_to_list self directory))%string])
  /\ (fs_is_dir fs (dir_to_list self directory) = true ->
      exists header body,
        list_contents self directory fs = header :: body
        /\ Permutation body
             (_format_extracted_files (dir_to_list self directory)
                (rglob_all (dir_to_list self directory) fs) fs)).
Proof.
  intros self directory fs. unfold list_contents.
  set (dir := dir_to_list self directory). split.
  - intros ->. reflexivity.
  - intros Hdir.
    assert (Hex : fs_exists fs dir = true).
    { unfold fs_exists, fs_is_dir in *. destruct (fs_stat fs dir) as [[d|]|];
        try discriminate Hdir; reflexivity. }
    rewrite Hex, Hdir. cbn [negb]. eexists. eexists. split; [reflexivity|].
    unfold _format_extracted_files.
    apply Permutation_flat_map, Permutation_sym, sorted_perm.
Qed.

Lemma list_contents_prints_manifest_witness :
  list_contents session (Some (PathStr "missing")) fs_empty_session
  = ["Directory does not exist: missing"].
Proof.
  apply (proj1 (list_contents_prints_manifest session
                  (Some (PathStr "missing")) fs_empty_session)).
  reflexivity.
Defined.

Example list_contents_of_session :
  list_contents session (Some (PathStr "")) fs_flat_extracted
  = [(newline ++ "Contents of downloads:")%string;
     "flat/docs/a.txt (1.0B)"; "flat/b.txt (1.0B)"].
Proof. reflexivity. Qed.

(** ** [_humanize_size]: the unit *)

Lemma Qltb_1024 x d :
  Qltb (Qmake x d) (inject_Z 1024) = (x <? 1024 * Zpos d)%Z.
Proof.
  unfold Qltb, Qle_bool, inject_Z. cbn [Qnum Qden].
  rewrite Z.mul_1_r. symmetry. apply Z.ltb_antisym.
Qed.

Lemma Qdiv_1024 x d :
  (Qmake x d / inject_Z 1024)%Q = Qmake (x * 1) (d * 1024).
Proof. reflexivity. Qed.

Lemma humanize_units_pick size : forall units x d,
  humanize_units size (Qmake x d) units
  = (format_1f size ++ pick_unit x (Zpos d) units)%string.
Proof.
  induction units as [|u units IH]; intros x d; cbn [humanize_units pick_unit].
  - reflexivity.
  - rewrite Qltb_1024. destruct (x <? 1024 * Zpos d)%Z; [reflexivity|].
    rewrite Qdiv_1024, IH, Z.mul_1_r. reflexivity.
Qed.

(** Below [2 ^ 53] the conversion to [float] is exact, and from there
    on the result is at least [2 ^ 53]. *)
Lemma float_of_int_small n :
  (0 <= n < 2 ^ 53)%Z -> float_of_int n = n.
Proof.
  intros [Hlo Hhi]. unfold float_of_int.
  rewrite (Z.abs_eq n Hlo).
  assert (Hlog : (Z.log2 n < 53)%Z).
  { destruct (Z.eq_dec n 0) as [-> | Hn]; [cbn; lia|].
    apply Z.log2_lt_pow2; lia. }
  destruct (Z.leb_spec (Z.log2 n - 52) 0); [reflexivity | lia].
Qed.

Lemma float_of_int_large n :
  (2 ^ 53 <= n)%Z -> (2 ^ 53 <= float_of_int n)%Z.
Proof.
  intros Hn. unfold float_of_int.
  assert (Hpos : (0 < n)%Z) by lia.
  rewrite (Z.abs_eq n) by lia.
  destruct (Z.leb_spec (Z.log2 n - 52) 0) as [He | He]; [exact Hn|].
  set (e := (Z.log2 n - 52)%Z) in *.
  rewrite (Z.sgn_pos n Hpos), Z.mul_1_l.
  assert (Hq : (2 ^ 52 <= Z.shiftr n e)%Z).
  { rewrite Z.shiftr_div_pow2 by lia.
    apply Z.div_le_lower_bound; [apply Z.pow_pos_nonneg; lia|].
    rewrite <- Z.pow_add_r by lia.
    replace (e + 52)%Z with (Z.log2 n) by (unfold e; lia).
    apply Z.log2_spec, Hpos. }
  set (q := Z.shiftr n e) in *.
  assert (Hq' : (q <= (if (Z.shiftl 1 (e - 1) <? n - Z.shiftl q e)%Z
                           || ((n - Z.shiftl q e =? Z.shiftl 1 (e - 1))%Z
                               && Z.odd q)
                        then q + 1 else q))%Z)
    by (match goal with
        | |- context [if ?b then _ else _] => destruct b
        end; lia).
  match goal with
  | |- context [if ?b then (q + 1)%Z else q] =>
      set (q' := if b then (q + 1)%Z else q) in *
  end.
  rewrite Z.shiftl_mul_pow2 by lia.
  assert (He2 : (2 <= 2 ^ e)%Z).
  { change 2%Z with (2 ^ 1)%Z at 1. apply Z.pow_le_mono_r; lia. }
  change (2 ^ 53)%Z with (2 ^ 52 * 2)%Z. nia.
Qed.

Lemma float_of_int_threshold n t :
  (0 <= n)%Z -> (t <= 2 ^ 53)%Z ->
  (float_of_int n <? t)%Z = (n <? t)%Z.
Proof.
  intros Hn Ht. destruct (Z.lt_ge_cases n (2 ^ 53)) as [Hsmall | Hlarge].
  - rewrite float_of_int_small by lia. reflexivity.
  - pose proof (float_of_int_large n Hlarge).
    destruct (Z.ltb_spec (float_of_int n) t), (Z.ltb_spec n t);
      try reflexivity; lia.
Qed.

(** Below [float_limit] the conversion stays within the doubles. *)
Lemma float_of_int_in_range n :
  (0 <= n < float_limit)%Z -> (0 <= float_of_int n <= float_max)%Z.
Proof.
  intros [Hlo Hhi]. unfold float_of_int.
  rewrite (Z.abs_eq n Hlo).
  assert (Hmax : (2 ^ 53 <= float_max)%Z) by (now vm_compute).
  destruct (Z.leb_spec (Z.log2 n - 52) 0) as [He | He].
  - split; [exact Hlo|].
    destruct (Z.eq_dec n 0) as [-> | Hn]; [lia|].
    assert (n < 2 ^ 53)%Z by (apply Z.log2_lt_pow2; lia). lia.
  - assert (Hpos : (0 < n)%Z).
    { destruct (Z.eq_dec n 0) as [-> | Hn]; [cbn in He; lia | lia]. }
    set (e := (Z.log2 n - 52)%Z) in *.
    rewrite (Z.sgn_pos n Hpos), Z.mul_1_l.
    assert (He' : (e <= 971)%Z).
    { assert (Z.log2 n < 1024)%Z; [|unfold e; lia].
      apply Z.log2_lt_pow2; [exact Hpos|].
      unfold float_limit in Hhi.
      assert (0 < 2 ^ 970)%Z by (apply Z.pow_pos_nonneg; lia). lia. }
    pose proof (Z.log2_spec n Hpos) as [Hl Hu].
    replace (Z.log2 n) with (e + 52)%Z in Hl by (unfold e; lia).
    replace (Z.succ (Z.log2 n)) with (e + 53)%Z in Hu by (unfold e; lia).
    rewrite Z.pow_add_r in Hl, Hu by lia.
    assert (Hp : (0 < 2 ^ e)%Z) by (apply Z.pow_pos_nonneg; lia).
    set (q := Z.shiftr n e) in *.
    assert (Hq : (q = n / 2 ^ e)%Z) by (unfold q; apply Z.shiftr_div_pow2; lia).
    pose proof (Z.div_mod n (2 ^ e) ltac:(lia)) as Hdm.
    pose proof (Z.mod_pos_bound n (2 ^ e) Hp) as Hmod.
    rewrite <- Hq in Hdm.
    rewrite !Z.shiftl_mul_pow2 by lia. rewrite Z.mul_1_l.
    assert (Hr : (n - q * 2 ^ e = n mod 2 ^ e)%Z) by lia.
    rewrite Hr. set (r := (n mod 2 ^ e)%Z) in *.
    assert (Hq1 : (2 ^ 52 <= q < 2 ^ 53)%Z) by nia.
    assert (Hhalf : (2 * 2 ^ (e - 1) = 2 ^ e)%Z).
    { rewrite <- Z.pow_succ_r by lia. f_equal. lia. }
    destruct (Z.eq_dec e 971) as [E | E].
    + rewrite E in *. 
      change (971 - 1)%Z with 970%Z in *.
      unfold float_limit in Hhi. unfold float_max.
      assert (Hcase : (q <= 2 ^ 53 - 2 \/ (q = 2 ^ 53 - 1 /\ r < 2 ^ 970))%Z).
      { destruct (Z.le_gt_cases q (2 ^ 53 - 2)); [left; assumption|].
        right. split; [lia|].
        assert (q = 2 ^ 53 - 1)%Z by lia. subst q.
        replace (2 ^ 1024)%Z with (2 ^ 53 * 2 ^ 971)%Z in Hhi
          by (rewrite <- Z.pow_add_r by lia; reflexivity).
        nia. }
      replace (2 ^ 1024)%Z with (2 ^ 53 * 2 ^ 971)%Z
        by (rewrite <- Z.pow_add_r by lia; reflexivity).
      destruct Hcase as [Hq2 | [Hq2 Hr2]].
      * match goal with |- context [if ?b then _ else _] => destruct b end; nia.
      * destruct (Z.ltb_spec (2 ^ 970) r); [lia|].
        destruct (Z.eqb_spec r (2 ^ 970)); [lia|]. cbn [orb andb]. nia.
    + assert (He2 : (e <= 970)%Z) by lia.
      assert (Hpe : (2 ^ e <= 2 ^ 970)%Z) by (apply Z.pow_le_mono_r; lia).
      unfold float_max.
      replace (2 ^ 1024)%Z with (2 ^ 54 * 2 ^ 970)%Z
        by (rewrite <- Z.pow_add_r by lia; reflexivity).
      replace (2 ^ 971)%Z with (2 * 2 ^ 970)%Z
        by (rewrite <- Z.pow_succ_r by lia; reflexivity).
      assert (0 < 2 ^ 970)%Z by (apply Z.pow_pos_nonneg; lia).
      match goal with |- context [if ?b then _ else _] => destruct b end; nia.
Qed.

(** The bound is sharp: at [float_limit] the rounded number is past the
    largest double. *)
Example float_of_int_at_limit :
  float_of_int (float_limit - 1) = float_max
  /\ float_of_int float_limit = (2 ^ 1024)%Z.
Proof. split; vm_compute; reflexivity. Qed.

(** X22.  For a byte count that is not negative and that [float]
    takes, that is one below [float_limit], [_humanize_size] prints the
    count itself with one decimal, followed by the unit of the
    1024-based range the count lies in: [B] below 1024, then [KB],
    [MB] and [GB], and [TB] from [1024 ^ 4] on.  Below [2 ^ 53] the
    number printed is the decimal writing of the count followed by
    [.0]. *)
Theorem humanize_size_unit :
  forall size : Z,
  (0 <= size < float_limit)%Z ->
  _humanize_size size = (format_1f size ++ unit_of_size size)%string
  /\ ((size < 2 ^ 53)%Z ->
      format_1f size = (decimal_of_Z size ++ ".0")%string).
Proof.
  intros size [Hsize _]. split.
  - unfold _humanize_size, inject_Z. rewrite humanize_units_pick.
    f_equal. cbn [pick_unit]. unfold unit_of_size.
    change (1024 * 1)%Z with 1024%Z.
    change (1024 * (1 * 1024))%Z with (1024 ^ 2)%Z.
    change (1024 * (1 * 1024 * 1024))%Z with (1024 ^ 3)%Z.
    change (1024 * (1 * 1024 * 1024 * 1024))%Z with (1024 ^ 4)%Z.
    rewrite !float_of_int_threshold by (try exact Hsize; now vm_compute).
    reflexivity.
  - intros Hsmall. unfold format_1f.
    rewrite float_of_int_small by lia. reflexivity.
Qed.

Lemma humanize_size_unit_witness :
  _humanize_size 3000000 = (format_1f 3000000 ++ "MB")%string.
Proof.
  apply (proj1 (humanize_size_unit 3000000%Z
                  ltac:(split; now vm_compute))).
Defined.
